(** * node-pathwatcher: subscriptions, registry and FSEvents backend

    A shallow embedding of the parts of [src/main.js],
    [src/native-watcher-registry.js],
    [lib/platform/FSEventsFileWatcher.cpp] and [lib/core.cc] that the
    specification's properties talk about, and of what stands around them
    in the code, followed by the properties themselves.

    Conventions of the embedding:
    - JavaScript and C++ strings are [string]; [null] is [None];
    - the file system is an explicit oracle ([FS]); a synchronous [fs] call
      that throws is a [None] answer of the oracle;
    - a JavaScript exception escaping a function is an explicit result
      ([Threw], [Throw], [None]) and never a silent default;
    - objects mutated in place are passed and returned explicitly;
    - effects on collaborators (native watchers) are recorded in a trace. *)

From Stdlib Require Import Bool Arith ZArith List Ascii String Lia.
Import ListNotations.
Open Scope string_scope.

(** ** Node's [path] module (POSIX flavour) and [String.prototype] helpers

    These are not part of the repository; they are written after the
    behaviour of Node.js on POSIX hosts ([path.sep] is ["/"]). *)

Module NodePath.

Definition path_sep : string := "/".
Definition slash : ascii := "/"%char.

Definition is_slash (c : ascii) : bool := Ascii.eqb c slash.

(** [str.startsWith(prefix)] *)
Definition startsWith (str prefix : string) : bool := String.prefix prefix str.

Fixpoint lastChar (s : string) : option ascii :=
  match s with
  | EmptyString => None
  | String c EmptyString => Some c
  | String _ rest => lastChar rest
  end.

(** [str.endsWith("/")] *)
Definition endsWithSep (s : string) : bool :=
  match lastChar s with
  | Some c => is_slash c
  | None => false
  end.

Fixpoint dropWhile {A} (f : A -> bool) (l : list A) : list A :=
  match l with
  | [] => []
  | x :: r => if f x then dropWhile f r else l
  end.

(** [path.dirname]: scan from the last character down to index 1, skip the
    trailing separators, then stop at the first separator that follows a
    non-separator character. *)
Definition dirname (p : string) : string :=
  match p with
  | EmptyString => "."
  | String c0 rest =>
      let hasRoot := is_slash c0 in
      let scanned := rev (list_ascii_of_string rest) in
      let afterTrailing := dropWhile is_slash scanned in
      match dropWhile (fun c => negb (is_slash c)) afterTrailing with
      | [] => if hasRoot then "/" else "."
      | _ :: before =>
          if hasRoot && (Nat.eqb (List.length before) 0) then "//"
          else String c0 (string_of_list_ascii (rev before))
      end
  end.

(** [str.split("/")] *)
Fixpoint splitAux (cur : string) (s : string) : list string :=
  match s with
  | EmptyString => [cur]
  | String c rest =>
      if is_slash c then cur :: splitAux "" rest
      else splitAux (cur ++ String c "") rest
  end.

Definition split (s : string) : list string := splitAux "" s.

(** [arr.join("/")] *)
Fixpoint joinSep (l : list string) : string :=
  match l with
  | [] => ""
  | [x] => x
  | x :: r => x ++ "/" ++ joinSep r
  end.

(** The segment normalisation of [path.normalize]: [""] and ["."] vanish,
    [".."] cancels the segment before it; [allowAboveRoot] keeps the
    [".."] that has nothing to cancel.  [acc] holds the result so far,
    last segment first. *)
Fixpoint normalizeSegments (allowAboveRoot : bool) (acc : list string)
         (l : list string) : list string :=
  match l with
  | [] => rev acc
  | seg :: r =>
      if String.eqb seg "" || String.eqb seg "." then
        normalizeSegments allowAboveRoot acc r
      else if String.eqb seg ".." then
        match acc with
        | last :: acc' =>
            if String.eqb last ".." then
              normalizeSegments allowAboveRoot (seg :: acc) r
            else normalizeSegments allowAboveRoot acc' r
        | [] =>
            if allowAboveRoot then normalizeSegments allowAboveRoot [seg] r
            else normalizeSegments allowAboveRoot [] r
        end
      else normalizeSegments allowAboveRoot (seg :: acc) r
  end.

Definition isAbsolute (p : string) : bool :=
  match p with
  | String c _ => is_slash c
  | EmptyString => false
  end.

(** [normalizeString(path, allowAboveRoot)] *)
Definition normalizeString (p : string) (allowAboveRoot : bool) : string :=
  joinSep (normalizeSegments allowAboveRoot [] (split p)).

(** [path.normalize] *)
Definition normalize (p : string) : string :=
  match p with
  | EmptyString => "."
  | _ =>
      let trailingSeparator := endsWithSep p in
      let body := normalizeString p (negb (isAbsolute p)) in
      match body with
      | EmptyString =>
          if isAbsolute p then "/"
          else if trailingSeparator then "./" else "."
      | _ =>
          let body := if trailingSeparator then body ++ "/" else body in
          if isAbsolute p then "/" ++ body else body
      end
  end.

(** [path.join(...parts)]: the non-empty arguments joined by ["/"] and
    normalised; ["."] when nothing is left. *)
Definition join (parts : list string) : string :=
  let nonEmpty := filter (fun s => negb (String.eqb s "")) parts in
  match nonEmpty with
  | [] => "."
  | _ => normalize (joinSep nonEmpty)
  end.

(** [path.resolve(p)] for a process whose working directory is the
    absolute path [cwd]: an absolute [p] stands for itself, a relative one
    is appended to [cwd]; the result has no trailing separator. *)
Definition resolve (cwd p : string) : string :=
  if isAbsolute p then "/" ++ normalizeString p false
  else "/" ++ normalizeString (cwd ++ "/" ++ p) false.

End NodePath.

(** ** [src/main.js] *)

(** The file-system calls [main.js] makes.  [realpathSync] and [statSync]
    throw on a missing path: that is the [None] answer.  [statIsDirectory p]
    is [fs.statSync(p).isDirectory()]. *)
Record FS := {
  existsSync : string -> bool;
  realpathSync : string -> option string;
  statIsDirectory : string -> option bool
}.

(** The event names the native addon hands to [DEFAULT_CALLBACK]
    ([EventType] in [lib/core.cc]). *)
Inductive Action :=
| create | delete | change | rename
| child_create | child_delete | child_change | child_rename
| unknown.

Definition Action_eqb (a b : Action) : bool :=
  match a, b with
  | create, create | delete, delete | change, change | rename, rename
  | child_create, child_create | child_delete, child_delete
  | child_change, child_change | child_rename, child_rename
  | unknown, unknown => true
  | _, _ => false
  end.

(** The names the native addon gives to events on a child of the watched
    directory. *)
Definition isChildAction (a : Action) : bool :=
  match a with
  | child_create | child_delete | child_change | child_rename => true
  | _ => false
  end.

(** [class WatcherEvent]: [DEFAULT_CALLBACK] always builds it from two
    strings; a missing old path is the empty string. *)
Record WatcherEvent := {
  action : Action;
  path : string;
  oldPath : string
}.

(** What one run of [onNativeEvent] does with the user's callback. *)
Inductive Outcome :=
| Threw                                            (* an exception escaped *)
| Returned                                         (* returned, callback not called *)
| Called (kind : Action) (arg : option string).    (* callback(kind, arg) *)

(** [sep(dirPath)] *)
Definition sep (dirPath : string) : string :=
  if NodePath.endsWithSep dirPath then dirPath
  else dirPath ++ NodePath.path_sep.

Inductive Error :=
| WatcherError (message code : string)
| FsError                     (* a synchronous [fs] call threw *)
| TypeError                   (* property access on [undefined] *)
| BindingError                (* [binding.watch] threw *)
| RangeError.                 (* the call stack is exhausted *)

Inductive Result (A : Type) :=
| Ok (a : A)
| Throw (e : Error).
Arguments Ok {A} a.
Arguments Throw {A} e.

Module PathWatcher.

(** The fields of [class PathWatcher] that the translator and the
    constructor read and write. *)
Record t := {
  watchedPath : string;
  normalizedPath : string;
  originalNormalizedPath : string;
  isWatchingParent : bool;
  native : option string;     (* the native watcher, named by its directory *)
  active : bool
}.

(** [getRealFilePath] *)
Definition getRealFilePath (fs : FS) (filePath : string) : string :=
  match realpathSync fs filePath with
  | Some real => real
  | None => filePath
  end.

(** [constructor (registry, watchedPath)] *)
Definition constructor (fs : FS) (watched : string) : Result t :=
  if negb (existsSync fs watched) then
    Throw (WatcherError "Unable to watch path" "ENOENT")
  else
    let real := getRealFilePath fs watched in
    match statIsDirectory fs real with
    | None => Throw FsError
    | Some isDir =>
        let watchingParent := negb isDir in
        Ok {| watchedPath := watched;
              normalizedPath :=
                if watchingParent then NodePath.dirname real else real;
              originalNormalizedPath := real;
              isWatchingParent := watchingParent;
              native := None;
              active := true |}
    end.

(** [moveToPath (newPath)]; [None] when [isDirectory] throws, which happens
    before any field is assigned. *)
Definition moveToPath (fs : FS) (this : t) (newPath : string) : option t :=
  match statIsDirectory fs newPath with
  | None => None
  | Some isDir =>
      let watchingParent := negb isDir in
      Some {| watchedPath := watchedPath this;
              normalizedPath :=
                if watchingParent then NodePath.dirname newPath else newPath;
              originalNormalizedPath := newPath;
              isWatchingParent := watchingParent;
              native := native this;
              active := active this |}
  end.

(** [isWatchedPath] of [onNativeEvent] *)
Definition isWatchedPath (this : t) (eventPath : string) : bool :=
  NodePath.startsWith eventPath (sep (normalizedPath this)).

(** The tail of [onNativeEvent], after the [switch]: the spurious-create
    test, the choice of the path argument and the call. *)
Definition deliver (eventPathIsEqual : bool) (this : t)
           (kind : Action) (newPath : string) : t * Outcome :=
  if eventPathIsEqual && Action_eqb kind create then (this, Returned)
  else
    let arg :=
      if eventPathIsEqual then
        (if Action_eqb kind delete then None else Some "")
      else Some newPath in
    (this, Called kind arg).

(** [onNativeEvent (event, callback)] *)
Definition onNativeEvent (fs : FS) (this : t) (event : WatcherEvent)
  : t * Outcome :=
  let eventPathIsEqual := String.eqb (originalNormalizedPath this) (path event) in
  let eventOldPathIsEqual := String.eqb (originalNormalizedPath this) (oldPath event) in
  let newWatched := isWatchedPath this (path event) in
  let oldWatched := isWatchedPath this (oldPath event) in
  if negb newWatched && negb oldWatched then (this, Returned)
  else
    match action event with
    | child_create =>
        if negb (isWatchingParent this) then
          if eventPathIsEqual then deliver eventPathIsEqual this create (path event)
          else deliver eventPathIsEqual this change ""
        else if eventPathIsEqual then
          deliver eventPathIsEqual this create (path event)
        else deliver eventPathIsEqual this child_create (path event)
    | child_delete =>
        if negb (isWatchingParent this) then
          deliver eventPathIsEqual this change ""
        else if eventPathIsEqual then
          deliver eventPathIsEqual this delete (path event)
        else deliver eventPathIsEqual this child_delete (path event)
    | child_rename =>
        let pathIsInvolved := eventPathIsEqual || eventOldPathIsEqual in
        if isWatchingParent this && negb pathIsInvolved then (this, Returned)
        else if negb (isWatchingParent this) && negb pathIsInvolved then
          if String.eqb (NodePath.dirname (path event)) (normalizedPath this)
             || String.eqb (NodePath.dirname (oldPath event)) (normalizedPath this)
          then deliver eventPathIsEqual this change ""
          else (this, Returned)
        else
          let moved :=
            if newWatched && negb eventPathIsEqual
            then moveToPath fs this (path event)
            else Some this in
          match moved with
          | None => (this, Threw)
          | Some this' =>
              let kind :=
                if oldWatched && newWatched then rename
                else if oldWatched && negb newWatched then delete
                else if negb oldWatched && newWatched then create
                else child_rename in
              deliver eventPathIsEqual this' kind (path event)
          end
    | child_change =>
        if negb (isWatchingParent this) then
          if eventPathIsEqual then (this, Returned)
          else deliver eventPathIsEqual this change ""
        else
          if eventPathIsEqual then deliver eventPathIsEqual this change ""
          else (this, Returned)
    | other =>
        (* 'rename', 'delete', 'create' need no alteration; any other name
           matches no [case] *)
        deliver eventPathIsEqual this other (path event)
    end.

(** A subscription on a file, as the constructor and [moveToPath] build
    it: the parent directory is watched and the target is an absolute
    path. *)
Definition onAFile (this : t) : Prop :=
  isWatchingParent this = true
  /\ normalizedPath this = NodePath.dirname (originalNormalizedPath this)
  /\ NodePath.isAbsolute (originalNormalizedPath this) = true.

End PathWatcher.

(** *** [class NativeWatcher] and the module-level state around it *)

Module NativeWatcher.

Record t := {
  id : nat;
  normalizedPath : string;
  recursive : bool;
  running : bool;
  handle : option Z           (* [undefined] until [start] succeeds *)
}.

(** [static INSTANCES = new Map()], keyed by backend handle, in insertion
    order; [NativeWatcherId]; the number of calls made to [binding.watch]
    so far; and every [NativeWatcher] object built so far, with its fields
    as they are now, oldest first: a subscription or a leaf of the registry
    that kept a reference to a native watcher holds one of these. *)
Record State := {
  INSTANCES : list (Z * t);
  NativeWatcherId : nat;
  bindingCalls : nat;
  created : list t
}.

(** The native addon as seen from JavaScript: the [n]-th call of
    [binding.watch(path, recursive)] returns a handle or throws ([None]).
    Nothing is assumed about the handles. *)
Definition Binding := nat -> string -> bool -> option Z.

Definition initial : State :=
  {| INSTANCES := []; NativeWatcherId := 1; bindingCalls := 0; created := [] |}.

(** [Map.prototype.set]: an existing key keeps its place. *)
Fixpoint mapSet (m : list (Z * t)) (k : Z) (v : t) : list (Z * t) :=
  match m with
  | [] => [(k, v)]
  | (k', v') :: r =>
      if Z.eqb k' k then (k, v) :: r else (k', v') :: mapSet r k v
  end.

(** [Map.prototype.delete] *)
Definition mapDelete (m : list (Z * t)) (k : Z) : list (Z * t) :=
  filter (fun kv => negb (Z.eqb (fst kv) k)) m.

Definition mapGet (m : list (Z * t)) (k : Z) : option t :=
  match find (fun kv => Z.eqb (fst kv) k) m with
  | Some kv => Some (snd kv)
  | None => None
  end.

(** The object with the identity of [this] takes the fields of [this]:
    what an assignment to a field of [this] does to whoever holds it. *)
Fixpoint assign (objects : list t) (this : t) : list t :=
  match objects with
  | [] => []
  | o :: r =>
      if Nat.eqb (id o) (id this) then this :: r else o :: assign r this
  end.

(** The object that was given the identity [i] by the constructor. *)
Definition objectOf (objects : list t) (i : nat) : option t :=
  find (fun o => Nat.eqb (id o) i) objects.

(** The [for] loop of [findOrCreate] over [INSTANCES.values()]. *)
Fixpoint findInstance (m : list (Z * t)) (p : string) : option t :=
  match m with
  | [] => None
  | (_, instance) :: r =>
      if String.eqb (normalizedPath instance) p then Some instance
      else findInstance r p
  end.

(** [static findOrCreate (normalizedPath, options)]; the constructor takes
    the next [NativeWatcherId]. *)
Definition findOrCreate (st : State) (p : string) (optRecursive : bool)
  : t * State :=
  match findInstance (INSTANCES st) p with
  | Some instance => (instance, st)
  | None =>
      let this := {| id := NativeWatcherId st; normalizedPath := p;
                     recursive := optRecursive; running := false;
                     handle := None |} in
      (this,
       {| INSTANCES := INSTANCES st;
          NativeWatcherId := S (NativeWatcherId st);
          bindingCalls := bindingCalls st;
          created := created st ++ [this] |})
  end.

(** [start ()]; the last component is [false] when [binding.watch]
    threw, in which case neither [handle] nor [INSTANCES] is written. *)
Definition start (fs : FS) (binding : Binding) (st : State) (this : t)
  : t * State * bool :=
  if running this then (this, st, true)
  else if negb (existsSync fs (normalizedPath this)) then (this, st, true)
  else
    let st1 := {| INSTANCES := INSTANCES st;
                  NativeWatcherId := NativeWatcherId st;
                  bindingCalls := S (bindingCalls st);
                  created := created st |} in
    match binding (bindingCalls st) (normalizedPath this) (recursive this) with
    | None => (this, st1, false)
    | Some h =>
        let this' := {| id := id this; normalizedPath := normalizedPath this;
                        recursive := recursive this; running := true;
                        handle := Some h |} in
        (this',
         {| INSTANCES := mapSet (INSTANCES st) h this';
            NativeWatcherId := NativeWatcherId st;
            bindingCalls := S (bindingCalls st);
            created := assign (created st) this' |},
         true)
    end.

(** [stop (shutdown)]: [INSTANCES.delete(this.handle)] is made whether or
    not the native watcher was running. *)
Definition stop (st : State) (this : t) : t * State :=
  let this' := {| id := id this; normalizedPath := normalizedPath this;
                  recursive := recursive this; running := false;
                  handle := handle this |} in
  (this',
   {| INSTANCES :=
        match handle this with
        | Some h => mapDelete (INSTANCES st) h
        | None => INSTANCES st
        end;
      NativeWatcherId := NativeWatcherId st;
      bindingCalls := bindingCalls st;
      created := assign (created st) this' |}).

(** The loop of [closeAllWatchers] over [INSTANCES.values()]: an entry
    that an earlier [stop] has deleted is not visited. *)
Fixpoint stopEach (pending : list (Z * t)) (st : State) : State :=
  match pending with
  | [] => st
  | (h, watcher) :: r =>
      match mapGet (INSTANCES st) h with
      | Some _ => stopEach r (snd (stop st watcher))
      | None => stopEach r st
      end
  end.

(** [closeAllWatchers], as far as the native watchers go: the loop, then
    [INSTANCES.clear()]. *)
Definition closeAll (st : State) : State :=
  let st' := stopEach (INSTANCES st) st in
  {| INSTANCES := [];
     NativeWatcherId := NativeWatcherId st';
     bindingCalls := bindingCalls st';
     created := created st' |}.

(** What the rest of [main.js] does to native watchers:
    - a subscription gets its native watcher from [findOrCreate] (through
      the registry's [createNative]) and listens to it, and [onDidChange]
      starts it;
    - the last listener of a live native watcher leaves, and the
      [Disposable] of [onDidChange] stops it;
    - [closeAllWatchers];
    - a subscription that still holds a native watcher ([close] leaves
      [native] in place when other listeners keep the native watcher
      alive) subscribes to it again: [PathWatcher.onDidChange] calls
      [native.onDidChange], which calls [start], on whatever native watcher
      it holds, named here by its identity;
    - the [Disposable] of such a subscription is disposed of, and [stop]
      is called on the native watcher it holds. *)
Inductive Op :=
| Acquire (p : string) (optRecursive : bool)
| Release (h : Z)
| CloseAll
| Start (i : nat)
| Stop (i : nat).

(** [start()] called on the native watcher of identity [i] by whoever
    holds it; the last component is [false] when [binding.watch] threw. *)
Definition startHeld (fs : FS) (binding : Binding) (st : State) (i : nat)
  : State * bool :=
  match objectOf (created st) i with
  | Some w => let '(_, st1, returned) := start fs binding st w in (st1, returned)
  | None => (st, true)
  end.

Definition step (fs : FS) (binding : Binding) (st : State) (op : Op) : State :=
  match op with
  | Acquire p r =>
      let '(w, st1) := findOrCreate st p r in
      let '(_, st2, _) := start fs binding st1 w in
      st2
  | Release h =>
      match mapGet (INSTANCES st) h with
      | Some w => snd (stop st w)
      | None => st
      end
  | CloseAll => closeAll st
  | Start i => fst (startHeld fs binding st i)
  | Stop i =>
      match objectOf (created st) i with
      | Some w => snd (stop st w)
      | None => st
      end
  end.

Definition run (fs : FS) (binding : Binding) (ops : list Op) : State :=
  fold_left (step fs binding) ops initial.

Definition pathOf (kv : Z * t) : string := normalizedPath (snd kv).

Definition livePaths (st : State) : list string := map pathOf (INSTANCES st).


(** What every step of the life of the native watchers keeps: the live
    ones are running, and each is filed under its own handle. *)
Definition wellKept (st : State) : Prop :=
  Forall (fun kv => running (snd kv) = true) (INSTANCES st)
  /\ Forall (fun kv => handle (snd kv) = Some (fst kv)) (INSTANCES st).

(** The copies that [INSTANCES] holds are the objects as they are, and
    the identities in use are those the constructor has handed out. *)
Definition upToDate (st : State) : Prop :=
  Forall (fun kv => objectOf (created st) (id (snd kv)) = Some (snd kv))
         (INSTANCES st)
  /\ Forall (fun i => (i < NativeWatcherId st)%nat) (map id (created st)).

End NativeWatcher.

(** ** [src/native-watcher-registry.js] *)

Module Registry.

Local Open Scope list_scope.
#[local] Set Warnings "-register-all".

(** [NativeWatcherRegistry.DEFAULT_OPTIONS] and their overrides. *)
Record Options := {
  reuseAncestorWatchers : bool;
  relocateDescendantWatchers : bool;
  relocateAncestorWatchers : bool;
  mergeWatchersWithCommonAncestors : bool;
  maxCommonAncestorLevel : Z
}.

Definition DEFAULT_OPTIONS : Options :=
  {| reuseAncestorWatchers := true;
     relocateDescendantWatchers := true;
     relocateAncestorWatchers := true;
     mergeWatchersWithCommonAncestors := true;
     maxCommonAncestorLevel := 3 |}.

(** The registry never looks inside a native watcher: it is named here by
    the absolute path handed to [createNative]. *)
Definition Native := string.

(** What the registry asks of its collaborators, in program order. *)
Inductive Effect :=
| ECreateNative (absolutePath : string)
| EAttachToNative (native : Native) (nativePath : string)
| EReattachListenersTo (this replacement : Native) (watchedPath : string)
| EDispose (native : Native)
| EStop (native : Native).

(** The fields of a [RegistryWatcherNode]; [childPaths] is a JavaScript
    [Set] of joined strings, in insertion order. *)
Record WatcherNode := {
  nativeWatcher : Native;
  absolutePathSegments : list string;
  childPaths : list string;
  options : Options
}.

(** A node of the trie.  [children] is the plain object ([{}]) used as a
    map: its own properties, listed as [Object.keys] lists them, a property
    holding [undefined] being [None].  A [RegistryNode] built by
    [new RegistryNode(null)] has neither [parent] nor [pathKey]
    ([pathKey = None]); every other one is built by [insert] as
    [new RegistryNode(this, pathKey)] and stored at once under [pathKey] in
    its parent, so that its [parent] is the node above it in the trie. *)
Inductive Node :=
| RegistryNode (pathKey : option string) (children : list (string * option Node))
| RegistryWatcherNode (w : WatcherNode).

Definition Children := list (string * option Node).

(** The names every plain object inherits from [Object.prototype]: reading
    one of them gives a function (for [__proto__], an object), not
    [undefined], unless the object has a property of its own under that
    name. *)
Definition onObjectPrototype (k : string) : bool :=
  existsb (String.eqb k)
          ["constructor"; "__defineGetter__"; "__defineSetter__";
           "hasOwnProperty"; "__lookupGetter__"; "__lookupSetter__";
           "isPrototypeOf"; "propertyIsEnumerable"; "toString"; "valueOf";
           "__proto__"; "toLocaleString"].

(** The own property [k] of [children], if there is one. *)
Fixpoint own (ch : Children) (k : string) : option (option Node) :=
  match ch with
  | [] => None
  | (k', v) :: r => if String.eqb k' k then Some v else own r k
  end.

(** What [this.children[k]] evaluates to. *)
Inductive Read :=
| ReadUndefined                 (* [undefined] *)
| ReadInherited                 (* a member of [Object.prototype] *)
| ReadNode (child : Node).

Definition getChild (ch : Children) (k : string) : Read :=
  match own ch k with
  | Some (Some child) => ReadNode child
  | Some None => ReadUndefined
  | None => if onObjectPrototype k then ReadInherited else ReadUndefined
  end.

(** An array index is the canonical decimal form of an integer below
    [2^32 - 1].  [Object.keys] lists the keys that are array indices first,
    in ascending order, and the others after them in the order in which they
    were created. *)
Fixpoint digitsValue (s : string) (acc : N) : option N :=
  match s with
  | EmptyString => Some acc
  | String c r =>
      let n := N_of_ascii c in
      if N.leb 48 n && N.leb n 57
      then digitsValue r (acc * 10 + (n - 48))%N
      else None
  end.

Definition arrayIndex (k : string) : option N :=
  match k with
  | EmptyString => None
  | String c r =>
      if Ascii.eqb c "0" && negb (String.eqb r "") then None
      else
        match digitsValue k 0%N with
        | Some n => if N.ltb n 4294967295 then Some n else None
        | None => None
        end
  end.

(** Whether a new key [k] is listed before the existing key [k']. *)
Definition listedBefore (k k' : string) : bool :=
  match arrayIndex k, arrayIndex k' with
  | Some n, Some n' => N.ltb n n'
  | Some _, None => true
  | None, _ => false
  end.

Fixpoint insertKey (ch : Children) (k : string) (v : option Node) : Children :=
  match ch with
  | [] => [(k, v)]
  | (k', v') :: r =>
      if listedBefore k k' then (k, v) :: ch else (k', v') :: insertKey r k v
  end.

Fixpoint replaceKey (ch : Children) (k : string) (v : option Node) : Children :=
  match ch with
  | [] => []
  | (k', v') :: r =>
      if String.eqb k' k then (k, v) :: r else (k', v') :: replaceKey r k v
  end.

(** [this.children[k] = v] for a key [k] that is not on [Object.prototype]
    or is already an own property (the code reads [children[k]] before it
    writes it, and throws on an inherited member): an existing property
    keeps its place, a new one takes the place [Object.keys] gives it. *)
Definition setChild (ch : Children) (k : string) (v : option Node) : Children :=
  match own ch k with
  | Some _ => replaceKey ch k v
  | None => insertKey ch k v
  end.

(** [delete this.children[k]] *)
Definition deleteChild (ch : Children) (k : string) : Children :=
  filter (fun kv => negb (String.eqb (fst kv) k)) ch.

(** [Set.prototype.add] and [Set.prototype.delete] *)
Definition setAdd (s : list string) (x : string) : list string :=
  if existsb (String.eqb x) s then s else s ++ [x].

Definition setDelete (s : list string) (x : string) : list string :=
  filter (fun y => negb (String.eqb y x)) s.

(** [absolute(...parts)] *)
Definition absolute (parts : list string) : string :=
  let candidate := NodePath.join parts in
  if NodePath.isAbsolute candidate then candidate
  else NodePath.join [NodePath.path_sep; candidate].

(** [new RegistryWatcherNode(native, absolutePathSegments, childPaths, options)] *)
Definition newWatcherNode (nat : Native) (segments : list string)
           (paths : list (list string)) (opts : Options) : WatcherNode :=
  {| nativeWatcher := nat;
     absolutePathSegments := segments;
     childPaths := fold_left (fun s p => setAdd s (NodePath.join p)) paths [];
     options := opts |}.

Definition addChildPath (w : WatcherNode) (childPathSegments : list string)
  : WatcherNode :=
  {| nativeWatcher := nativeWatcher w;
     absolutePathSegments := absolutePathSegments w;
     childPaths := setAdd (childPaths w) (NodePath.join childPathSegments);
     options := options w |}.

Definition removeChildPath (w : WatcherNode) (childPathSegments : list string)
  : WatcherNode :=
  {| nativeWatcher := nativeWatcher w;
     absolutePathSegments := absolutePathSegments w;
     childPaths := setDelete (childPaths w) (NodePath.join childPathSegments);
     options := options w |}.

(** [leaves(prefix)] of both node classes; [None] is the [TypeError] of
    calling [leaves] on an [undefined] child. *)
Fixpoint leaves (n : Node) (prefix : list string)
  : option (list (WatcherNode * list string)) :=
  match n with
  | RegistryWatcherNode w => Some [(w, prefix)]
  | RegistryNode _ ch =>
      (fix each (ch : Children) : option (list (WatcherNode * list string)) :=
         match ch with
         | [] => Some []
         | (p, None) :: _ => None
         | (p, Some c) :: r =>
             match leaves c (prefix ++ [p]), each r with
             | Some here, Some there => Some (here ++ there)
             | _, _ => None
             end
         end) ch
  end.

(** [pointer.pathKey] as a condition *)
Definition truthy (k : option string) : bool :=
  match k with
  | Some s => negb (String.eqb s "")
  | None => false
  end.

(** The [while] loop of [getPathSegments]: [ancestors] are the [pathKey]s
    met by following [parent] upwards, nearest first.  The comparison node
    passed by [add] is the tree itself, never a node. *)
Fixpoint climb (ancestors : list (option string)) (result : list string)
  : list string :=
  match ancestors with
  | Some k :: up => if truthy (Some k) then climb up (k :: result) else result
  | _ => result
  end.

(** [getPathSegments()] of a node with key [k] below [ancestors]. *)
Definition getPathSegments (k : string) (ancestors : list (option string))
  : list string :=
  climb ancestors [k].

Inductive LookupResult :=
| ParentResult (parent : WatcherNode) (remainingPathSegments : list string)
| ChildrenResult (children : list (WatcherNode * list string))
| MissingResult (lastParent : Node) (ancestors : list (option string)).

(** [lookup(pathSegments)] of both node classes; [None] is a [TypeError]:
    [leaves] called on [undefined], or [lookup] called on a member of
    [Object.prototype].  [ancestors] are the [pathKey]s of the nodes above
    [this], nearest first ([None] above a node whose [parent] is [null]);
    they stand for the [parent] pointers that [getPathSegments] follows
    from the node a [MissingResult] returns. *)
Fixpoint lookup (pathSegments : list string) (this : Node)
         (ancestors : list (option string)) : option LookupResult :=
  match this with
  | RegistryWatcherNode w => Some (ParentResult w pathSegments)
  | RegistryNode k ch =>
      match pathSegments with
      | [] =>
          match leaves this [] with
          | Some ls => Some (ChildrenResult ls)
          | None => None
          end
      | seg :: rest =>
          match getChild ch seg with
          | ReadUndefined => Some (MissingResult this ancestors)
          | ReadInherited => None
          | ReadNode child => lookup rest child (k :: ancestors)
          end
      end
  end.

(** [insert(pathSegments, leaf)] of both node classes.  The outer [None]
    is the [TypeError] of calling [insert] on a member of
    [Object.prototype]; the value is what is returned, [None] being the
    [undefined] a [RegistryWatcherNode] returns for a non-empty path. *)
Fixpoint insert (pathSegments : list string) (this : Node) (leaf : Node)
  : option (option Node) :=
  match this with
  | RegistryWatcherNode _ =>
      match pathSegments with
      | [] => Some (Some leaf)
      | _ => Some None
      end
  | RegistryNode k ch =>
      match pathSegments with
      | [] => Some (Some leaf)
      | pathKey :: rest =>
          let child :=
            match getChild ch pathKey with
            | ReadNode c => Some c
            | ReadUndefined => Some (RegistryNode (Some pathKey) [])
            | ReadInherited => None
            end in
          match child with
          | None => None
          | Some child =>
              match insert rest child leaf with
              | None => None
              | Some returned =>
                  Some (Some (RegistryNode k (setChild ch pathKey returned)))
              end
          end
      end
  end.

(** [parent.addChildPath(remaining)] on the leaf that [lookup] returned:
    the leaf is shared with the trie, so the trie sees the new child path. *)
Fixpoint addChildPathAt (pathSegments : list string) (this : Node) : Node :=
  match this with
  | RegistryWatcherNode w => RegistryWatcherNode (addChildPath w pathSegments)
  | RegistryNode k ch =>
      match pathSegments with
      | [] => this
      | seg :: rest =>
          match getChild ch seg with
          | ReadNode child =>
              RegistryNode k (setChild ch seg (Some (addChildPathAt rest child)))
          | _ => this
          end
      end
  end.

(** [class RegistryTree]; [root] is [None] once [insert] has answered
    [undefined]. *)
Record RegistryTree := {
  basePathSegments : list string;
  root : option Node;
  treeOptions : Options
}.

Definition newTree (base : list string) (opts : Options) : RegistryTree :=
  {| basePathSegments := base;
     root := Some (RegistryNode None []);
     treeOptions := opts |}.

Definition withRoot (tree : RegistryTree) (r : option Node) : RegistryTree :=
  {| basePathSegments := basePathSegments tree;
     root := r;
     treeOptions := treeOptions tree |}.

(** The [for] loops of [add] over the leaves that give way to a new native
    watcher. *)
Definition handOver (ls : list (WatcherNode * list string))
           (newNative : Native) (absolutePath : string) : list Effect :=
  flat_map (fun l =>
              let native := nativeWatcher (fst l) in
              [EReattachListenersTo native newNative absolutePath;
               EDispose native;
               EStop native]) ls.

(** [attachToNew] of [add]: [createNative], then [insert], then
    [attachToNative]; [None] when [insert] throws. *)
Definition attachToNew (tree : RegistryTree) (r : Node)
           (pathSegments : list string)
           (attachToNative : Native -> string -> list Effect)
           (childPaths : list (list string))
  : option (RegistryTree * list Effect) :=
  let absolutePathSegments := basePathSegments tree ++ pathSegments in
  let absolutePath := absolute absolutePathSegments in
  let native : Native := absolutePath in
  let leaf := newWatcherNode native absolutePathSegments childPaths
                             (treeOptions tree) in
  match insert pathSegments r (RegistryWatcherNode leaf) with
  | None => None
  | Some returned =>
      Some (withRoot tree returned,
            ECreateNative absolutePath :: attachToNative native absolutePath)
  end.

(** [attachToAncestor] of [add] *)
Definition attachToAncestor (tree : RegistryTree) (r : Node)
           (attachToNative : Native -> string -> list Effect)
           (absolutePaths : list string) (childPaths : list (list string))
  : option (RegistryTree * list Effect) :=
  let ancestorAbsolutePath := absolute absolutePaths in
  let native : Native := ancestorAbsolutePath in
  let leaf := newWatcherNode native absolutePaths childPaths
                             (treeOptions tree) in
  match insert absolutePaths r (RegistryWatcherNode leaf) with
  | None => None
  | Some returned =>
      Some (withRoot tree returned,
            ECreateNative ancestorAbsolutePath
              :: attachToNative native ancestorAbsolutePath)
  end.

(** [add(pathSegments, attachToNative)]; [None] when a [TypeError]
    escapes. *)
Definition add (tree : RegistryTree) (pathSegments : list string)
           (attachToNative : Native -> string -> list Effect)
  : option (RegistryTree * list Effect) :=
  match root tree with
  | None => None
  | Some r =>
      match lookup pathSegments r [] with
      | None => None
      | Some (ParentResult parent remaining) =>
          if negb (reuseAncestorWatchers (treeOptions tree)) then
            attachToNew tree r pathSegments attachToNative []
          else
            Some (withRoot tree (Some (addChildPathAt pathSegments r)),
                  attachToNative (nativeWatcher parent)
                                 (absolute (absolutePathSegments parent)))
      | Some (ChildrenResult children) =>
          match attachToNew tree r pathSegments attachToNative
                            (map snd children) with
          | None => None
          | Some (tree', effects) =>
              let absolutePath :=
                absolute (basePathSegments tree ++ pathSegments) in
              Some (tree', effects ++ handOver children absolutePath absolutePath)
          end
      | Some (MissingResult lastParent ancestors) =>
          if negb (mergeWatchersWithCommonAncestors (treeOptions tree)) then
            attachToNew tree r pathSegments attachToNative []
          else
            match lastParent with
            | RegistryWatcherNode _ => None     (* a [MissingResult] holds a [RegistryNode] *)
            | RegistryNode None _ =>
                (* [lastParent.parent == null] *)
                attachToNew tree r pathSegments attachToNative []
            | RegistryNode (Some k) _ =>
                match leaves lastParent (basePathSegments tree) with
                | None => None
                | Some [] => attachToNew tree r pathSegments attachToNative []
                | Some ls =>
                    let ancestorPathSegments := getPathSegments k ancestors in
                    let remainingPathSegments :=
                      skipn (List.length ancestorPathSegments) pathSegments in
                    let difference :=
                      (Z.of_nat (List.length pathSegments)
                       - Z.of_nat (List.length ancestorPathSegments))%Z in
                    if (difference >? maxCommonAncestorLevel (treeOptions tree))%Z
                    then attachToNew tree r pathSegments attachToNative []
                    else
                      let childPaths := map snd ls ++ [remainingPathSegments] in
                      match attachToAncestor tree r attachToNative
                                             ancestorPathSegments childPaths with
                      | None => None
                      | Some (tree', effects) =>
                          let absolutePath := absolute ancestorPathSegments in
                          Some (tree',
                                effects ++ handOver ls absolutePath absolutePath)
                      end
                end
            end
      end
  end.

(** What [remove] hands back to its caller: [null], or the value to store
    in the parent's slot ([Kept None] is [undefined]). *)
Inductive Removed :=
| Null
| Kept (slot : option Node).

(** [replacedWithNode] of [RegistryWatcherNode.remove]: a fresh tree rooted
    at this leaf's directory, to which every child path is added in [Set]
    order; each new native watcher is offered to this leaf's listeners. *)
Definition replacedWithNode (this : WatcherNode)
  : option (option Node * list Effect) :=
  let reattach := fun (native : Native) (attachmentPath : string) =>
    [EReattachListenersTo (nativeWatcher this) native attachmentPath] in
  let each := fun (acc : option (RegistryTree * list Effect))
                  (childPath : string) =>
    match acc with
    | None => None
    | Some (newSubTree, effects) =>
        match add newSubTree (NodePath.split childPath) reattach with
        | None => None
        | Some (newSubTree', effects') => Some (newSubTree', effects ++ effects')
        end
    end in
  match fold_left each (childPaths this)
                  (Some (newTree (absolutePathSegments this) (options this), []))
  with
  | None => None
  | Some (newSubTree, effects) => Some (root newSubTree, effects)
  end.

(** [RegistryWatcherNode.remove(pathSegments, createSplitNative)] *)
Definition removeWatcherNode (this : WatcherNode) (pathSegments : list string)
  : option (Removed * list Effect) :=
  match pathSegments with
  | _ :: _ =>
      let this' := removeChildPath this pathSegments in
      if Nat.eqb (List.length (childPaths this')) 1 then
        match replacedWithNode this' with
        | None => None
        | Some (r, effects) => Some (Kept r, effects)
        end
      else Some (Kept (Some (RegistryWatcherNode this')), [])
  | [] =>
      if Nat.ltb 0 (List.length (childPaths this)) then
        match replacedWithNode this with
        | None => None
        | Some (r, effects) => Some (Kept r, effects)
        end
      else Some (Null, [])
  end.

(** [remove(pathSegments, createSplitNative)] of both node classes; [None]
    when a [TypeError] escapes ([remove] called on a member of
    [Object.prototype], or an exception out of [replacedWithNode]). *)
Fixpoint remove (pathSegments : list string) (this : Node)
  : option (Removed * list Effect) :=
  match this with
  | RegistryWatcherNode w => removeWatcherNode w pathSegments
  | RegistryNode k ch =>
      match pathSegments with
      | [] => Some (Kept (Some this), [])
      | pathKey :: rest =>
          match getChild ch pathKey with
          | ReadUndefined => Some (Kept (Some this), [])
          | ReadInherited => None
          | ReadNode child =>
              match remove rest child with
              | None => None
              | Some (newChild, effects) =>
                  let ch' :=
                    match newChild with
                    | Null => deleteChild ch pathKey
                    | Kept slot => setChild ch pathKey slot
                    end in
                  Some (if Nat.eqb (List.length ch') 0 then Null
                        else Kept (Some (RegistryNode k ch')),
                        effects)
              end
          end
      end
  end.

(** [RegistryTree.remove(pathSegments)]: [null] and [undefined] both give
    way to a new empty root. *)
Definition removeTree (tree : RegistryTree) (pathSegments : list string)
  : option (RegistryTree * list Effect) :=
  match root tree with
  | None => None
  | Some r =>
      match remove pathSegments r with
      | None => None
      | Some (Kept (Some r'), effects) => Some (withRoot tree (Some r'), effects)
      | Some (_, effects) =>
          Some (withRoot tree (Some (RegistryNode None [])), effects)
      end
  end.

(** [class NativeWatcherRegistry]: the options and the tree. *)
Definition newRegistry (opts : Options) : RegistryTree := newTree [] opts.

(** [normalizedDirectory.split(path.sep).filter(segment => segment.length > 0)] *)
Definition segmentsOf (normalizedDirectory : string) : list string :=
  filter (fun segment => negb (String.eqb segment ""))
         (NodePath.split normalizedDirectory).

(** [attach(watcher)] for a watcher whose normalized path is known; the
    callback is [watcher.attachToNative(native, nativePath)]. *)
Definition attach (tree : RegistryTree) (normalizedDirectory : string)
  : option (RegistryTree * list Effect) :=
  add tree (segmentsOf normalizedDirectory)
      (fun native nativePath => [EAttachToNative native nativePath]).

(** [detach(watcher)] *)
Definition detach (tree : RegistryTree) (normalizedDirectory : string)
  : option (RegistryTree * list Effect) :=
  removeTree tree (segmentsOf normalizedDirectory).

End Registry.

(** *** [watch (pathToWatch, callback)] *)

(** [registryOptionsToNativeWatcherOptions(registryOptions)], the
    [recursive] flag it returns; [None] is an argument that was not passed:
    the destructuring of [undefined] throws a [TypeError]. *)
Definition registryOptionsToNativeWatcherOptions
           (registryOptions : option Registry.Options) : Result bool :=
  match registryOptions with
  | None => Throw TypeError
  | Some o =>
      Ok (Registry.relocateAncestorWatchers o
          || Registry.relocateDescendantWatchers o
          || Registry.reuseAncestorWatchers o
          || Registry.mergeWatchersWithCommonAncestors o)
  end.

(** The function [(normalizedPath, registryOptions) => ...] that [REGISTRY]
    is built with: the arguments of [NativeWatcher.findOrCreate] are
    evaluated before it is called. *)
Definition createNative (st : NativeWatcher.State) (normalizedPath : string)
           (registryOptions : option Registry.Options)
  : Result (NativeWatcher.t * NativeWatcher.State) :=
  match registryOptionsToNativeWatcherOptions registryOptions with
  | Throw e => Throw e
  | Ok optRecursive =>
      Ok (NativeWatcher.findOrCreate st normalizedPath optRecursive)
  end.

(** [PathWatcher.onDidChange(callback)] once [this.native] is set:
    [this.native.onDidChange(...)], which begins with [start()], and then
    [this.native.start()]. *)
Definition subscribe (fs : FS) (binding : NativeWatcher.Binding)
           (st : NativeWatcher.State) (native : nat)
  : NativeWatcher.State * bool :=
  let '(st1, returned) := NativeWatcher.startHeld fs binding st native in
  if returned then NativeWatcher.startHeld fs binding st1 native
  else (st1, false).

(** [this.native = native] of [attachToNative] *)
Definition attachToNative (this : PathWatcher.t) (native : Registry.Native)
  : PathWatcher.t :=
  {| PathWatcher.watchedPath := PathWatcher.watchedPath this;
     PathWatcher.normalizedPath := PathWatcher.normalizedPath this;
     PathWatcher.originalNormalizedPath := PathWatcher.originalNormalizedPath this;
     PathWatcher.isWatchingParent := PathWatcher.isWatchingParent this;
     PathWatcher.native := Some native;
     PathWatcher.active := PathWatcher.active this |}.

(** [watch (pathToWatch, callback)], on the registry [REGISTRY] and the
    native watchers [st] of the module; what comes back is the two of them
    afterwards and the subscription returned or the exception thrown.

    [cwd] is the working directory [path.resolve] reads, and [held] gives
    the identity of the [NativeWatcher] that a leaf of the registry holds.
    The new [PathWatcher] has no native watcher and a non-empty normalized
    path, so [onDidChange] asks the registry to attach it and then calls
    itself again.  [RegistryTree.add] makes one of two calls first:
    [this.createNative(absolutePath)], with one argument, before it writes
    anything, or, when a leaf above the directory is reused,
    [attachToNative] with the native watcher of that leaf.  Were neither
    made, [onDidChange] would call itself for ever. *)
Definition watch (fs : FS) (binding : NativeWatcher.Binding)
           (held : Registry.Native -> nat) (cwd : string)
           (REGISTRY : Registry.RegistryTree) (st : NativeWatcher.State)
           (pathToWatch : string)
  : Registry.RegistryTree * NativeWatcher.State
    * Result (PathWatcher.t * list Registry.Effect) :=
  match PathWatcher.constructor fs (NodePath.resolve cwd pathToWatch) with
  | Throw e => (REGISTRY, st, Throw e)
  | Ok watcher =>
      match Registry.attach REGISTRY (PathWatcher.normalizedPath watcher) with
      | None => (REGISTRY, st, Throw TypeError)
      | Some (REGISTRY', effects) =>
          let subscribed := fun (label : Registry.Native) (native : nat)
                                (st1 : NativeWatcher.State) =>
            let '(st2, returned) := subscribe fs binding st1 native in
            (REGISTRY', st2,
             if returned then Ok (attachToNative watcher label, effects)
             else Throw BindingError) in
          match effects with
          | Registry.ECreateNative absolutePath :: _ =>
              match createNative st absolutePath None with
              | Throw e => (REGISTRY, st, Throw e)
              | Ok (native, st1) =>
                  subscribed absolutePath (NativeWatcher.id native) st1
              end
          | Registry.EAttachToNative native _ :: _ =>
              subscribed native (held native) st
          | _ => (REGISTRY', st, Throw RangeError)
          end
      end
  end.

(** The registry and the native watchers of a freshly loaded module after
    [watch] has been called for each path of a list, one call after the
    other, whatever each call returned or threw. *)
Definition afterWatching (fs : FS) (binding : NativeWatcher.Binding)
           (held : Registry.Native -> nat) (cwd : string)
           (opts : Registry.Options) (paths : list string)
  : Registry.RegistryTree * NativeWatcher.State :=
  fold_left (fun s p => fst (watch fs binding held cwd (fst s) (snd s) p))
            paths (Registry.newRegistry opts, NativeWatcher.initial).

(** ** [lib/platform/FSEventsFileWatcher.cpp] *)

Module FSEvents.

Local Open Scope Z_scope.

(** The [kFSEventStreamEventFlag...] constants of Apple's [FSEvents.h]. *)
Definition kFSEventStreamEventFlagUserDropped : Z := 0x2.
Definition kFSEventStreamEventFlagKernelDropped : Z := 0x4.
Definition kFSEventStreamEventFlagEventIdsWrapped : Z := 0x8.
Definition kFSEventStreamEventFlagHistoryDone : Z := 0x10.
Definition kFSEventStreamEventFlagRootChanged : Z := 0x20.
Definition kFSEventStreamEventFlagMount : Z := 0x40.
Definition kFSEventStreamEventFlagUnmount : Z := 0x80.
Definition kFSEventStreamEventFlagItemCreated : Z := 0x100.
Definition kFSEventStreamEventFlagItemRemoved : Z := 0x200.
Definition kFSEventStreamEventFlagItemInodeMetaMod : Z := 0x400.
Definition kFSEventStreamEventFlagItemRenamed : Z := 0x800.
Definition kFSEventStreamEventFlagItemModified : Z := 0x1000.
Definition kFSEventStreamEventFlagItemFinderInfoMod : Z := 0x2000.

Definition shorthandFSEventsModified : Z :=
  Z.lor kFSEventStreamEventFlagItemFinderInfoMod
        (Z.lor kFSEventStreamEventFlagItemModified
               kFSEventStreamEventFlagItemInodeMetaMod).

Definition streamLevelFlags : Z :=
  Z.lor kFSEventStreamEventFlagUserDropped
  (Z.lor kFSEventStreamEventFlagKernelDropped
  (Z.lor kFSEventStreamEventFlagEventIdsWrapped
  (Z.lor kFSEventStreamEventFlagHistoryDone
  (Z.lor kFSEventStreamEventFlagMount
  (Z.lor kFSEventStreamEventFlagUnmount
         kFSEventStreamEventFlagRootChanged))))).

Definition createdRemovedRenamed : Z :=
  Z.lor kFSEventStreamEventFlagItemCreated
        (Z.lor kFSEventStreamEventFlagItemRemoved
               kFSEventStreamEventFlagItemRenamed).

(** [flags & mask] as a condition *)
Definition hasFlag (flags mask : Z) : bool := negb (Z.land flags mask =? 0).

(** [class FSEvent] *)
Record FSEvent := {
  path : string;
  flags : Z;
  id : Z;
  inode : Z
}.

(** [efsw::Action] *)
Inductive Action := Add | Delete | Modified | Moved.

(** One call of [handleFileAction] on a listener. *)
Record FileAction := {
  watchid : Z;
  dir : string;
  filename : string;
  action : Action;
  oldFilename : string
}.

(** [struct FileEventMatch] *)
Record FileEventMatch := {
  matchHandle : Z;
  matchPath : string
}.

(** The members of [FSEventsFileWatcher] that [handleActions] reads and
    writes.  The two unordered maps are lists in their iteration order;
    [dirsChanged] is the [std::set]. *)
Record t := {
  handlesToPaths : list (Z * string);
  handlesToListeners : list Z;
  dirsChanged : list string
}.

Local Open Scope string_scope.

(** [NormalizePath] *)
Definition NormalizePath (p : string) : string :=
  if NodePath.endsWithSep p then p else p ++ "/".

Definition PathsAreEqual (pathA pathB : string) : bool :=
  String.eqb (NormalizePath pathA) (NormalizePath pathB).

(** [PathStartsWith]; [str.compare(0, n, prefix) == 0] holds exactly when
    [prefix] is a prefix of [str]. *)
Definition PathStartsWith (str prefix : string) : bool :=
  if PathsAreEqual str prefix then true
  else if Nat.ltb (String.length str) (String.length prefix) then false
  else String.prefix prefix str.

(** [DirRemoveSlashAtEnd] *)
Definition DirRemoveSlashAtEnd (d : string) : string :=
  if NodePath.endsWithSep d then String.substring 0 (String.length d - 1) d
  else d.

(** [s.find_last_of(PATH_SEPARATOR)]; [None] is [npos]. *)
Fixpoint findLastFrom (s : string) (i : nat) (found : option nat) : option nat :=
  match s with
  | EmptyString => found
  | String c r =>
      findLastFrom r (S i) (if NodePath.is_slash c then Some i else found)
  end.

Definition find_last_of_sep (s : string) : option nat := findLastFrom s 0%nat None.

(** [PathWithoutFileName] *)
Definition PathWithoutFileName (filepath : string) : string :=
  let filepath := DirRemoveSlashAtEnd filepath in
  match find_last_of_sep filepath with
  | Some pos => String.substring 0 (pos + 1) filepath
  | None => filepath
  end.

(** [FileNameFromPath] *)
Definition FileNameFromPath (filepath : string) : string :=
  let filepath := DirRemoveSlashAtEnd filepath in
  match find_last_of_sep filepath with
  | Some pos =>
      String.substring (pos + 1) (String.length filepath - (pos + 1)) filepath
  | None => filepath
  end.

(** [tolower] in the C locale and [0 == strcasecmp(a, b)] *)
Definition tolower (c : ascii) : ascii :=
  let n := nat_of_ascii c in
  if Nat.leb 65 n && Nat.leb n 90 then ascii_of_nat (n + 32) else c.

Fixpoint lower (s : string) : string :=
  match s with
  | EmptyString => EmptyString
  | String c r => String (tolower c) (lower r)
  end.

Definition strcasecmp_eq (a b : string) : bool := String.eqb (lower a) (lower b).

(** [sendFileAction]: nothing is sent for a handle without listener.
    [PrecomposeFileName] (Unicode NFC) is the identity on the ASCII names
    considered here. *)
Definition sendFileAction (this : t) (handle : Z) (d f : string)
           (a : Action) (old : string) : list FileAction :=
  if existsb (Z.eqb handle) (handlesToListeners this) then
    [{| watchid := handle; dir := d; filename := f; action := a;
        oldFilename := old |}]
  else [].

(** [dirsChanged.insert(d)] *)
Definition insertDir (dirs : list string) (d : string) : list string :=
  if existsb (String.eqb d) dirs then dirs else (dirs ++ [d])%list.

Section HandleActions.

(** [PathExists] answers from the disk at the time of the callback. *)
Variable PathExists : string -> bool.
Variable this : t.

(** [handleAddModDel] *)
Definition handleAddModDel (handle : Z) (fl : Z) (p dirPath filePath : string)
  : list FileAction :=
  ((if hasFlag fl kFSEventStreamEventFlagItemCreated && PathExists p
    then sendFileAction this handle dirPath filePath Add ""
    else [])
   ++ (if hasFlag fl shorthandFSEventsModified
       then sendFileAction this handle dirPath filePath Modified ""
       else [])
   ++ (if hasFlag fl kFSEventStreamEventFlagItemRemoved && negb (PathExists p)
       then sendFileAction this handle dirPath filePath Delete ""
       else []))%list.

(** The loop of [handleActions] over [handlesToPaths] that collects at most
    two matches. *)
Fixpoint findMatches (pairs : list (Z * string)) (event : FSEvent)
         (matches : list FileEventMatch) : list FileEventMatch :=
  match pairs with
  | [] => matches
  | (h, p) :: rest =>
      let normalizedPath := NormalizePath p in
      if negb (PathStartsWith (path event) normalizedPath) then
        findMatches rest event matches
      else if negb (PathsAreEqual (path event) normalizedPath)
              && negb (match find_last_of_sep (path event) with
                       | Some pos =>
                           Nat.eqb pos (String.length normalizedPath - 1)
                       | None => false
                       end)
      then findMatches rest event matches
      else
        let matches' :=
          (matches ++ [{| matchHandle := h; matchPath := p |}])%list in
        if Nat.eqb (List.length matches') 2 then matches'
        else findMatches rest event matches'
  end.

Variable events : list FSEvent.

(** The body of the loop over [matches] for one event.  Its counter is
    declared as [i] again and hides the counter of the loop over [events]:
    [i] below is the index of the match, and [events[i + 1]] and [i++] use
    it.  Returns what was sent, the new [dirsChanged] and whether [i++] ran. *)
Definition matchBody (event : FSEvent) (dirPath filePath : string)
           (i : nat) (m : FileEventMatch) (dirs : list string)
  : list FileAction * list string * bool :=
  let handle := matchHandle m in
  let dirs :=
    if hasFlag (flags event) createdRemovedRenamed
       && negb (String.eqb dirPath (matchPath m))
    then insertDir dirs dirPath else dirs in
  if hasFlag (flags event) kFSEventStreamEventFlagItemRenamed then
    let paired :=
      match nth_error events (i + 1) with
      | Some nEvent =>
          if hasFlag (flags nEvent) kFSEventStreamEventFlagItemRenamed
             && Z.eqb (inode nEvent) (inode event)
          then Some nEvent else None
      | None => None
      end in
    match paired with
    | Some nEvent =>
        let newDir := PathWithoutFileName (path nEvent) in
        let newFilepath := FileNameFromPath (path nEvent) in
        let sent :=
          if negb (String.eqb (path event) (path nEvent)) then
            if String.eqb dirPath newDir then
              if negb (PathExists (path event))
                 || strcasecmp_eq (path event) (path nEvent)
              then sendFileAction this handle dirPath newFilepath Moved filePath
              else sendFileAction this handle dirPath filePath Moved newFilepath
            else
              (sendFileAction this handle dirPath filePath Delete ""
               ++ sendFileAction this handle newDir newFilepath Add ""
               ++ (if hasFlag (flags nEvent) shorthandFSEventsModified
                   then sendFileAction this handle dirPath filePath Modified ""
                   else []))%list
          else
            handleAddModDel handle (flags nEvent) (path nEvent) dirPath filePath in
        let dirs :=
          if hasFlag (flags nEvent) createdRemovedRenamed
             && negb (String.eqb newDir (matchPath m))
          then insertDir dirs newDir else dirs in
        (sent, dirs, true)
    | None =>
        if PathExists (path event) then
          ((sendFileAction this handle dirPath filePath Add ""
            ++ (if hasFlag (flags event) shorthandFSEventsModified
                then sendFileAction this handle dirPath filePath Modified ""
                else []))%list,
           dirs, false)
        else (sendFileAction this handle dirPath filePath Delete "", dirs, false)
    end
  else
    (handleAddModDel handle (flags event) (path event) dirPath filePath,
     dirs, false).

(** [for (size_t i = 0; i < msize; i++)] over the matches from index [i]
    on. *)
Fixpoint matchesLoop (event : FSEvent) (dirPath filePath : string)
         (i : nat) (ms : list FileEventMatch) (dirs : list string)
  : list FileAction * list string :=
  match ms with
  | [] => ([], dirs)
  | m :: rest =>
      let '(sent, dirs', skipped) := matchBody event dirPath filePath i m dirs in
      let '(more, dirs'') :=
        if skipped then
          match rest with
          | [] => ([], dirs')
          | _ :: rest' => matchesLoop event dirPath filePath (i + 2) rest' dirs'
          end
        else matchesLoop event dirPath filePath (i + 1) rest dirs' in
      ((sent ++ more)%list, dirs'')
  end.

(** [for (size_t i = 0; i < esize; i++)] over the events from the current
    one on: a stream-level flag skips the event, an event without match
    ends the whole call. *)
Fixpoint eventsLoop (remaining : list FSEvent) (dirs : list string)
  : list FileAction * list string :=
  match remaining with
  | [] => ([], dirs)
  | event :: rest =>
      if hasFlag (flags event) streamLevelFlags then eventsLoop rest dirs
      else
        match findMatches (handlesToPaths this) event [] with
        | [] => ([], dirs)
        | matches =>
            let dirPath := PathWithoutFileName (path event) in
            let filePath := FileNameFromPath (path event) in
            let '(sent, dirs') :=
              matchesLoop event dirPath filePath 0 matches dirs in
            let '(more, dirs'') := eventsLoop rest dirs' in
            ((sent ++ more)%list, dirs'')
        end
  end.

End HandleActions.

(** [handleActions(events)]: the calls made on listeners, in order, and
    the watcher with its new [dirsChanged]. *)
Definition handleActions (PathExists : string -> bool) (this : t)
           (events : list FSEvent) : list FileAction * t :=
  let '(sent, dirs) :=
    eventsLoop PathExists this events events (dirsChanged this) in
  (sent,
   {| handlesToPaths := handlesToPaths this;
      handlesToListeners := handlesToListeners this;
      dirsChanged := dirs |}).

End FSEvents.

(** ** The specification's sentences that the code does not satisfy as
    written, and sample inputs *)

(** The path-argument convention as the specification words it: [null] for
    a [delete] of the exact target, the empty string for a directory-contents
    change (a [change] made from a child event), the full new path for every
    [rename]. *)
Definition path_convention_as_specified : Prop :=
  forall (fs : FS) (this this' : PathWatcher.t) (event : WatcherEvent)
         (kind : Action) (arg : option string),
    PathWatcher.onNativeEvent fs this event = (this', Called kind arg) ->
    (kind = delete ->
     path event = PathWatcher.originalNormalizedPath this -> arg = None) /\
    (kind = change -> isChildAction (action event) = true -> arg = Some "") /\
    (kind = rename -> arg = Some (path event)).

(** "Inside the normalized path" as the specification words it: the path
    starts with the normalized path followed by the separator. *)
Definition inside_as_specified (this : PathWatcher.t) (p : string) : bool :=
  NodePath.startsWith p (PathWatcher.normalizedPath this ++ NodePath.path_sep).

(** The silence about outside events as the specification words it, with
    that test. *)
Definition outside_events_are_silent_as_specified : Prop :=
  forall (fs : FS) (this : PathWatcher.t) (event : WatcherEvent),
    (inside_as_specified this (path event) = false ->
     inside_as_specified this (oldPath event) = false ->
     snd (PathWatcher.onNativeEvent fs this event) = Returned) /\
    (forall this' kind arg,
        PathWatcher.onNativeEvent fs this event = (this', Called kind arg) ->
        inside_as_specified this (path event) = true
        \/ inside_as_specified this (oldPath event) = true).



Module Samples.

(** A disk on which everything exists, nothing is a symbolic link and the
    directories are [/], [/X] and [/home/u]. *)
Definition disk : FS :=
  {| existsSync := fun _ => true;
     realpathSync := fun p => Some p;
     statIsDirectory := fun p =>
       Some (String.eqb p "/" || String.eqb p "/X" || String.eqb p "/home/u") |}.

(** The same disk without [/home/u/missing]. *)
Definition diskWithout : FS :=
  {| existsSync := fun p => negb (String.eqb p "/home/u/missing");
     realpathSync := realpathSync disk;
     statIsDirectory := statIsDirectory disk |}.

(** A subscription on the file [/X/f], attached to a native watcher on
    [/X]. *)
Definition onFile : PathWatcher.t :=
  {| PathWatcher.watchedPath := "/X/f";
     PathWatcher.normalizedPath := "/X";
     PathWatcher.originalNormalizedPath := "/X/f";
     PathWatcher.isWatchingParent := true;
     PathWatcher.native := Some "/X";
     PathWatcher.active := true |}.


(** [/X/f] renamed to [/X/g]. *)
Definition renamedAway : WatcherEvent :=
  {| action := child_rename; path := "/X/g"; oldPath := "/X/f" |}.

(** [/X/f.tmp] renamed onto [/X/f], as an atomic save does. *)
Definition renamedOnto : WatcherEvent :=
  {| action := child_rename; path := "/X/f"; oldPath := "/X/f.tmp" |}.

(** [/X/g] written to. *)
Definition changedG : WatcherEvent :=
  {| action := child_change; path := "/X/g"; oldPath := "" |}.

(** [/X/f] reported as created. *)
Definition createdF : WatcherEvent :=
  {| action := child_create; path := "/X/f"; oldPath := "" |}.

(** Something happening in another directory. *)
Definition elsewhere : WatcherEvent :=
  {| action := child_change; path := "/Y/h"; oldPath := "" |}.

(** A backend that hands out the handles 1, 2, 3, ... *)
Definition counting : NativeWatcher.Binding :=
  fun n _ _ => Some (Z.of_nat (S n)).

(** Two subscriptions on [/X], one on [/Y], the end of the native watcher
    with handle 1, and a new subscription on [/X]. *)
Definition acquisitions : list NativeWatcher.Op :=
  [NativeWatcher.Acquire "/X" true; NativeWatcher.Acquire "/X" true;
   NativeWatcher.Acquire "/Y" true; NativeWatcher.Release 1;
   NativeWatcher.Acquire "/X" true].

(** Registry options: everything on, with the given cap on merging. *)
Definition capped (cap : Z) : Registry.Options :=
  {| Registry.reuseAncestorWatchers := true;
     Registry.relocateDescendantWatchers := true;
     Registry.relocateAncestorWatchers := true;
     Registry.mergeWatchersWithCommonAncestors := true;
     Registry.maxCommonAncestorLevel := cap |}.

(** Registry options: ancestors are reused, nothing is relocated. *)
Definition noRelocation : Registry.Options :=
  {| Registry.reuseAncestorWatchers := true;
     Registry.relocateDescendantWatchers := false;
     Registry.relocateAncestorWatchers := false;
     Registry.mergeWatchersWithCommonAncestors := false;
     Registry.maxCommonAncestorLevel := 3 |}.

(** The leaf on [/X/a] that [add] puts in an empty tree. *)
Definition leafA (opts : Registry.Options) : Registry.Node :=
  Registry.RegistryWatcherNode
    {| Registry.nativeWatcher := "/X/a";
       Registry.absolutePathSegments := ["X"; "a"];
       Registry.childPaths := [];
       Registry.options := opts |}.

(** The trie of that registry. *)
Definition rootWithA (opts : Registry.Options) : Registry.Node :=
  Registry.RegistryNode None
    [("X", Some (Registry.RegistryNode (Some "X") [("a", Some (leafA opts))]))].

Definition registryWithA (opts : Registry.Options) : Registry.RegistryTree :=
  {| Registry.basePathSegments := [];
     Registry.root := Some (rootWithA opts);
     Registry.treeOptions := opts |}.

(** The leaf on [/X] that serves [/X], [/X/a] and [/X/b]. *)
Definition leafX : Registry.WatcherNode :=
  {| Registry.nativeWatcher := "/X";
     Registry.absolutePathSegments := ["X"];
     Registry.childPaths := ["a"; "b"];
     Registry.options := noRelocation |}.

(** The watcher of the FSEvents backend with one watch, on [/X]. *)
Definition oneWatch : FSEvents.t :=
  {| FSEvents.handlesToPaths := [(1%Z, "/X")];
     FSEvents.handlesToListeners := [1%Z];
     FSEvents.dirsChanged := [] |}.

(** The watcher of the FSEvents backend with watches on [/X] and [/Y]. *)
Definition twoWatches : FSEvents.t :=
  {| FSEvents.handlesToPaths := [(1%Z, "/X"); (2%Z, "/Y")];
     FSEvents.handlesToListeners := [1%Z; 2%Z];
     FSEvents.dirsChanged := [] |}.

(** The disk after [f] has been renamed: [/X/f] is gone, the rest is
    there. *)
Definition afterRename (p : string) : bool := negb (String.eqb p "/X/f").

Definition fsEvent (p : string) (fl : Z) (ino : Z) : FSEvents.FSEvent :=
  {| FSEvents.path := p; FSEvents.flags := fl; FSEvents.id := 0%Z;
     FSEvents.inode := ino |}.

(** One callback batch: two files written to, then the two ends of the
    rename of [/X/f] (inode 7) to [/X/g]. *)
Definition batchWithLateRename : list FSEvents.FSEvent :=
  [fsEvent "/X/a" FSEvents.kFSEventStreamEventFlagItemModified 1;
   fsEvent "/X/b" FSEvents.kFSEventStreamEventFlagItemModified 2;
   fsEvent "/X/f" FSEvents.kFSEventStreamEventFlagItemRenamed 7;
   fsEvent "/X/g" FSEvents.kFSEventStreamEventFlagItemRenamed 7].

(** One callback batch: [/X/f] (inode 7) moved to [/Y/g] and written to. *)
Definition batchAcrossDirectories : list FSEvents.FSEvent :=
  [fsEvent "/X/f" FSEvents.kFSEventStreamEventFlagItemRenamed 7;
   fsEvent "/Y/g" (Z.lor FSEvents.kFSEventStreamEventFlagItemRenamed
                         FSEvents.kFSEventStreamEventFlagItemModified) 7].

Definition sent (h : Z) (d f : string) (a : FSEvents.Action) (old : string)
  : FSEvents.FileAction :=
  {| FSEvents.watchid := h; FSEvents.dir := d; FSEvents.filename := f;
     FSEvents.action := a; FSEvents.oldFilename := old |}.

End Samples.

(** ** More of [src/main.js] *)

Module Main.

(** The relation between the two paths of a subscription that the
    constructor sets up: a file is watched through its parent directory,
    a directory through itself. *)
Definition consistent (this : PathWatcher.t) : Prop :=
  PathWatcher.normalizedPath this
  = if PathWatcher.isWatchingParent this
    then NodePath.dirname (PathWatcher.originalNormalizedPath this)
    else PathWatcher.originalNormalizedPath this.

(** The four event names of the public interface. *)
Definition isPublicName (a : Action) : bool :=
  match a with
  | create | delete | change | rename => true
  | _ => false
  end.

(** [DEFAULT_CALLBACK(action, handle, filePath, oldFilePath)]: the native
    watcher whose [onEvent] is called and the event it is called with;
    [None] when the handle is not in [INSTANCES]. *)
Definition DEFAULT_CALLBACK (st : NativeWatcher.State) (name : Action)
           (handle : Z) (filePath oldFilePath : string)
  : option (NativeWatcher.t * WatcherEvent) :=
  match NativeWatcher.mapGet (NativeWatcher.INSTANCES st) handle with
  | None => None
  | Some watcher =>
      Some (watcher,
            {| action := name; path := filePath; oldPath := oldFilePath |})
  end.

(** [getWatchedPaths()] *)
Definition getWatchedPaths (st : NativeWatcher.State) : list string :=
  map (fun kv => NativeWatcher.normalizedPath (snd kv))
      (NativeWatcher.INSTANCES st).

(** [getNativeWatcherCount()] *)
Definition getNativeWatcherCount (st : NativeWatcher.State) : nat :=
  List.length (NativeWatcher.INSTANCES st).

End Main.

(** ** Shapes of paths and tries used to state properties of the registry *)

Module Shapes.

Local Open Scope list_scope.

Fixpoint noSlash (s : string) : bool :=
  match s with
  | EmptyString => true
  | String c r => negb (NodePath.is_slash c) && noSlash r
  end.

(** A directory name as [realpath] gives them: not empty, without
    separator, and neither ["."] nor [".."]. *)
Definition cleanSegment (s : string) : bool :=
  negb (String.eqb s "") && noSlash s
  && negb (String.eqb s ".") && negb (String.eqb s "..").

(** How often the registry attached a subscription, and how often it
    asked for a native watcher. *)
Definition isAttach (e : Registry.Effect) : bool :=
  match e with Registry.EAttachToNative _ _ => true | _ => false end.

Definition isCreate (e : Registry.Effect) : bool :=
  match e with Registry.ECreateNative _ => true | _ => false end.

(** No segment is the name of a member of [Object.prototype]. *)
Definition plainKeys (pathSegments : list string) : bool :=
  forallb (fun seg => negb (Registry.onObjectPrototype seg)) pathSegments.

(** The path leaves the trie below a node that never held its next
    segment, after passing only through interior nodes that have
    children. *)
Fixpoint leavesTheTrie (pathSegments : list string) (n : Registry.Node) : bool :=
  match n with
  | Registry.RegistryWatcherNode _ => false
  | Registry.RegistryNode _ ch =>
      match pathSegments with
      | [] => false
      | seg :: rest =>
          match Registry.own ch seg with
          | Some (Some (Registry.RegistryNode k' ch')) =>
              negb (Nat.eqb (List.length ch') 0)
              && leavesTheTrie rest (Registry.RegistryNode k' ch')
          | Some _ => false
          | None => true
          end
      end
  end.

(** Whether an action of the given kind is among those sent. *)
Definition sends (a : FSEvents.Action) (l : list FSEvents.FileAction) : bool :=
  existsb (fun x =>
             match FSEvents.action x, a with
             | FSEvents.Add, FSEvents.Add
             | FSEvents.Delete, FSEvents.Delete
             | FSEvents.Modified, FSEvents.Modified
             | FSEvents.Moved, FSEvents.Moved => true
             | _, _ => false
             end) l.

End Shapes.

(** ** More of [lib/platform/FSEventsFileWatcher.cpp]: watches, the event
    stream and [process] *)

Module FSEventsFileWatcher.

Local Open Scope Z_scope.

(** [long], the type of [nextHandleID] and of [efsw::WatchID], on the
    platforms of this backend: 64 bits, two's complement.  An increment or
    a negation that leaves the range wraps around. *)
Definition wrap (z : Z) : Z :=
  (z + 9223372036854775808) mod 18446744073709551616 - 9223372036854775808.

(** The members that [addWatch] and [removeWatch] read and write.  The
    running stream is named by the paths it was created for.
    [nextHandleID] is not initialised by the constructor: it starts from
    whatever [long] the memory holds.  [handlesToPaths] and
    [handlesToListeners] are [std::unordered_map]s: the lists hold their
    entries, and a loop over [handlesToPaths] visits them in the order
    [iterate] gives, of which nothing is assumed. *)
Record t := {
  maps : FSEvents.t;
  nextHandleID : Z;
  currentEventStream : option (list string)
}.

Definition Iteration := list (Z * string) -> list (Z * string).

Definition initial (firstHandle : Z) : t :=
  {| maps := {| FSEvents.handlesToPaths := [];
                FSEvents.handlesToListeners := [];
                FSEvents.dirsChanged := [] |};
     nextHandleID := wrap firstHandle;
     currentEventStream := None |}.

(** [handlesToPaths[handle] = directory] *)
Fixpoint assignPath (m : list (Z * string)) (handle : Z) (directory : string)
  : list (Z * string) :=
  match m with
  | [] => [(handle, directory)]
  | (h, p) :: r =>
      if h =? handle then (h, directory) :: r
      else (h, p) :: assignPath r handle directory
  end.

(** [handlesToListeners[handle] = listener] *)
Definition assignListener (l : list Z) (handle : Z) : list Z :=
  if existsb (Z.eqb handle) l then l else (l ++ [handle])%list.

(** [removeHandle] *)
Definition removeHandle (m : FSEvents.t) (handle : Z) : FSEvents.t :=
  {| FSEvents.handlesToPaths :=
       filter (fun kv => negb (fst kv =? handle)) (FSEvents.handlesToPaths m);
     FSEvents.handlesToListeners :=
       filter (fun h => negb (h =? handle)) (FSEvents.handlesToListeners m);
     FSEvents.dirsChanged := FSEvents.dirsChanged m |}.

(** [startNewStream]; [didStart] is the answer of [FSEventStreamStart]. *)
Definition startNewStream (iterate : Iteration) (didStart : bool) (this : t)
  : bool * t :=
  if didStart then
    (true,
     {| maps := maps this;
        nextHandleID := nextHandleID this;
        currentEventStream :=
          Some (map snd (iterate (FSEvents.handlesToPaths (maps this)))) |})
  else (false, this).

(** [addWatch] *)
Definition addWatch (iterate : Iteration) (didStart : bool)
           (directory : string) (this : t) : Z * t :=
  let handle := nextHandleID this in
  let this :=
    {| maps :=
         {| FSEvents.handlesToPaths :=
              assignPath (FSEvents.handlesToPaths (maps this)) handle directory;
            FSEvents.handlesToListeners :=
              assignListener (FSEvents.handlesToListeners (maps this)) handle;
            FSEvents.dirsChanged := FSEvents.dirsChanged (maps this) |};
       nextHandleID := wrap (handle + 1);
       currentEventStream := currentEventStream this |} in
  let '(didStart, this) := startNewStream iterate didStart this in
  if negb didStart then
    (wrap (- handle),
     {| maps := removeHandle (maps this) handle;
        nextHandleID := nextHandleID this;
        currentEventStream := currentEventStream this |})
  else (handle, this).

(** [removeWatch] *)
Definition removeWatch (iterate : Iteration) (didStart : bool) (handle : Z)
           (this : t) : t :=
  let this :=
    {| maps := removeHandle (maps this) handle;
       nextHandleID := nextHandleID this;
       currentEventStream := currentEventStream this |} in
  if Nat.eqb (List.length (FSEvents.handlesToPaths (maps this))) 0 then
    {| maps := maps this;
       nextHandleID := nextHandleID this;
       currentEventStream := None |}
  else snd (startNewStream iterate didStart this).

(** The calls made on a watcher, each with the answer that
    [FSEventStreamStart] gives during it. *)
Inductive Op :=
| AddWatch (directory : string) (didStart : bool)
| RemoveWatch (handle : Z) (didStart : bool).

Definition started (op : Op) : bool :=
  match op with
  | AddWatch _ didStart => didStart
  | RemoveWatch _ didStart => didStart
  end.

Definition step (iterate : Iteration) (this : t) (op : Op) : t :=
  match op with
  | AddWatch directory didStart => snd (addWatch iterate didStart directory this)
  | RemoveWatch handle didStart => removeWatch iterate didStart handle this
  end.

Definition run (iterate : Iteration) (ops : list Op) (firstHandle : Z) : t :=
  fold_left (step iterate) ops (initial firstHandle).

(** The number of handles that the calls of a list use up. *)
Fixpoint handedOut (ops : list Op) : nat :=
  match ops with
  | [] => O
  | AddWatch _ _ :: r => S (handedOut r)
  | RemoveWatch _ _ :: r => handedOut r
  end.

(** What every run of [addWatch] and [removeWatch] keeps: paths and
    listeners are filed under the same handles, and the handles in use are
    among the [n] handed out so far. *)
Definition kept (firstHandle : Z) (n : nat) (this : t) : Prop :=
  map fst (FSEvents.handlesToPaths (maps this))
  = FSEvents.handlesToListeners (maps this)
  /\ nextHandleID this = wrap (firstHandle + Z.of_nat n)
  /\ Forall (fun h => exists k : nat,
                 (k < n)%nat /\ h = wrap (firstHandle + Z.of_nat k))
            (FSEvents.handlesToListeners (maps this)).

(** The order of a [std::set<std::string>]. *)
Fixpoint insertSorted (d : string) (l : list string) : list string :=
  match l with
  | [] => [d]
  | x :: r => if String.leb d x then d :: l else x :: insertSorted d r
  end.

Definition sorted (l : list string) : list string :=
  fold_right insertSorted [] l.

(** The loop of [process] over [handlesToPaths]: the first watch that the
    directory belongs to.  [size() - 1] is computed on [size_t]: for an
    empty watched path it is [npos]. *)
Fixpoint firstWatchOf (pairs : list (Z * string)) (dir : string) : option Z :=
  match pairs with
  | [] => None
  | (h, p) :: rest =>
      if negb (FSEvents.PathStartsWith dir p) then firstWatchOf rest dir
      else if negb (FSEvents.PathsAreEqual dir p)
              && negb (match FSEvents.find_last_of_sep dir with
                       | Some pos =>
                           negb (Nat.eqb (String.length p) 0)
                           && Nat.eqb pos (String.length p - 1)
                       | None => Nat.eqb (String.length p) 0
                       end)
      then firstWatchOf rest dir
      else Some h
  end.

(** [process()], for a watcher that is valid, not being destroyed and not
    already processing. *)
Definition process (this : FSEvents.t) : list FSEvents.FileAction * FSEvents.t :=
  let dirsCopy := sorted (FSEvents.dirsChanged this) in
  (flat_map
     (fun dir =>
        match firstWatchOf (FSEvents.handlesToPaths this) dir with
        | Some handle =>
            FSEvents.sendFileAction this handle
              (FSEvents.PathWithoutFileName dir) (FSEvents.FileNameFromPath dir)
              FSEvents.Modified ""
        | None => []
        end) dirsCopy,
   {| FSEvents.handlesToPaths := FSEvents.handlesToPaths this;
      FSEvents.handlesToListeners := FSEvents.handlesToListeners this;
      FSEvents.dirsChanged := [] |}).

(** [FSEventCallback] on a valid instance, for events that all carry a
    file id. *)
Definition FSEventCallback (PathExists : string -> bool) (this : FSEvents.t)
           (events : list FSEvents.FSEvent)
  : list FSEvents.FileAction * FSEvents.t :=
  let '(sent, this) := FSEvents.handleActions PathExists this events in
  let '(more, this) := process this in
  ((sent ++ more)%list, this).

End FSEventsFileWatcher.

(** ** [lib/core.cc] *)

Module Core.

Local Open Scope Z_scope.

Record timespec := { ts_sec : Z; ts_nsec : Z }.
Record timeval := { tv_sec : Z; tv_usec : Z }.

(** [PredatesWatchStart]; [/] on C integers truncates. *)
Definition PredatesWatchStart (fileSpec : timespec) (startTime : timeval) : bool :=
  (ts_sec fileSpec <? tv_sec startTime)
  || ((ts_sec fileSpec =? tv_sec startTime)
      && (Z.quot (ts_nsec fileSpec) 1000 <? tv_usec startTime)).

(** [EventType] *)
Definition EventType (action : FSEvents.Action) (isChild : bool) : Action :=
  match action with
  | FSEvents.Add => if isChild then child_create else create
  | FSEvents.Delete => if isChild then child_delete else delete
  | FSEvents.Modified => if isChild then child_change else change
  | FSEvents.Moved => if isChild then child_rename else rename
  end.

(** [NormalizePath] and [PathsAreEqual] are written as in the FSEvents
    backend. *)
Definition PathsAreEqual : string -> string -> bool := FSEvents.PathsAreEqual.

(** [StripTrailingSlashFromPath] *)
Definition StripTrailingSlashFromPath (p : string) : string :=
  if NodePath.endsWithSep p then String.substring 0 (String.length p - 1) p
  else p.

(** [struct PathWatcherEvent] *)
Record PathWatcherEvent := {
  type : FSEvents.Action;
  handle : Z;
  new_path : string;
  old_path : string;
  watcher_path : string
}.

(** [ProcessEvent], in an environment that is not stopping: the arguments
    of the call of the JavaScript callback. *)
Definition ProcessEvent (event : PathWatcherEvent)
  : Action * Z * string * string :=
  let isChildEvent := negb (PathsAreEqual (new_path event) (watcher_path event)) in
  (EventType (type event) isChildEvent, handle event,
   new_path event, old_path event).

(** The two maps of [PathWatcherListener]. *)
Record Listener := {
  paths : list (Z * (string * timeval));
  pathsToHandles : list (string * Z)
}.

Fixpoint findPath (m : list (Z * (string * timeval))) (h : Z)
  : option (string * timeval) :=
  match m with
  | [] => None
  | (k, v) :: r => if k =? h then Some v else findPath r h
  end.

Fixpoint GetHandleForPath (m : list (string * Z)) (p : string) : option Z :=
  match m with
  | [] => None
  | (k, v) :: r => if String.eqb k p then Some v else GetHandleForPath r p
  end.

(** What [stat] tells [handleFileAction] about a file. *)
Record Stat := { st_birthtimespec : timespec; st_mtimespec : timespec }.

(** The filter of [handleFileAction] that is compiled in on macOS:
    whether the action goes on. *)
Definition passesOnApple (stat : string -> option Stat) (newPathStr : string)
           (action : FSEvents.Action) (startTime : timeval) : bool :=
  match stat newPathStr, action with
  | None, FSEvents.Delete => true
  | None, _ => false
  | Some file, FSEvents.Add =>
      (ts_sec (st_birthtimespec file) =? ts_sec (st_mtimespec file))
      && negb (PredatesWatchStart (st_birthtimespec file) startTime)
  | Some file, FSEvents.Modified =>
      negb (PredatesWatchStart (st_mtimespec file) startTime)
  | Some _, _ => true
  end.

(** [handleFileAction] of a listener that is not shutting down and whose
    thread-safe function can be called: the events handed to
    [ProcessEvent], in order. *)
Definition handleFileAction (apple : bool) (stat : string -> option Stat)
           (this : Listener) (watchId : Z) (dir filename : string)
           (action : FSEvents.Action) (oldFilename : string)
  : list PathWatcherEvent :=
  match findPath (paths this) watchId with
  | None => []
  | Some (realPath, startTime) =>
      let newPathStr := (dir ++ filename)%string in
      if apple && negb (passesOnApple stat newPathStr action startTime) then []
      else
        let oldPath :=
          if String.eqb oldFilename "" then ""%string
          else (dir ++ oldFilename)%string in
        let event (h : Z) :=
          {| type := action; handle := h; new_path := newPathStr;
             old_path := oldPath; watcher_path := realPath |} in
        let second :=
          match GetHandleForPath (pathsToHandles this) newPathStr, action with
          | Some h, FSEvents.Delete =>
              if negb (watchId =? h) then [event h] else []
          | _, _ => []
          end in
        (event watchId :: second)%list
  end.

End Core.

(** ** More sample inputs *)

Module MoreSamples.

(** A subscription on the directory [/X], attached to a native watcher
    on it. *)
Definition onDirectory : PathWatcher.t :=
  {| PathWatcher.watchedPath := "/X";
     PathWatcher.normalizedPath := "/X";
     PathWatcher.originalNormalizedPath := "/X";
     PathWatcher.isWatchingParent := false;
     PathWatcher.native := Some "/X";
     PathWatcher.active := true |}.

(** What the constructor builds for [/X/f], before the registry attaches
    it. *)
Definition unattachedOnFile : PathWatcher.t :=
  {| PathWatcher.watchedPath := "/X/f";
     PathWatcher.normalizedPath := "/X";
     PathWatcher.originalNormalizedPath := "/X/f";
     PathWatcher.isWatchingParent := true;
     PathWatcher.native := None;
     PathWatcher.active := true |}.

(** A subscription on [/X/c], a directory, attached to a native watcher
    on it. *)
Definition onSubdirectory : PathWatcher.t :=
  {| PathWatcher.watchedPath := "/X/c";
     PathWatcher.normalizedPath := "/X/c";
     PathWatcher.originalNormalizedPath := "/X/c";
     PathWatcher.isWatchingParent := false;
     PathWatcher.native := Some "/X/c";
     PathWatcher.active := true |}.

(** A subscription on the file [/f], directly under the root directory,
    as the constructor builds it and the registry attaches it. *)
Definition onFileUnderRoot : PathWatcher.t :=
  {| PathWatcher.watchedPath := "/f";
     PathWatcher.normalizedPath := "/";
     PathWatcher.originalNormalizedPath := "/f";
     PathWatcher.isWatchingParent := true;
     PathWatcher.native := Some "/";
     PathWatcher.active := true |}.

(** [/f] written to. *)
Definition changedUnderRoot : WatcherEvent :=
  {| action := child_change; path := "/f"; oldPath := "" |}.

(** [/X] itself reported as deleted. *)
Definition deletedX : WatcherEvent :=
  {| action := delete; path := "/X"; oldPath := "" |}.

(** [/X/f] reported as deleted. *)
Definition deletedF : WatcherEvent :=
  {| action := child_delete; path := "/X/f"; oldPath := "" |}.

(** [/X/a] reported as created. *)
Definition createdA : WatcherEvent :=
  {| action := child_create; path := "/X/a"; oldPath := "" |}.

(** [/X/f] moved to [/Y/f]. *)
Definition movedOut : WatcherEvent :=
  {| action := child_rename; path := "/Y/f"; oldPath := "/X/f" |}.

(** A disk on which [/X/g] cannot be examined: it is gone again by the
    time its rename is handled. *)
Definition diskLosingG : FS :=
  {| existsSync := existsSync Samples.disk;
     realpathSync := realpathSync Samples.disk;
     statIsDirectory := fun p =>
       if String.eqb p "/X/g" then None
       else statIsDirectory Samples.disk p |}.

(** The native watcher on [/Y] that [Samples.acquisitions] leave. *)
Definition nativeOnY : NativeWatcher.t :=
  {| NativeWatcher.id := 2;
     NativeWatcher.normalizedPath := "/Y";
     NativeWatcher.recursive := true;
     NativeWatcher.running := true;
     NativeWatcher.handle := Some 2%Z |}.




(** The options of the registry on Linux and Windows, over the defaults. *)
Definition withoutReuse : Registry.Options :=
  {| Registry.reuseAncestorWatchers := false;
     Registry.relocateDescendantWatchers := false;
     Registry.relocateAncestorWatchers := false;
     Registry.mergeWatchersWithCommonAncestors := false;
     Registry.maxCommonAncestorLevel := 3 |}.

(** No leaf of the registry holds a native watcher. *)
Definition noneHeld : Registry.Native -> nat := fun _ => O.

(** A registry whose only leaf is on [/X]. *)
Definition leafOnX (opts : Registry.Options) : Registry.WatcherNode :=
  {| Registry.nativeWatcher := "/X";
     Registry.absolutePathSegments := ["X"];
     Registry.childPaths := [];
     Registry.options := opts |}.

Definition registryWithX (opts : Registry.Options) : Registry.RegistryTree :=
  {| Registry.basePathSegments := [];
     Registry.root :=
       Some (Registry.RegistryNode
               None [("X", Some (Registry.RegistryWatcherNode (leafOnX opts)))]);
     Registry.treeOptions := opts |}.

(** A leaf for [/X/b]. *)
Definition leafB : Registry.WatcherNode :=
  {| Registry.nativeWatcher := "/X/b";
     Registry.absolutePathSegments := ["X"; "b"];
     Registry.childPaths := [];
     Registry.options := Samples.noRelocation |}.


(** Watches on [/X] and [/Y], then the end of the first one; every stream
    starts. *)
Definition watches : list FSEventsFileWatcher.Op :=
  [FSEventsFileWatcher.AddWatch "/X" true;
   FSEventsFileWatcher.AddWatch "/Y" true;
   FSEventsFileWatcher.RemoveWatch 1 true].

(** A map that is gone through in the order in which it was filled. *)
Definition inOrder : FSEventsFileWatcher.Iteration := fun entries => entries.

(** A file time and the start of a watch within the same second. *)
Definition fileTime : Core.timespec :=
  {| Core.ts_sec := 10; Core.ts_nsec := 5000 |}.

Definition watchStart : Core.timeval :=
  {| Core.tv_sec := 10; Core.tv_usec := 7 |}.

(** The listener's maps with watches on [/X] (handle 1) and [/X/c]
    (handle 2). *)
Definition listening : Core.Listener :=
  {| Core.paths := [(1%Z, ("/X", watchStart)); (2%Z, ("/X/c", watchStart))];
     Core.pathsToHandles := [("/X", 1%Z); ("/X/c", 2%Z)] |}.

(** A subscription on [/X] alone, and the native watcher it leaves. *)
Definition subscription : list NativeWatcher.Op :=
  [NativeWatcher.Acquire "/X" true].

Definition nativeOnX : NativeWatcher.t :=
  {| NativeWatcher.id := 1;
     NativeWatcher.normalizedPath := "/X";
     NativeWatcher.recursive := true;
     NativeWatcher.running := true;
     NativeWatcher.handle := Some 1%Z |}.

(** What the listener hands on when [/X/a] is added. *)
Definition addedA : Core.PathWatcherEvent :=
  {| Core.type := FSEvents.Add;
     Core.handle := 1%Z;
     Core.new_path := "/X/a";
     Core.old_path := "";
     Core.watcher_path := "/X" |}.

(** A [stat] that finds nothing. *)
Definition noStat : string -> option Core.Stat := fun _ => None.

End MoreSamples.

(** * Properties *)

(** ** The path model on a few inputs *)

Example dirname_of_a_file : NodePath.dirname "/X/f" = "/X".
Proof. reflexivity. Qed.

Example dirname_below_the_root : NodePath.dirname "/f" = "/".
Proof. reflexivity. Qed.

Example dirname_skips_a_trailing_separator : NodePath.dirname "/a/b/" = "/a".
Proof. reflexivity. Qed.

Example join_of_nothing : NodePath.join [] = ".".
Proof. reflexivity. Qed.

Example join_of_segments : NodePath.join ["a"; "b"] = "a/b".
Proof. reflexivity. Qed.

Example resolve_against_cwd : NodePath.resolve "/home/u" "a/../b" = "/home/u/b".
Proof. reflexivity. Qed.

Example absolute_of_segments : Registry.absolute ["X"; "a"] = "/X/a".
Proof. reflexivity. Qed.

Example segments_of_a_directory : Registry.segmentsOf "/X/a" = ["X"; "a"].
Proof. reflexivity. Qed.

(** ** Path algebra *)

Section PathAlgebra.
Import NodePath.

Lemma prefix_empty (s : string) : String.prefix "" s = true.
Proof. destruct s; reflexivity. Qed.

Lemma prefix_append (a b : string) : String.prefix a (a ++ b) = true.
Proof.
  induction a as [|c a IH]; simpl; [apply prefix_empty|].
  destruct (ascii_dec c c); [exact IH | contradiction].
Qed.

Lemma prefix_of_a_longer_prefix (a b p : string) :
  String.prefix (a ++ b) p = true -> String.prefix a p = true.
Proof.
  revert p. induction a as [|c a IH]; intros p; simpl.
  - intros _. destruct p; reflexivity.
  - destruct p as [|d p]; simpl; [discriminate|].
    destruct (ascii_dec c d); [apply IH | discriminate].
Qed.

Lemma string_of_list_ascii_app (l1 l2 : list ascii) :
  string_of_list_ascii (l1 ++ l2)
  = string_of_list_ascii l1 ++ string_of_list_ascii l2.
Proof. induction l1 as [|c l1 IH]; simpl; [reflexivity | rewrite IH; reflexivity]. Qed.

Lemma append_assoc (a b c : string) : (a ++ b) ++ c = a ++ (b ++ c).
Proof. induction a as [|x a IH]; simpl; [reflexivity | rewrite IH; reflexivity]. Qed.

Lemma dropWhile_decompose {A} (f : A -> bool) (l : list A) :
  exists pre, l = (pre ++ dropWhile f l)%list.
Proof.
  induction l as [|x l [pre IH]]; simpl.
  - exists []. reflexivity.
  - destruct (f x).
    + exists (x :: pre). simpl. rewrite <- IH. reflexivity.
    + exists []. reflexivity.
Qed.

Lemma dropWhile_head {A} (f : A -> bool) (l : list A) (x : A) (r : list A) :
  dropWhile f l = x :: r -> f x = false.
Proof.
  induction l as [|y l IH]; simpl; [discriminate|].
  destruct (f y) eqn:E; [exact IH|].
  intros H. inversion H; subst. exact E.
Qed.

Lemma is_slash_eq (c : ascii) : is_slash c = true -> c = slash.
Proof. unfold is_slash. apply Ascii.eqb_eq. Qed.

(** An absolute path lies inside its own [dirname]. *)
Lemma inside_own_dirname (p : string) :
  isAbsolute p = true -> startsWith p (sep (dirname p)) = true.
Proof.
  destruct p as [|c0 rest]; [discriminate|].
  intros Hroot. simpl in Hroot. apply is_slash_eq in Hroot. subst c0.
  unfold startsWith, dirname.
  change (is_slash slash) with true. cbv iota.
  destruct (dropWhile_decompose is_slash (rev (list_ascii_of_string rest)))
    as [t1 H1].
  destruct (dropWhile_decompose (fun c => negb (is_slash c))
              (dropWhile is_slash (rev (list_ascii_of_string rest))))
    as [t2 H2].
  destruct (dropWhile (fun c => negb (is_slash c))
              (dropWhile is_slash (rev (list_ascii_of_string rest))))
    as [|x before] eqn:Hd.
  - change (sep "/") with "/". simpl.
    destruct (ascii_dec "/" "/"); [apply prefix_empty | contradiction].
  - apply dropWhile_head in Hd. apply negb_false_iff in Hd.
    apply is_slash_eq in Hd. subst x.
    rewrite H2 in H1.
    assert (Hrest : rest = string_of_list_ascii (rev before)
                           ++ String slash (string_of_list_ascii (rev t2 ++ rev t1))).
    { rewrite <- (string_of_list_ascii_of_string rest).
      rewrite <- (rev_involutive (list_ascii_of_string rest)), H1.
      rewrite !rev_app_distr. simpl. rewrite <- !app_assoc. simpl.
      rewrite string_of_list_ascii_app. simpl. reflexivity. }
    destruct before as [|b before].
    + rewrite Hrest. simpl.
      destruct (ascii_dec "/" "/"); [|contradiction].
      destruct (ascii_dec "/" slash); [apply prefix_empty | contradiction].
    + change (true && (List.length (b :: before) =? 0)%nat) with false.
      cbv iota.
      set (D := String slash (string_of_list_ascii (rev (b :: before)))).
      assert (Hp : String slash rest
                   = D ++ String slash (string_of_list_ascii (rev t2 ++ rev t1))).
      { rewrite Hrest. reflexivity. }
      rewrite Hp. unfold sep. destruct (endsWithSep D).
      * apply prefix_append.
      * change (D ++ String slash (string_of_list_ascii (rev t2 ++ rev t1)))
          with (D ++ (path_sep ++ string_of_list_ascii (rev t2 ++ rev t1))).
        rewrite <- append_assoc. apply prefix_append.
Qed.
End PathAlgebra.

(** ** The event translator ([PathWatcher.onNativeEvent]) *)

Section Translator.

Import PathWatcher.

Variable fs : FS.

Lemma deliver_called (eq : bool) (this this' : t) (kind kind' : Action)
      (p : string) (arg : option string) :
  deliver eq this kind p = (this', Called kind' arg) ->
  kind' = kind /\
  arg = (if eq then (if Action_eqb kind delete then None else Some "")
         else Some p).
Proof.
  unfold deliver. intros H.
  destruct (eq && Action_eqb kind create); [discriminate|].
  inversion H; subst. split; reflexivity.
Qed.

(** Every call of the callback made by [onNativeEvent], with the name and
    the path argument it is made with, seen from the event. *)
Lemma onNativeEvent_called (this this' : t) (event : WatcherEvent)
      (kind : Action) (arg : option string) :
  onNativeEvent fs this event = (this', Called kind arg) ->
  let eq := String.eqb (originalNormalizedPath this) (path event) in
  (isWatchedPath this (path event) = true
   \/ isWatchedPath this (oldPath event) = true) /\
  (eq = true -> arg = if Action_eqb kind delete then None else Some "") /\
  (eq = false -> isChildAction (action event) = true -> kind = change ->
   arg = Some "") /\
  (eq = false -> kind = rename -> arg = Some (path event)).
Proof.
  intros H eq. subst eq.
  unfold onNativeEvent in H.
  destruct (isWatchedPath this (path event)) eqn:Hnew;
    destruct (isWatchedPath this (oldPath event)) eqn:Hold;
    simpl in H; try discriminate;
    (split; [auto|]);
    destruct (String.eqb (originalNormalizedPath this) (path event)) eqn:Heq;
    destruct (action event) eqn:Hact;
    destruct (isWatchingParent this) eqn:Hwp;
    simpl in H;
    repeat match type of H with
           | context [match ?x with Some _ => _ | None => _ end] =>
               destruct x eqn:?
           | context [if ?b then _ else _] => destruct b eqn:?
           end;
    try discriminate;
    apply deliver_called in H; destruct H as [-> ->];
    simpl; (repeat split); intros; try reflexivity; try discriminate;
    try congruence.
Qed.

(** The target of a subscription on a file is inside the watched
    directory; the constructor builds such a subscription for an existing
    file with an absolute real path, and [moveToPath] keeps it one. *)
Lemma file_target_is_inside (this : t) :
  onAFile this -> isWatchedPath this (originalNormalizedPath this) = true.
Proof.
  intros (_ & Hdir & Habs). unfold isWatchedPath. rewrite Hdir.
  apply inside_own_dirname. exact Habs.
Qed.

Lemma constructor_on_a_file (watched : string) (this : t) :
  constructor fs watched = Ok this ->
  isWatchingParent this = true ->
  NodePath.isAbsolute (getRealFilePath fs watched) = true ->
  onAFile this.
Proof.
  unfold constructor.
  destruct (negb (existsSync fs watched)); [discriminate|].
  destruct (statIsDirectory fs (getRealFilePath fs watched)) as [isDir|];
    [|discriminate].
  intros H Hwp Habs. inversion H; subst; clear H. simpl in Hwp.
  unfold onAFile. simpl. rewrite Hwp. auto.
Qed.

Lemma moveToPath_on_a_file (this this' : t) (newPath : string) :
  moveToPath fs this newPath = Some this' ->
  isWatchingParent this' = true ->
  NodePath.isAbsolute newPath = true ->
  onAFile this'.
Proof.
  unfold moveToPath.
  destruct (statIsDirectory fs newPath) as [isDir|]; [|discriminate].
  intros H Hwp Habs. inversion H; subst; clear H. simpl in Hwp.
  unfold onAFile. simpl. rewrite Hwp. auto.
Qed.

(** C1 (as amended).  For every call the translator makes to a user
    callback: a [delete] whose event path is the subscription's exact target
    carries [null]; a directory-contents change (a [change] made from a
    child event, or any [change] on the exact target) carries the empty
    string; a [rename] carries the full new path of the event, unless that
    new path is the subscription's own target (something was renamed onto
    the watched path), in which case it carries the empty string like every
    other non-[delete] event on the exact target. *)
Theorem C1_path_argument (this this' : t) (event : WatcherEvent)
        (kind : Action) (arg : option string) :
  onNativeEvent fs this event = (this', Called kind arg) ->
  (kind = delete -> path event = originalNormalizedPath this -> arg = None) /\
  (kind = change ->
   isChildAction (action event) = true
   \/ path event = originalNormalizedPath this ->
   arg = Some "") /\
  (kind = rename ->
   arg = Some (if String.eqb (originalNormalizedPath this) (path event)
               then "" else path event)).
Proof.
  intros H. apply onNativeEvent_called in H. cbv zeta in H.
  destruct H as (_ & Heq & Hchange & Hrename).
  destruct (String.eqb (originalNormalizedPath this) (path event)) eqn:E.
  - specialize (Heq eq_refl). repeat split.
    + intros -> _. exact Heq.
    + intros -> _. exact Heq.
    + intros ->. exact Heq.
  - apply String.eqb_neq in E. repeat split.
    + intros _ Hp. congruence.
    + intros Hk [Hc | Hp]; [auto | congruence].
    + intros Hk. auto.
Qed.

(** C2 (as amended).  An event with neither its new path nor its old path
    inside the subscription's normalized path makes [onNativeEvent] return
    without calling the callback and without touching the subscription;
    hence every call of the callback is for an event with its new or its
    old path inside.  "Inside" means: the path starts with the normalized
    path followed by the separator or, when the normalized path already
    ends in the separator (as the root directory does), with the normalized
    path itself.  A path that is inside in the sense of the specification
    is inside in this sense. *)
Theorem C2_outside_events_are_silent (this : t) (event : WatcherEvent) :
  let inside := fun p =>
    String.prefix (if NodePath.endsWithSep (normalizedPath this)
                   then normalizedPath this
                   else normalizedPath this ++ "/") p in
  (inside (path event) = false ->
   inside (oldPath event) = false ->
   onNativeEvent fs this event = (this, Returned)) /\
  (forall this' kind arg,
      onNativeEvent fs this event = (this', Called kind arg) ->
      inside (path event) = true \/ inside (oldPath event) = true) /\
  (forall p, inside_as_specified this p = true -> inside p = true).
Proof.
  intros inside.
  assert (Hsame : forall p, isWatchedPath this p = inside p).
  { intros p. unfold isWatchedPath, inside, sep, NodePath.startsWith.
    destruct (NodePath.endsWithSep (normalizedPath this)); reflexivity. }
  split; [|split].
  - intros Hnew Hold. rewrite <- Hsame in Hnew, Hold.
    unfold onNativeEvent. rewrite Hnew, Hold. reflexivity.
  - intros this' kind arg H. apply onNativeEvent_called in H.
    rewrite <- (Hsame (path event)), <- (Hsame (oldPath event)). apply H.
  - intros p. unfold inside_as_specified, inside, NodePath.startsWith.
    destruct (NodePath.endsWithSep (normalizedPath this)); [|auto].
    apply prefix_of_a_longer_prefix.
Qed.

(** C7.  A create event, under either of the names the addon uses for it,
    whose path is the subscription's exact target never reaches the
    callback: the target existed when the subscription was built (the
    constructor throws otherwise), so the event is spurious. *)
Theorem C7_spurious_create_is_dropped (this : t) (event : WatcherEvent) :
  action event = create \/ action event = child_create ->
  path event = originalNormalizedPath this ->
  onNativeEvent fs this event = (this, Returned).
Proof.
  intros Hact Hpath. unfold onNativeEvent.
  rewrite <- Hpath, String.eqb_refl.
  destruct (negb (isWatchedPath this (path event))
            && negb (isWatchedPath this (oldPath event))); [reflexivity|].
  destruct Hact as [-> | ->].
  - reflexivity.
  - destruct (isWatchingParent this); reflexivity.
Qed.


End Translator.

(** The sentence of the specification fails on an atomic save: the file is
    renamed onto the watched path, the callback gets [rename] with the empty
    string and not the new path [/X/f]. *)
Lemma C1_counterexample : ~ path_convention_as_specified.
Proof.
  intros H.
  destruct (H Samples.disk Samples.onFile Samples.onFile Samples.renamedOnto
              rename (Some "") eq_refl) as (_ & _ & Hrename).
  specialize (Hrename eq_refl). discriminate Hrename.
Qed.

Lemma C1_path_argument_witness :
  PathWatcher.onNativeEvent Samples.disk Samples.onFile Samples.renamedOnto
  = (Samples.onFile, Called rename (Some "")) /\
  (rename = rename -> Some "" = Some "").
Proof.
  split; [reflexivity|].
  exact (proj2 (proj2 (C1_path_argument Samples.disk Samples.onFile
                         Samples.onFile Samples.renamedOnto rename (Some "")
                         eq_refl))).
Defined.

(** The sentence of the specification fails for a file directly under the
    root directory: the normalized path is [/], a change of [/f] is
    delivered, and [/f] does not start with [//]. *)
Lemma C2_counterexample : ~ outside_events_are_silent_as_specified.
Proof.
  intros H.
  destruct (H Samples.disk MoreSamples.onFileUnderRoot MoreSamples.changedUnderRoot)
    as [Hsilent _].
  specialize (Hsilent eq_refl eq_refl). discriminate Hsilent.
Qed.

Lemma C2_outside_events_are_silent_witness :
  PathWatcher.onNativeEvent Samples.disk Samples.onFile Samples.elsewhere
  = (Samples.onFile, Returned) /\
  (String.prefix "/" (path MoreSamples.changedUnderRoot) = true
   \/ String.prefix "/" (oldPath MoreSamples.changedUnderRoot) = true).
Proof.
  split.
  - exact (proj1 (C2_outside_events_are_silent Samples.disk Samples.onFile
                    Samples.elsewhere) eq_refl eq_refl).
  - exact (proj1 (proj2 (C2_outside_events_are_silent
                           Samples.disk MoreSamples.onFileUnderRoot
                           MoreSamples.changedUnderRoot))
                 MoreSamples.onFileUnderRoot change (Some "") eq_refl).
Defined.

Lemma C7_spurious_create_is_dropped_witness :
  PathWatcher.onNativeEvent Samples.disk Samples.onFile Samples.createdF
  = (Samples.onFile, Returned).
Proof.
  apply (C7_spurious_create_is_dropped Samples.disk Samples.onFile Samples.createdF).
  - right. reflexivity.
  - reflexivity.
Defined.



(** ** [watch] *)

(** Adding to a tree that holds nothing goes through [attachToNew] for
    the requested directory, whatever the options. *)
Lemma add_into_empty_tree (base : list string) (opts : Registry.Options)
      (pathSegments : list string)
      (attachToNative : Registry.Native -> string -> list Registry.Effect) :
  Registry.add (Registry.newTree base opts) pathSegments attachToNative
  = Registry.attachToNew (Registry.newTree base opts)
                         (Registry.RegistryNode None [])
                         pathSegments attachToNative [].
Proof.
  unfold Registry.add. simpl Registry.root.
  destruct pathSegments as [|seg rest].
  - simpl. unfold Registry.attachToNew. simpl. rewrite !app_nil_r. reflexivity.
  - cbn [Registry.lookup]. unfold Registry.attachToNew.
    cbn [Registry.insert]. unfold Registry.getChild. simpl Registry.own.
    destruct (Registry.onObjectPrototype seg); [reflexivity|].
    destruct (Registry.mergeWatchersWithCommonAncestors _); reflexivity.
Qed.

Section Watch.

Variable fs : FS.
Variable binding : NativeWatcher.Binding.
Variable held : Registry.Native -> nat.
Variable cwd : string.

(** On a registry that holds nothing, [watch] of a path that the
    constructor accepts throws a [TypeError] and changes nothing. *)
Lemma watch_on_an_empty_registry (opts : Registry.Options)
      (st : NativeWatcher.State) (pathToWatch : string) (watcher : PathWatcher.t) :
  PathWatcher.constructor fs (NodePath.resolve cwd pathToWatch) = Ok watcher ->
  watch fs binding held cwd (Registry.newRegistry opts) st pathToWatch
  = (Registry.newRegistry opts, st, Throw TypeError).
Proof.
  intros Hnew. unfold watch. rewrite Hnew.
  unfold Registry.attach, Registry.newRegistry.
  rewrite add_into_empty_tree. unfold Registry.attachToNew.
  destruct (Registry.insert _ _ _); reflexivity.
Qed.

Lemma watch_keeps_an_empty_registry (opts : Registry.Options)
      (st : NativeWatcher.State) (pathToWatch : string) :
  fst (watch fs binding held cwd (Registry.newRegistry opts) st pathToWatch)
  = (Registry.newRegistry opts, st).
Proof.
  destruct (PathWatcher.constructor fs (NodePath.resolve cwd pathToWatch))
    as [watcher|e] eqn:Hnew.
  - rewrite (watch_on_an_empty_registry opts st pathToWatch watcher Hnew).
    reflexivity.
  - unfold watch. rewrite Hnew. reflexivity.
Qed.

Lemma afterWatching_nothing_is_watched (opts : Registry.Options)
      (paths : list string) :
  afterWatching fs binding held cwd opts paths
  = (Registry.newRegistry opts, NativeWatcher.initial).
Proof.
  unfold afterWatching. generalize NativeWatcher.initial as st.
  induction paths as [|p paths IH]; intros st; [reflexivity|].
  simpl. rewrite watch_keeps_an_empty_registry. apply IH.
Qed.

(** C3.  When the path, resolved, does not exist on disk, [watch] throws
    the [WatcherError] with message 'Unable to watch path' and code
    'ENOENT', and the registry and the native watchers are left as they
    were: no subscription has been attached and no native watcher asked
    for. *)
Theorem C3_missing_path_is_rejected (REGISTRY : Registry.RegistryTree)
        (st : NativeWatcher.State) (pathToWatch : string) :
  existsSync fs (NodePath.resolve cwd pathToWatch) = false ->
  watch fs binding held cwd REGISTRY st pathToWatch
  = (REGISTRY, st, Throw (WatcherError "Unable to watch path" "ENOENT")).
Proof.
  intros H. unfold watch, PathWatcher.constructor. rewrite H. reflexivity.
Qed.

(** C10.  A relative path is resolved against the working directory
    before anything else: the existence test, the canonicalization and the
    subscription use the resolved path, the outcome depends on the working
    directory and the path only through it, and [watch] never throws a
    [WatcherError] when the resolved path exists and can be examined.  But
    the path is not watched: the registry of the module holds nothing,
    whatever calls of [watch] came before, so it asks for a native watcher
    with [createNative(absolutePath)]; the function [main.js] built it with
    destructures its second argument, which is missing; and [watch] throws
    a [TypeError], leaving the registry and the native watchers as they
    were. *)
Theorem C10_relative_path_is_resolved (pathToWatch : string) (isDir : bool) :
  NodePath.isAbsolute pathToWatch = false ->
  existsSync fs (NodePath.resolve cwd pathToWatch) = true ->
  statIsDirectory fs (PathWatcher.getRealFilePath fs (NodePath.resolve cwd pathToWatch))
  = Some isDir ->
  let resolved := "/" ++ NodePath.normalizeString (cwd ++ "/" ++ pathToWatch) false in
  let real := PathWatcher.getRealFilePath fs resolved in
  let directory := if isDir then real else NodePath.dirname real in
  NodePath.resolve cwd pathToWatch = resolved /\
  PathWatcher.constructor fs (NodePath.resolve cwd pathToWatch)
  = Ok {| PathWatcher.watchedPath := resolved;
          PathWatcher.normalizedPath := directory;
          PathWatcher.originalNormalizedPath := real;
          PathWatcher.isWatchingParent := negb isDir;
          PathWatcher.native := None;
          PathWatcher.active := true |} /\
  (forall cwd' pathToWatch' REGISTRY st,
      NodePath.resolve cwd' pathToWatch' = resolved ->
      watch fs binding held cwd' REGISTRY st pathToWatch'
      = watch fs binding held cwd REGISTRY st pathToWatch) /\
  (forall REGISTRY st message code,
      snd (watch fs binding held cwd REGISTRY st pathToWatch)
      <> Throw (WatcherError message code)) /\
  (forall opts earlier,
      afterWatching fs binding held cwd opts earlier
      = (Registry.newRegistry opts, NativeWatcher.initial)) /\
  (forall opts st,
      watch fs binding held cwd (Registry.newRegistry opts) st pathToWatch
      = (Registry.newRegistry opts, st, Throw TypeError)).
Proof.
  intros Hrel Hex Hstat resolved real directory.
  assert (Hres : NodePath.resolve cwd pathToWatch = resolved).
  { unfold NodePath.resolve. rewrite Hrel. reflexivity. }
  rewrite Hres in *.
  assert (Hnew : PathWatcher.constructor fs resolved
                 = Ok {| PathWatcher.watchedPath := resolved;
                         PathWatcher.normalizedPath := directory;
                         PathWatcher.originalNormalizedPath := real;
                         PathWatcher.isWatchingParent := negb isDir;
                         PathWatcher.native := None;
                         PathWatcher.active := true |}).
  { unfold PathWatcher.constructor. rewrite Hex.
    change (negb true) with false. cbv iota. rewrite Hstat.
    unfold directory, real. destruct isDir; reflexivity. }
  split; [reflexivity|]. split; [exact Hnew|]. split; [|split; [|split]].
  - intros cwd' p' REGISTRY st Hsame. unfold watch. rewrite Hsame, Hres.
    reflexivity.
  - intros REGISTRY st message code. unfold watch. rewrite Hres, Hnew.
    destruct (Registry.attach REGISTRY _) as [[R' effects]|];
      [|simpl; discriminate].
    destruct effects as [|[p | native q | a b c | n | n] effects];
      try (simpl; discriminate).
    unfold subscribe.
    destruct (NativeWatcher.startHeld fs binding st (held native))
      as [st1 [|]]; [|simpl; discriminate].
    destruct (NativeWatcher.startHeld fs binding st1 (held native))
      as [st2 [|]]; simpl; discriminate.
  - intros opts earlier. apply afterWatching_nothing_is_watched.
  - intros opts st. eapply watch_on_an_empty_registry.
    rewrite Hres. exact Hnew.
Qed.

End Watch.

Lemma C3_missing_path_is_rejected_witness :
  watch Samples.diskWithout Samples.counting MoreSamples.noneHeld "/home/u"
        (Registry.newRegistry MoreSamples.withoutReuse) NativeWatcher.initial
        "missing"
  = (Registry.newRegistry MoreSamples.withoutReuse, NativeWatcher.initial,
     Throw (WatcherError "Unable to watch path" "ENOENT")).
Proof.
  apply (C3_missing_path_is_rejected Samples.diskWithout Samples.counting
           MoreSamples.noneHeld "/home/u").
  reflexivity.
Defined.

Lemma C10_relative_path_is_resolved_witness :
  watch Samples.diskWithout Samples.counting MoreSamples.noneHeld "/home/u"
        (Registry.newRegistry MoreSamples.withoutReuse) NativeWatcher.initial
        "notes/../todo.txt"
  = (Registry.newRegistry MoreSamples.withoutReuse, NativeWatcher.initial,
     Throw TypeError).
Proof.
  exact (proj2 (proj2 (proj2 (proj2 (proj2
           (C10_relative_path_is_resolved
              Samples.diskWithout Samples.counting MoreSamples.noneHeld
              "/home/u" "notes/../todo.txt" false eq_refl eq_refl eq_refl)))))
           MoreSamples.withoutReuse NativeWatcher.initial).
Defined.

(** ** Live native watchers ([NativeWatcher.INSTANCES]) *)

Section LiveNativeWatchers.

Import NativeWatcher.

Variable fs : FS.
Variable binding : Binding.

Lemma findInstance_none (m : list (Z * t)) (p : string) :
  findInstance m p = None -> ~ In p (map pathOf m).
Proof.
  induction m as [|[h w] m IH]; simpl; intros Hfind Hin; [exact Hin|].
  destruct (String.eqb (normalizedPath w) p) eqn:E; [discriminate|].
  apply String.eqb_neq in E. destruct Hin as [Hin | Hin].
  - exact (E Hin).
  - exact (IH Hfind Hin).
Qed.

Lemma findInstance_some (m : list (Z * t)) (p : string) (w : t) :
  findInstance m p = Some w ->
  normalizedPath w = p /\ exists h, In (h, w) m.
Proof.
  induction m as [|[h w'] m IH]; simpl; intros Hfind; [discriminate|].
  destruct (String.eqb (normalizedPath w') p) eqn:E.
  - inversion Hfind; subst w'. apply String.eqb_eq in E.
    split; [exact E | exists h; left; reflexivity].
  - destruct (IH Hfind) as [Hp [h' Hin]].
    split; [exact Hp | exists h'; right; exact Hin].
Qed.






Lemma findInstance_listed (m : list (Z * t)) (p : string) :
  In p (map pathOf m) -> exists h w, findInstance m p = Some w /\ In (h, w) m.
Proof.
  intros Hin.
  destruct (findInstance m p) as [w|] eqn:Hfind.
  - destruct (findInstance_some m p w Hfind) as [_ [h Hh]].
    exists h, w. split; [reflexivity | exact Hh].
  - exfalso. exact (findInstance_none m p Hfind Hin).
Qed.

Lemma Forall_mapSet (P : Z * t -> Prop) (m : list (Z * t)) (k : Z) (v : t) :
  Forall P m -> P (k, v) -> Forall P (mapSet m k v).
Proof.
  induction m as [|[k' v'] m IH]; simpl; intros Hall Hv.
  - constructor; [exact Hv | constructor].
  - inversion Hall; subst. destruct (Z.eqb k' k); constructor; auto.
Qed.

Lemma Forall_filter (P : Z * t -> Prop) (f : Z * t -> bool) (m : list (Z * t)) :
  Forall P m -> Forall P (filter f m).
Proof.
  intros H. apply Forall_forall. intros kv Hin. apply filter_In in Hin.
  rewrite Forall_forall in H. apply H. apply Hin.
Qed.

Lemma start_keeps (st : State) (w : t) :
  wellKept st -> wellKept (snd (fst (start fs binding st w))).
Proof.
  intros [Hrun Hown]. unfold start.
  destruct (running w); [split; assumption|].
  destruct (negb (existsSync fs (normalizedPath w))); [split; assumption|].
  destruct (binding (bindingCalls st) (normalizedPath w) (recursive w))
    as [h|]; simpl; [|split; assumption].
  split; apply Forall_mapSet; try assumption; reflexivity.
Qed.

Lemma stop_keeps (st : State) (w : t) :
  wellKept st -> wellKept (snd (stop st w)).
Proof.
  intros [Hrun Hown]. unfold stop, wellKept. simpl.
  destruct (handle w); [|split; assumption].
  split; apply Forall_filter; assumption.
Qed.

(** A native watcher that [INSTANCES] lists is running: [start] leaves
    everything as it is. *)
Lemma start_of_a_live_one (st : State) (h : Z) (w : t) :
  wellKept st -> In (h, w) (INSTANCES st) ->
  start fs binding st w = (w, st, true).
Proof.
  intros [Hrun _] Hin.
  pose proof (proj1 (Forall_forall _ _) Hrun (h, w) Hin) as Hw. simpl in Hw.
  unfold start. rewrite Hw. reflexivity.
Qed.

Lemma step_keeps (st : State) (op : Op) :
  wellKept st -> wellKept (step fs binding st op).
Proof.
  intros Hk. destruct op as [p r | h | | i | i]; simpl.
  - unfold findOrCreate.
    destruct (findInstance (INSTANCES st) p) as [w|] eqn:Hfind.
    + apply findInstance_some in Hfind. destruct Hfind as [_ [h Hin]].
      rewrite (start_of_a_live_one st h w Hk Hin). exact Hk.
    + match goal with
      | |- context [start fs binding ?st1 ?w] =>
          pose proof (start_keeps st1 w Hk) as Hs;
          destruct (start fs binding st1 w) as [[w' st2] returned]
      end.
      exact Hs.
  - destruct (mapGet (INSTANCES st) h) as [w|]; [|exact Hk].
    apply stop_keeps. exact Hk.
  - split; constructor.
  - unfold startHeld. destruct (objectOf (created st) i) as [w|]; [|exact Hk].
    pose proof (start_keeps st w Hk) as Hs.
    destruct (start fs binding st w) as [[w' st1] returned]. exact Hs.
  - destruct (objectOf (created st) i) as [w|]; [|exact Hk].
    apply stop_keeps. exact Hk.
Qed.

Lemma run_keeps (ops : list Op) : wellKept (run fs binding ops).
Proof.
  unfold run.
  assert (H : forall st, wellKept st -> wellKept (fold_left (step fs binding) ops st)).
  { induction ops as [|op ops IH]; simpl; intros st Hk; [exact Hk|].
    apply IH. apply step_keeps. exact Hk. }
  apply H. split; constructor.
Qed.



(** *** The objects and their copies *)

Lemma ids_assign (objects : list t) (w : t) :
  map id (assign objects w) = map id objects.
Proof.
  induction objects as [|o r IH]; simpl; [reflexivity|].
  destruct (Nat.eqb (id o) (id w)) eqn:E; simpl.
  - apply Nat.eqb_eq in E. rewrite E. reflexivity.
  - rewrite IH. reflexivity.
Qed.

Lemma objectOf_assign (objects : list t) (w : t) :
  objectOf objects (id w) <> None -> objectOf (assign objects w) (id w) = Some w.
Proof.
  unfold objectOf. induction objects as [|o r IH]; simpl; [congruence|].
  destruct (Nat.eqb (id o) (id w)) eqn:E; simpl.
  - rewrite Nat.eqb_refl. reflexivity.
  - rewrite E. exact IH.
Qed.

Lemma objectOf_assign_other (objects : list t) (w : t) (i : nat) :
  id w <> i -> objectOf (assign objects w) i = objectOf objects i.
Proof.
  unfold objectOf. intros Hi. induction objects as [|o r IH]; simpl; [reflexivity|].
  destruct (Nat.eqb (id o) (id w)) eqn:E; simpl.
  - apply Nat.eqb_eq in E.
    destruct (Nat.eqb (id w) i) eqn:E1; [apply Nat.eqb_eq in E1; contradiction|].
    rewrite E, E1. reflexivity.
  - destruct (Nat.eqb (id o) i); [reflexivity | exact IH].
Qed.

Lemma objectOf_id (objects : list t) (i : nat) (w : t) :
  objectOf objects i = Some w -> id w = i.
Proof.
  unfold objectOf. intros H. apply find_some in H.
  apply Nat.eqb_eq. apply H.
Qed.

Lemma objectOf_older (objects : list t) (w o : t) (i : nat) :
  objectOf objects i = Some o -> objectOf (objects ++ [w]) i = Some o.
Proof.
  unfold objectOf. induction objects as [|x r IH]; simpl; [discriminate|].
  destruct (Nat.eqb (id x) i); [auto | exact IH].
Qed.

Lemma objectOf_newest (objects : list t) (w : t) :
  ~ In (id w) (map id objects) -> objectOf (objects ++ [w]) (id w) = Some w.
Proof.
  unfold objectOf. induction objects as [|x r IH]; simpl; intros H.
  - rewrite Nat.eqb_refl. reflexivity.
  - destruct (Nat.eqb (id x) (id w)) eqn:E.
    + apply Nat.eqb_eq in E. exfalso. apply H. left. exact E.
    + apply IH. intros Hin. apply H. right. exact Hin.
Qed.

Lemma mapGet_listed (m : list (Z * t)) (h : Z) (w : t) :
  mapGet m h = Some w -> In (h, w) m.
Proof.
  unfold mapGet.
  destruct (find (fun kv => Z.eqb (fst kv) h) m) as [[k v]|] eqn:Hf;
    [|discriminate].
  intros H. inversion H; subst. apply find_some in Hf.
  destruct Hf as [Hin Hk]. simpl in Hk. apply Z.eqb_eq in Hk. subst.
  exact Hin.
Qed.

Lemma in_mapSet (m : list (Z * t)) (k : Z) (v : t) (kv : Z * t) :
  In kv (mapSet m k v) -> kv = (k, v) \/ In kv m.
Proof.
  induction m as [|[k' v'] m IH]; simpl.
  - intros [H | []]. left. symmetry. exact H.
  - destruct (Z.eqb k' k); simpl.
    + intros [H | H]; [left; symmetry; exact H | right; right; exact H].
    + intros [H | H]; [right; left; exact H|].
      destruct (IH H) as [H' | H']; [left; exact H' | right; right; exact H'].
Qed.

Lemma start_upToDate (st : State) (w : t) :
  wellKept st -> upToDate st ->
  objectOf (created st) (id w) = Some w ->
  upToDate (snd (fst (start fs binding st w))).
Proof.
  intros [Hrun _] [Hup Hids] Hw. unfold start.
  destruct (running w) eqn:Hr; [split; assumption|].
  destruct (negb (existsSync fs (normalizedPath w))); [split; assumption|].
  destruct (binding (bindingCalls st) (normalizedPath w) (recursive w))
    as [h|]; simpl; [|split; assumption].
  set (w' := {| id := id w; normalizedPath := normalizedPath w;
                recursive := recursive w; running := true;
                handle := Some h |}).
  split; simpl; [|rewrite ids_assign; exact Hids].
  apply Forall_forall. intros kv Hin. apply in_mapSet in Hin.
  destruct Hin as [-> | Hin]; simpl.
  - apply (objectOf_assign (created st) w'). simpl. congruence.
  - pose proof (proj1 (Forall_forall _ _) Hup kv Hin) as Hkv.
    pose proof (proj1 (Forall_forall _ _) Hrun kv Hin) as Hlive.
    simpl in Hkv, Hlive.
    rewrite objectOf_assign_other; [exact Hkv|].
    simpl. intros E. rewrite <- E, Hw in Hkv. inversion Hkv; subst.
    congruence.
Qed.

Lemma stop_upToDate (st : State) (w : t) :
  wellKept st -> upToDate st ->
  objectOf (created st) (id w) = Some w ->
  upToDate (snd (stop st w)).
Proof.
  intros [_ Hown] [Hup Hids] Hw. unfold stop, upToDate. simpl.
  split; [|rewrite ids_assign; exact Hids].
  assert (Hother : forall kv,
             In kv (INSTANCES st) -> handle w <> Some (fst kv) ->
             objectOf
               (assign (created st)
                       {| id := id w; normalizedPath := normalizedPath w;
                          recursive := recursive w; running := false;
                          handle := handle w |})
               (id (snd kv))
             = Some (snd kv)).
  { intros kv Hin Hh.
    pose proof (proj1 (Forall_forall _ _) Hup kv Hin) as Hkv.
    pose proof (proj1 (Forall_forall _ _) Hown kv Hin) as Hk.
    simpl in Hkv, Hk.
    rewrite objectOf_assign_other; [exact Hkv|].
    simpl. intros E. rewrite <- E, Hw in Hkv. inversion Hkv; subst.
    contradiction. }
  apply Forall_forall. intros kv Hin.
  destruct (handle w) as [h|] eqn:Hh.
  - apply filter_In in Hin. destruct Hin as [Hin Hk].
    apply Hother; [exact Hin|].
    apply negb_true_iff, Z.eqb_neq in Hk. congruence.
  - apply Hother; [exact Hin | discriminate].
Qed.

Lemma stopEach_ids (pending : list (Z * t)) (st : State) :
  NativeWatcherId (stopEach pending st) = NativeWatcherId st
  /\ map id (created (stopEach pending st)) = map id (created st).
Proof.
  revert st. induction pending as [|[h w] r IH]; intros st;
    [split; reflexivity|].
  cbn [stopEach]. destruct (mapGet (INSTANCES st) h); [|apply IH].
  destruct (IH (snd (stop st w))) as [H1 H2]. rewrite H1, H2.
  unfold stop. simpl. rewrite ids_assign. auto.
Qed.

Lemma step_upToDate (st : State) (op : Op) :
  wellKept st -> upToDate st -> upToDate (step fs binding st op).
Proof.
  intros Hk Hup. destruct op as [p r | h | | i | i]; simpl.
  - unfold findOrCreate.
    destruct (findInstance (INSTANCES st) p) as [w|] eqn:Hfind.
    + apply findInstance_some in Hfind. destruct Hfind as [_ [h Hin]].
      rewrite (start_of_a_live_one st h w Hk Hin). exact Hup.
    + destruct Hup as [Hup Hids].
      match goal with
      | |- context [start fs binding ?st1 ?w] =>
          assert (Hs : upToDate (snd (fst (start fs binding st1 w))));
          [|destruct (start fs binding st1 w) as [[w' st2] returned]; exact Hs]
      end.
      apply start_upToDate.
      * exact Hk.
      * split; simpl.
        -- eapply Forall_impl; [|exact Hup]. simpl. intros kv Hkv.
           apply objectOf_older. exact Hkv.
        -- rewrite map_app. apply Forall_app. split.
           ++ eapply Forall_impl; [|exact Hids]. simpl. intros; lia.
           ++ constructor; [simpl; lia | constructor].
      * simpl. apply (objectOf_newest (created st)). simpl.
        intros Hin. pose proof (proj1 (Forall_forall _ _) Hids _ Hin) as Hlt.
        simpl in Hlt. lia.
  - destruct (mapGet (INSTANCES st) h) as [w|] eqn:Hget; [|exact Hup].
    apply stop_upToDate; [exact Hk | exact Hup|].
    apply mapGet_listed in Hget.
    exact (proj1 (Forall_forall _ _) (proj1 Hup) (h, w) Hget).
  - unfold closeAll, upToDate. simpl. split; [constructor|].
    destruct (stopEach_ids (INSTANCES st) st) as [H1 H2]. rewrite H1, H2.
    apply Hup.
  - unfold startHeld. destruct (objectOf (created st) i) as [w|] eqn:Hw;
      [|exact Hup].
    assert (Hs : upToDate (snd (fst (start fs binding st w)))).
    { apply start_upToDate; [exact Hk | exact Hup|].
      rewrite (objectOf_id _ _ _ Hw). exact Hw. }
    destruct (start fs binding st w) as [[w' st1] returned]. exact Hs.
  - destruct (objectOf (created st) i) as [w|] eqn:Hw; [|exact Hup].
    apply stop_upToDate; [exact Hk | exact Hup|].
    rewrite (objectOf_id _ _ _ Hw). exact Hw.
Qed.

(** Whatever is done, [INSTANCES] holds the native watchers as they are:
    a subscription that holds one of them sees the same fields. *)
Lemma run_upToDate (ops : list Op) : upToDate (run fs binding ops).
Proof.
  unfold run.
  assert (H : forall st,
             wellKept st -> upToDate st ->
             upToDate (fold_left (step fs binding) ops st)).
  { induction ops as [|op ops IH]; simpl; intros st Hk Hup; [exact Hup|].
    apply IH; [apply step_keeps; exact Hk | apply step_upToDate; assumption]. }
  apply H; [split; constructor | split; constructor].
Qed.


End LiveNativeWatchers.



(** ** The registry ([RegistryTree.add], [RegistryWatcherNode.remove]) *)

Section RegistryProperties.

Import Registry.
Local Open Scope list_scope.

(** [getPathSegments] climbs no further than the first node without
    [pathKey]. *)
Lemma climb_stops (pre post : list (option string)) (result : list string) :
  (List.length (climb (pre ++ None :: post) result)
   <= List.length pre + List.length result)%nat.
Proof.
  revert result. induction pre as [|[k|] pre IH]; intros result; simpl.
  - lia.
  - destruct (negb (String.eqb k "")); [|lia].
    specialize (IH (k :: result)). simpl in IH. lia.
  - lia.
Qed.

(** A [MissingResult] holds a [RegistryNode], reached by consuming fewer
    segments than were asked for. *)
Lemma lookup_missing (pathSegments : list string) :
  forall (this : Node) (ancestors : list (option string))
         (lastParent : Node) (ancestors' : list (option string)),
    lookup pathSegments this ancestors
    = Some (MissingResult lastParent ancestors') ->
    (exists k ch, lastParent = RegistryNode k ch) /\
    exists pre, ancestors' = pre ++ ancestors
                /\ (List.length pre < List.length pathSegments)%nat.
Proof.
  induction pathSegments as [|seg rest IH];
    intros this ancestors lastParent ancestors' H;
    destruct this as [k ch | w]; simpl in H; try discriminate.
  - destruct ((fix each (ch : Children) := _) ch); discriminate.
  - destruct (getChild ch seg) as [| |child] eqn:Hc; [|discriminate|].
    + inversion H; subst. split; [eauto|].
      exists []. simpl. split; [reflexivity | lia].
    + destruct (IH _ _ _ _ H) as [Hnode [pre [Hpre Hlen]]].
      split; [exact Hnode|].
      exists (pre ++ [k]). rewrite <- app_assoc. simpl.
      split; [exact Hpre|]. rewrite length_app. simpl. lia.
Qed.

Lemma lookup_missing_from_root (pathSegments : list string) (ch : Children)
      (lastParent : Node) (ancestors : list (option string)) :
  lookup pathSegments (RegistryNode None ch) []
  = Some (MissingResult lastParent ancestors) ->
  exists k ch', lastParent = RegistryNode k ch' /\
    (k = None \/
     forall x, (List.length (getPathSegments x ancestors)
                < List.length pathSegments)%nat).
Proof.
  destruct pathSegments as [|seg rest]; simpl.
  - destruct ((fix each (ch : Children) := _) ch); discriminate.
  - destruct (getChild ch seg) as [| |child] eqn:Hc; [|discriminate|].
    + intros H. inversion H; subst. exists None, ch. split; [reflexivity|].
      left. reflexivity.
    + intros H. apply lookup_missing in H.
      destruct H as [[k [ch' Hnode]] [pre [Hpre Hlen]]].
      exists k, ch'. split; [exact Hnode|]. right. intros x.
      subst ancestors. unfold getPathSegments.
      pose proof (climb_stops pre [] [x]) as Hclimb. simpl in Hclimb. lia.
Qed.

(** When [add] merges: the lookup is 'missing' below a node that has a
    parent and leaves, merging is enabled and the distance does not exceed
    the cap.  The new native watcher is then created at the common ancestor
    and, unless [insert] throws, every leaf below it is handed over. *)
Lemma add_merges_within_the_cap (tree : RegistryTree) (r : Node)
      (pathSegments : list string)
      (attachToNative : Native -> string -> list Effect)
      (k : string) (ch : Children) (ancestors : list (option string))
      (l : WatcherNode * list string) (ls : list (WatcherNode * list string)) :
  root tree = Some r ->
  lookup pathSegments r [] = Some (MissingResult (RegistryNode (Some k) ch) ancestors) ->
  mergeWatchersWithCommonAncestors (treeOptions tree) = true ->
  leaves (RegistryNode (Some k) ch) (basePathSegments tree) = Some (l :: ls) ->
  (Z.of_nat (List.length pathSegments)
   - Z.of_nat (List.length (getPathSegments k ancestors))
   <= maxCommonAncestorLevel (treeOptions tree))%Z ->
  let ancestor := getPathSegments k ancestors in
  add tree pathSegments attachToNative
  = match attachToAncestor tree r attachToNative ancestor
            (map snd (l :: ls)
             ++ [skipn (List.length ancestor) pathSegments]) with
    | None => None
    | Some (tree', effects) =>
        Some (tree',
              effects
                ++ handOver (l :: ls) (absolute ancestor) (absolute ancestor))
    end.
Proof.
  intros Hroot Hlookup Hmerge Hleaves Hcap ancestor.
  unfold add. rewrite Hroot, Hlookup, Hmerge, Hleaves. simpl negb. cbv iota.
  fold ancestor.
  destruct (Z.gtb_spec
              (Z.of_nat (List.length pathSegments)
               - Z.of_nat (List.length ancestor))
              (maxCommonAncestorLevel (treeOptions tree))) as [Hgt | Hle].
  - unfold ancestor in Hgt. lia.
  - reflexivity.
Qed.

(** C5 (what the code does where the specification speaks of a disabled
    cap).  With [maxCommonAncestorLevel] set to 0 or to a negative integer,
    a subscription whose lookup is 'missing' is never merged with the leaves
    under a common ancestor: unless a [TypeError] escapes, [add] creates a
    standalone native watcher on the requested path, at any distance. *)
Theorem C5_cap_of_zero_forbids_merging (tree : RegistryTree) (ch : Children)
        (pathSegments : list string)
        (attachToNative : Native -> string -> list Effect)
        (lastParent : Node) (ancestors : list (option string)) :
  root tree = Some (RegistryNode None ch) ->
  (maxCommonAncestorLevel (treeOptions tree) <= 0)%Z ->
  lookup pathSegments (RegistryNode None ch) []
  = Some (MissingResult lastParent ancestors) ->
  add tree pathSegments attachToNative = None \/
  add tree pathSegments attachToNative
  = attachToNew tree (RegistryNode None ch) pathSegments attachToNative [].
Proof.
  intros Hroot Hcap Hlookup. unfold add. rewrite Hroot, Hlookup.
  destruct (negb (mergeWatchersWithCommonAncestors (treeOptions tree)));
    [right; reflexivity|].
  destruct (lookup_missing_from_root _ _ _ _ Hlookup)
    as [k [ch' [-> [-> | Hshort]]]]; [right; reflexivity|].
  destruct k as [k|]; [|right; reflexivity].
  destruct (leaves (RegistryNode (Some k) ch') (basePathSegments tree))
    as [[|l ls]|]; [right; reflexivity| |left; reflexivity].
  specialize (Hshort k).
  destruct (Z.gtb_spec
              (Z.of_nat (List.length pathSegments)
               - Z.of_nat (List.length (getPathSegments k ancestors)))
              (maxCommonAncestorLevel (treeOptions tree))) as [Hgt | Hle].
  - right. reflexivity.
  - exfalso. lia.
Qed.

(** C6 (what the code does where the specification speaks of the
    [relocate_ancestor_watchers] option).  With the option disabled, the
    detach of one of several child paths of a leaf that leaves exactly one
    child path still narrows the leaf: a native watcher is created on the
    remaining child path, the listeners of the ancestor's native watcher
    are offered to move to it, and the leaf is replaced in the trie by a
    subtree holding the new leaf.  (Only when a segment of the remaining
    child path names a member of [Object.prototype] is there no result: a
    [TypeError] escapes from building the subtree.) *)
Theorem C6_narrowing_ignores_the_option (this : WatcherNode)
        (pathSegments : list string) (remaining : string) :
  pathSegments <> [] ->
  relocateAncestorWatchers (options this) = false ->
  childPaths (removeChildPath this pathSegments) = [remaining] ->
  let segments := absolutePathSegments this ++ NodePath.split remaining in
  let tighter := absolute segments in
  removeWatcherNode this pathSegments
  = match insert (NodePath.split remaining) (RegistryNode None [])
                 (RegistryWatcherNode
                    (newWatcherNode tighter segments [] (options this))) with
    | Some subtree =>
        Some (Kept subtree,
              [ECreateNative tighter;
               EReattachListenersTo (nativeWatcher this) tighter tighter])
    | None => None
    end.
Proof.
  intros Hne _ Hone segments tighter.
  destruct pathSegments as [|seg rest]; [contradiction|].
  unfold removeWatcherNode. rewrite Hone. simpl Nat.eqb. cbv iota.
  unfold replacedWithNode. rewrite Hone. simpl fold_left.
  change (absolutePathSegments (removeChildPath this (seg :: rest)))
    with (absolutePathSegments this).
  change (options (removeChildPath this (seg :: rest))) with (options this).
  change (nativeWatcher (removeChildPath this (seg :: rest)))
    with (nativeWatcher this).
  rewrite add_into_empty_tree. unfold attachToNew.
  fold segments. fold tighter.
  destruct (insert _ _ _); reflexivity.
Qed.

End RegistryProperties.

Example registryWithA_is_built (cap : Z) :
  Registry.attach (Registry.newRegistry (Samples.capped cap)) "/X/a"
  = Some (Samples.registryWithA (Samples.capped cap),
          [Registry.ECreateNative "/X/a";
           Registry.EAttachToNative "/X/a" "/X/a"]).
Proof. reflexivity. Qed.

(** With a cap of 1 the sibling [/X/b] is merged with [/X/a] under [/X]. *)
Example siblings_merge_under_a_positive_cap :
  option_map snd (Registry.attach (Samples.registryWithA (Samples.capped 1)) "/X/b")
  = Some [Registry.ECreateNative "/X";
          Registry.EAttachToNative "/X" "/X";
          Registry.EReattachListenersTo "/X/a" "/X" "/X";
          Registry.EDispose "/X/a";
          Registry.EStop "/X/a"].
Proof. reflexivity. Qed.

(** With a cap of 0 it is not: a second native watcher is created. *)
Lemma C5_cap_of_zero_forbids_merging_witness :
  option_map snd (Registry.attach (Samples.registryWithA (Samples.capped 0)) "/X/b")
  = Some [Registry.ECreateNative "/X/b";
          Registry.EAttachToNative "/X/b" "/X/b"].
Proof.
  destruct (C5_cap_of_zero_forbids_merging
              (Samples.registryWithA (Samples.capped 0))
              [("X", Some (Registry.RegistryNode (Some "X")
                             [("a", Some (Samples.leafA (Samples.capped 0)))]))]
              ["X"; "b"]
              (fun native nativePath =>
                 [Registry.EAttachToNative native nativePath])
              (Registry.RegistryNode (Some "X")
                 [("a", Some (Samples.leafA (Samples.capped 0)))])
              [None]
              eq_refl (Z.le_refl 0) eq_refl) as [H | H].
  - discriminate H.
  - unfold Registry.attach.
    change (Registry.segmentsOf "/X/b") with ["X"; "b"].
    rewrite H. reflexivity.
Defined.

(** The same through the registry: subscriptions on [/X], [/X/a] and
    [/X/b] share the leaf on [/X]; the one on [/X/a] is detached. *)
Example detach_narrows_without_the_option :
  match Registry.attach (Registry.newRegistry Samples.noRelocation) "/X" with
  | Some (r1, _) =>
      match Registry.attach r1 "/X/a" with
      | Some (r2, _) =>
          match Registry.attach r2 "/X/b" with
          | Some (r3, _) => option_map snd (Registry.detach r3 "/X/a")
          | None => None
          end
      | None => None
      end
  | None => None
  end
  = Some [Registry.ECreateNative "/X/b";
          Registry.EReattachListenersTo "/X" "/X/b" "/X/b"].
Proof. reflexivity. Qed.

Lemma C6_narrowing_ignores_the_option_witness :
  Registry.removeWatcherNode Samples.leafX ["a"]
  = Some (Registry.Kept
            (Some (Registry.RegistryNode None
                     [("b", Some (Registry.RegistryWatcherNode
                                    {| Registry.nativeWatcher := "/X/b";
                                       Registry.absolutePathSegments := ["X"; "b"];
                                       Registry.childPaths := [];
                                       Registry.options := Samples.noRelocation |}))])),
          [Registry.ECreateNative "/X/b";
           Registry.EReattachListenersTo "/X" "/X/b" "/X/b"]).
Proof.
  exact (C6_narrowing_ignores_the_option Samples.leafX ["a"] "b"
           ltac:(discriminate) eq_refl eq_refl).
Defined.

(** ** The FSEvents backend ([handleActions]) *)

(** C9 (what the code does).  The two ends of a rename inside [/X] that
    are not the first two events of their batch are not recognised as a
    pair: the listener gets [Delete] for the old name and [Add] for the new
    one, and no [Moved].  For a rename across directories, the [Modified]
    that follows [Delete] and [Add] names the old path. *)
Theorem C9_rename_pairs_in_a_batch :
  fst (FSEvents.handleActions Samples.afterRename Samples.oneWatch
                              Samples.batchWithLateRename)
  = [Samples.sent 1 "/X/" "a" FSEvents.Modified "";
     Samples.sent 1 "/X/" "b" FSEvents.Modified "";
     Samples.sent 1 "/X/" "f" FSEvents.Delete "";
     Samples.sent 1 "/X/" "g" FSEvents.Add ""] /\
  fst (FSEvents.handleActions Samples.afterRename Samples.twoWatches
                              Samples.batchAcrossDirectories)
  = [Samples.sent 1 "/X/" "f" FSEvents.Delete "";
     Samples.sent 1 "/Y/" "g" FSEvents.Add "";
     Samples.sent 1 "/X/" "f" FSEvents.Modified "";
     Samples.sent 2 "/Y/" "g" FSEvents.Modified ""].
Proof. split; vm_compute; reflexivity. Qed.

(** The same two ends at the head of a batch are one [Moved]. *)
Example rename_pair_at_the_head_of_a_batch :
  fst (FSEvents.handleActions Samples.afterRename Samples.oneWatch
         [Samples.fsEvent "/X/f" FSEvents.kFSEventStreamEventFlagItemRenamed 7;
          Samples.fsEvent "/X/g" FSEvents.kFSEventStreamEventFlagItemRenamed 7])
  = [Samples.sent 1 "/X/" "g" FSEvents.Moved "f"].
Proof. vm_compute. reflexivity. Qed.


(** ** More on the event translator *)

Section TranslatorMore.

Import PathWatcher.

Variable fs : FS.

Lemma length_append (a b : string) :
  String.length (a ++ b) = String.length a + String.length b.
Proof. induction a as [|c a IH]; simpl; [reflexivity | rewrite IH; reflexivity]. Qed.

Lemma prefix_length (a b : string) :
  String.prefix a b = true -> String.length a <= String.length b.
Proof.
  revert a. induction b as [|c b IH]; intros [|c' a]; simpl; intros H;
    try discriminate; try lia.
  destruct (ascii_dec c' c); [|discriminate].
  specialize (IH a H). lia.
Qed.

Lemma lastChar_append_char (s : string) (c : ascii) :
  NodePath.lastChar (s ++ String c "") = Some c.
Proof.
  induction s as [|x s IH]; [reflexivity|].
  simpl. rewrite IH. destruct (s ++ String c ""); [discriminate IH | reflexivity].
Qed.

(** [sep] gives a path that ends with the separator and leaves such a path
    alone: applying it twice is applying it once. *)
Lemma sep_ends_with_the_separator (dirPath : string) :
  NodePath.endsWithSep (sep dirPath) = true /\ sep (sep dirPath) = sep dirPath.
Proof.
  assert (H : NodePath.endsWithSep (sep dirPath) = true).
  { unfold sep. destruct (NodePath.endsWithSep dirPath) eqn:E; [exact E|].
    unfold NodePath.endsWithSep, NodePath.path_sep.
    rewrite lastChar_append_char. reflexivity. }
  split; [exact H|]. unfold sep at 1. rewrite H. reflexivity.
Qed.

(** The watched directory is not inside itself. *)
Lemma directory_not_inside_itself (this : t) :
  NodePath.endsWithSep (normalizedPath this) = false ->
  isWatchedPath this (normalizedPath this) = false.
Proof.
  intros Hsep. unfold isWatchedPath, sep, NodePath.startsWith. rewrite Hsep.
  destruct (String.prefix (normalizedPath this ++ NodePath.path_sep)
                          (normalizedPath this)) eqn:E; [|reflexivity].
  apply prefix_length in E. rewrite length_append in E. simpl in E. lia.
Qed.

(** X1: an event about the watched directory itself (its new path is the
    normalized path, its old path is not inside) never reaches the
    callback: the deletion of a directly watched directory is silent. *)
Theorem event_on_the_directory_itself_is_silent (this : t) (event : WatcherEvent) :
  NodePath.endsWithSep (normalizedPath this) = false ->
  path event = normalizedPath this ->
  isWatchedPath this (oldPath event) = false ->
  onNativeEvent fs this event = (this, Returned).
Proof.
  intros Hsep Hpath Hold. unfold onNativeEvent.
  rewrite Hpath, (directory_not_inside_itself this Hsep), Hold. reflexivity.
Qed.

(** Whatever [onNativeEvent] does, it ends in one of three ways: it
    returns with the subscription untouched, it throws with the subscription
    untouched, or it goes through the final test and call with some event
    name and path. *)
Lemma onNativeEvent_shape (this : t) (event : WatcherEvent) :
  onNativeEvent fs this event = (this, Returned)
  \/ onNativeEvent fs this event = (this, Threw)
  \/ exists this' kind p,
      onNativeEvent fs this event
      = deliver (String.eqb (originalNormalizedPath this) (path event))
                this' kind p
      /\ (this' = this
          \/ action event = child_rename
             /\ isWatchedPath this (path event) = true
             /\ String.eqb (originalNormalizedPath this) (path event) = false
             /\ String.eqb (originalNormalizedPath this) (oldPath event) = true
             /\ moveToPath fs this (path event) = Some this').
Proof.
  unfold onNativeEvent.
  destruct (negb (isWatchedPath this (path event))
            && negb (isWatchedPath this (oldPath event))); [left; reflexivity|].
  destruct (action event) eqn:Hact;
    try (right; right; eexists _, _, _; split; [reflexivity | left; reflexivity]).
  - destruct (negb (isWatchingParent this));
      destruct (String.eqb (originalNormalizedPath this) (path event));
      right; right; eexists _, _, _; split; try reflexivity; left; reflexivity.
  - destruct (negb (isWatchingParent this));
      destruct (String.eqb (originalNormalizedPath this) (path event));
      right; right; eexists _, _, _; split; try reflexivity; left; reflexivity.
  - destruct (negb (isWatchingParent this));
      destruct (String.eqb (originalNormalizedPath this) (path event));
      try (left; reflexivity);
      right; right; eexists _, _, _; split; try reflexivity; left; reflexivity.
  - destruct (String.eqb (originalNormalizedPath this) (path event)) eqn:Eq;
      destruct (String.eqb (originalNormalizedPath this) (oldPath event)) eqn:Eo;
      destruct (isWatchingParent this); simpl;
      try (left; reflexivity).
    all: try (destruct (String.eqb (NodePath.dirname (path event)) (normalizedPath this)
                        || String.eqb (NodePath.dirname (oldPath event)) (normalizedPath this));
              [right; right; eexists _, _, _; split; [reflexivity | left; reflexivity]
              | left; reflexivity]).
    all: destruct (isWatchedPath this (path event)) eqn:Hnew; simpl;
      try (right; right; eexists _, _, _; split; [reflexivity | left; reflexivity]).
    all: destruct (moveToPath fs this (path event)) as [moved|] eqn:Hmove;
      [right; right; eexists _, _, _; split;
       [reflexivity | right; repeat split; try reflexivity; assumption]
      | right; left; reflexivity].
Qed.

Lemma deliver_cases (eq : bool) (this : t) (kind : Action) (p : string) :
  (eq = true /\ kind = create /\ deliver eq this kind p = (this, Returned))
  \/ ((eq = false \/ kind <> create)
      /\ deliver eq this kind p
         = (this, Called kind (if eq then (if Action_eqb kind delete
                                           then None else Some "")
                               else Some p))).
Proof.
  unfold deliver. destruct eq; simpl.
  - destruct kind; simpl;
      try (right; split; [right; discriminate | reflexivity]).
    left. auto.
  - right. split; [left; reflexivity | reflexivity].
Qed.

(** X2: the callback gets [null] only with [delete] and only when the event's
    path is the exact target, and it is never called with [create] for the
    exact target, whatever the event. *)
Theorem null_only_for_a_delete_of_the_target (this this' : t)
        (event : WatcherEvent) (kind : Action) (arg : option string) :
  onNativeEvent fs this event = (this', Called kind arg) ->
  (arg = None -> kind = delete /\ path event = originalNormalizedPath this) /\
  (path event = originalNormalizedPath this -> kind <> create).
Proof.
  intros H.
  destruct (onNativeEvent_shape this event) as [E | [E | (x & k & p & E & _)]];
    rewrite E in H; try discriminate.
  destruct (deliver_cases
              (String.eqb (originalNormalizedPath this) (path event)) x k p)
    as [(_ & _ & D) | (Hc & D)]; rewrite D in H; [discriminate|].
  inversion H; subst; clear H.
  destruct (String.eqb (originalNormalizedPath this) (path event)) eqn:Eq.
  - apply String.eqb_eq in Eq. split.
    + destruct kind; simpl; intros Hn; try discriminate. auto.
    + intros _. destruct Hc as [Hc | Hc]; [discriminate | exact Hc].
  - apply String.eqb_neq in Eq. split; [discriminate | congruence].
Qed.

(** The final test and call hand back the subscription they were given. *)
Lemma fst_deliver (eq : bool) (this : t) (kind : Action) (p : string) :
  fst (deliver eq this kind p) = this.
Proof.
  unfold deliver. destruct (eq && Action_eqb kind create); reflexivity.
Qed.

(** X3: the subscription changes only by following a rename of its target:
    either [onNativeEvent] leaves it as it was, or the event is a rename on
    a child whose old path is the target and whose new path, different from
    the target, is inside the watched directory, and the subscription is the
    one [moveToPath] makes for the new path. *)
Theorem subscription_moves_only_with_its_target (this : t) (event : WatcherEvent) :
  fst (onNativeEvent fs this event) = this
  \/ (action event = child_rename
      /\ oldPath event = originalNormalizedPath this
      /\ path event <> originalNormalizedPath this
      /\ isWatchedPath this (path event) = true
      /\ moveToPath fs this (path event)
         = Some (fst (onNativeEvent fs this event))).
Proof.
  destruct (onNativeEvent_shape this event)
    as [E | [E | (x & k & p & E & Hx)]]; rewrite E; try (left; reflexivity).
  rewrite fst_deliver.
  destruct Hx as [-> | (Ha & Hnew & Hneq & Hold & Hmove)]; [left; reflexivity|].
  right. apply String.eqb_neq in Hneq. apply String.eqb_eq in Hold.
  repeat split; auto.
Qed.

(** X4: an exception escapes [onNativeEvent] only while it follows a rename of
    the target to a path that cannot be examined on disk, and the
    subscription is then untouched; no other event makes it throw. *)
Theorem throws_only_when_the_destination_is_gone (this this' : t)
        (event : WatcherEvent) :
  onNativeEvent fs this event = (this', Threw) ->
  this' = this
  /\ action event = child_rename
  /\ oldPath event = originalNormalizedPath this
  /\ isWatchedPath this (path event) = true
  /\ statIsDirectory fs (path event) = None.
Proof.
  unfold onNativeEvent.
  destruct (negb (isWatchedPath this (path event))
            && negb (isWatchedPath this (oldPath event))); [discriminate|].
  assert (Hd : forall eq x k p, deliver eq x k p <> (this', Threw)).
  { intros eq x k p. unfold deliver.
    destruct (eq && Action_eqb k create); discriminate. }
  destruct (action event) eqn:Hact; intros H;
    try (exfalso; exact (Hd _ _ _ _ H)).
  - destruct (negb (isWatchingParent this));
      destruct (String.eqb (originalNormalizedPath this) (path event));
      exfalso; exact (Hd _ _ _ _ H).
  - destruct (negb (isWatchingParent this));
      destruct (String.eqb (originalNormalizedPath this) (path event));
      exfalso; exact (Hd _ _ _ _ H).
  - destruct (negb (isWatchingParent this));
      destruct (String.eqb (originalNormalizedPath this) (path event));
      try discriminate; exfalso; exact (Hd _ _ _ _ H).
  - destruct (String.eqb (originalNormalizedPath this) (path event)) eqn:Eq;
      destruct (String.eqb (originalNormalizedPath this) (oldPath event)) eqn:Eo;
      destruct (isWatchingParent this); simpl in H; try discriminate;
      try (destruct (String.eqb (NodePath.dirname (path event)) (normalizedPath this)
                     || String.eqb (NodePath.dirname (oldPath event)) (normalizedPath this));
           [exfalso; exact (Hd _ _ _ _ H) | discriminate]);
      destruct (isWatchedPath this (path event)) eqn:Hnew; simpl in H;
      try (exfalso; exact (Hd _ _ _ _ H));
      unfold moveToPath in H;
      (destruct (statIsDirectory fs (path event)) eqn:Hstat;
       [exfalso; exact (Hd _ _ _ _ H)|]);
      inversion H; subst; apply String.eqb_eq in Eo; auto.
Qed.

(** X5: a subscription on a directory only ever calls its callback with one of
    the four public names when the addon reports an event on a child. *)
Theorem directory_subscription_uses_public_names (this this' : t)
        (event : WatcherEvent) (kind : Action) (arg : option string) :
  isWatchingParent this = false ->
  isChildAction (action event) = true ->
  onNativeEvent fs this event = (this', Called kind arg) ->
  Main.isPublicName kind = true.
Proof.
  intros Hwp Hchild. unfold onNativeEvent. rewrite Hwp.
  destruct (negb (isWatchedPath this (path event))
            && negb (isWatchedPath this (oldPath event))) eqn:Hout;
    [discriminate|].
  assert (Hd : forall eq x k p,
             deliver eq x k p = (this', Called kind arg) -> kind = k).
  { intros eq x k p. unfold deliver.
    destruct (eq && Action_eqb k create); [discriminate|].
    intros H. inversion H. reflexivity. }
  destruct (action event) eqn:Hact; try discriminate Hchild; simpl.
  - destruct (String.eqb (originalNormalizedPath this) (path event));
      intros H; apply Hd in H; subst; reflexivity.
  - intros H; apply Hd in H; subst; reflexivity.
  - destruct (String.eqb (originalNormalizedPath this) (path event));
      [discriminate|]. intros H; apply Hd in H; subst; reflexivity.
  - destruct (negb (String.eqb (originalNormalizedPath this) (path event)
                    || String.eqb (originalNormalizedPath this) (oldPath event))).
    + destruct (String.eqb (NodePath.dirname (path event)) (normalizedPath this)
                || String.eqb (NodePath.dirname (oldPath event)) (normalizedPath this));
        [|discriminate]. intros H; apply Hd in H; subst; reflexivity.
    + destruct (if isWatchedPath this (path event)
                     && negb (String.eqb (originalNormalizedPath this) (path event))
                then moveToPath fs this (path event) else Some this);
        [|discriminate].
      intros H; apply Hd in H; subst.
      destruct (isWatchedPath this (path event)),
               (isWatchedPath this (oldPath event));
        try reflexivity; discriminate Hout.
Qed.

(** X6: a subscription on a file never reports a public event for a sibling:
    when neither path of a child event is the target, the callback is not
    called, except for the creation or deletion of a sibling, which the
    callback receives under the addon's own name, with the sibling's
    path. *)
Theorem file_subscription_and_its_siblings (this : t) (event : WatcherEvent) :
  isWatchingParent this = true ->
  isChildAction (action event) = true ->
  path event <> originalNormalizedPath this ->
  oldPath event <> originalNormalizedPath this ->
  onNativeEvent fs this event = (this, Returned)
  \/ ((action event = child_create \/ action event = child_delete)
      /\ onNativeEvent fs this event
         = (this, Called (action event) (Some (path event)))).
Proof.
  intros Hwp Hchild Hp Ho. unfold onNativeEvent. rewrite Hwp.
  assert (Ep : String.eqb (originalNormalizedPath this) (path event) = false)
    by (apply String.eqb_neq; congruence).
  assert (Eo : String.eqb (originalNormalizedPath this) (oldPath event) = false)
    by (apply String.eqb_neq; congruence).
  rewrite Ep, Eo.
  destruct (negb (isWatchedPath this (path event))
            && negb (isWatchedPath this (oldPath event))); [left; reflexivity|].
  destruct (action event) eqn:Hact; try discriminate Hchild; simpl;
    try (left; reflexivity); right; split; auto.
Qed.

(** X7: a target renamed to a path outside the watched directory is reported
    as [delete], with the destination as path argument (not [null]), and
    the subscription stays on the old path. *)
Theorem target_moved_out_is_a_delete (this : t) (event : WatcherEvent) :
  action event = child_rename ->
  oldPath event = originalNormalizedPath this ->
  isWatchedPath this (oldPath event) = true ->
  isWatchedPath this (path event) = false ->
  onNativeEvent fs this event = (this, Called delete (Some (path event))).
Proof.
  intros Hact Hold Hin Hout. unfold onNativeEvent.
  rewrite Hact, Hin, Hout. rewrite <- Hold, String.eqb_refl.
  assert (Ep : String.eqb (oldPath event) (path event) = false).
  { apply String.eqb_neq. intros E. rewrite E in Hin. congruence. }
  rewrite Ep. simpl.
  destruct (isWatchingParent this); reflexivity.
Qed.

(** X8: the constructor relates the two paths of the subscription (a file is
    watched through its parent directory, a directory through itself) and
    no event undoes that. *)
Theorem paths_stay_consistent (watched : string) (this : t) :
  constructor fs watched = Ok this ->
  Main.consistent this
  /\ forall events,
      Main.consistent
        (fold_left (fun w e => fst (onNativeEvent fs w e)) events this).
Proof.
  intros Hnew.
  assert (H0 : Main.consistent this).
  { unfold constructor in Hnew.
    destruct (negb (existsSync fs watched)); [discriminate|].
    destruct (statIsDirectory fs (getRealFilePath fs watched)); [|discriminate].
    inversion Hnew; subst. unfold Main.consistent. reflexivity. }
  split; [exact H0|].
  intros events. clear Hnew. revert this H0.
  induction events as [|e events IH]; intros w Hw; simpl; [exact Hw|].
  apply IH.
  destruct (onNativeEvent_shape w e)
    as [E | [E | (x & k & p & E & Hx)]]; rewrite E; try exact Hw.
  rewrite fst_deliver.
  destruct Hx as [-> | (_ & _ & _ & _ & Hmove)]; [exact Hw|].
  unfold moveToPath in Hmove.
  destruct (statIsDirectory fs (path e)); [|discriminate].
  inversion Hmove as [Hthis]. unfold Main.consistent. reflexivity.
Qed.

End TranslatorMore.

(** Sample runs of the translator. *)

Lemma event_on_the_directory_itself_is_silent_witness :
  PathWatcher.onNativeEvent Samples.disk MoreSamples.onDirectory
                            MoreSamples.deletedX
  = (MoreSamples.onDirectory, Returned).
Proof.
  exact (event_on_the_directory_itself_is_silent
           Samples.disk MoreSamples.onDirectory MoreSamples.deletedX
           eq_refl eq_refl eq_refl).
Defined.

Lemma null_only_for_a_delete_of_the_target_witness :
  PathWatcher.onNativeEvent Samples.disk Samples.onFile MoreSamples.deletedF
  = (Samples.onFile, Called delete None)
  /\ path MoreSamples.deletedF = PathWatcher.originalNormalizedPath Samples.onFile.
Proof.
  split; [reflexivity|].
  exact (proj2 (proj1 (null_only_for_a_delete_of_the_target
                         Samples.disk Samples.onFile Samples.onFile
                         MoreSamples.deletedF delete None eq_refl)
                      eq_refl)).
Defined.

Lemma throws_only_when_the_destination_is_gone_witness :
  PathWatcher.onNativeEvent MoreSamples.diskLosingG Samples.onFile
                            Samples.renamedAway
  = (Samples.onFile, Threw)
  /\ statIsDirectory MoreSamples.diskLosingG (path Samples.renamedAway) = None.
Proof.
  split; [reflexivity|].
  exact (proj2 (proj2 (proj2 (proj2
           (throws_only_when_the_destination_is_gone
              MoreSamples.diskLosingG Samples.onFile Samples.onFile
              Samples.renamedAway eq_refl))))).
Defined.

Lemma directory_subscription_uses_public_names_witness :
  PathWatcher.onNativeEvent Samples.disk MoreSamples.onDirectory
                            MoreSamples.createdA
  = (MoreSamples.onDirectory, Called change (Some ""))
  /\ Main.isPublicName change = true.
Proof.
  split; [reflexivity|].
  exact (directory_subscription_uses_public_names
           Samples.disk MoreSamples.onDirectory MoreSamples.onDirectory
           MoreSamples.createdA change (Some "") eq_refl eq_refl eq_refl).
Defined.

Lemma file_subscription_and_its_siblings_witness :
  PathWatcher.onNativeEvent Samples.disk Samples.onFile Samples.changedG
  = (Samples.onFile, Returned)
  \/ ((action Samples.changedG = child_create
       \/ action Samples.changedG = child_delete)
      /\ PathWatcher.onNativeEvent Samples.disk Samples.onFile Samples.changedG
         = (Samples.onFile,
            Called (action Samples.changedG) (Some (path Samples.changedG)))).
Proof.
  exact (file_subscription_and_its_siblings
           Samples.disk Samples.onFile Samples.changedG eq_refl eq_refl
           ltac:(discriminate) ltac:(discriminate)).
Defined.

Lemma target_moved_out_is_a_delete_witness :
  PathWatcher.onNativeEvent Samples.disk Samples.onFile MoreSamples.movedOut
  = (Samples.onFile, Called delete (Some "/Y/f")).
Proof.
  exact (target_moved_out_is_a_delete
           Samples.disk Samples.onFile MoreSamples.movedOut
           eq_refl eq_refl eq_refl eq_refl).
Defined.

Lemma paths_stay_consistent_witness :
  PathWatcher.constructor Samples.disk "/X/f" = Ok MoreSamples.unattachedOnFile
  /\ Main.consistent
       (fold_left (fun w e => fst (PathWatcher.onNativeEvent Samples.disk w e))
                  [Samples.renamedAway; Samples.changedG]
                  MoreSamples.unattachedOnFile).
Proof.
  split; [reflexivity|].
  exact (proj2 (paths_stay_consistent Samples.disk "/X/f"
                                      MoreSamples.unattachedOnFile eq_refl)
               [Samples.renamedAway; Samples.changedG]).
Defined.

(** ** More on the live native watchers *)

Section LiveNativeWatchersMore.

Import NativeWatcher.

Variable fs : FS.
Variable binding : Binding.

(** X9: whatever has happened, every native watcher that [getWatchedPaths]
    lists is running and is filed in [INSTANCES] under the handle the
    backend gave it. *)
Theorem live_native_watchers_are_running (ops : list Op) (h : Z) (w : t) :
  In (h, w) (INSTANCES (run fs binding ops)) ->
  running w = true /\ handle w = Some h
  /\ In (normalizedPath w) (Main.getWatchedPaths (run fs binding ops)).
Proof.
  intros Hin.
  destruct (run_keeps fs binding ops) as [Hrun Hown].
  rewrite Forall_forall in Hrun, Hown.
  repeat split.
  - exact (Hrun (h, w) Hin).
  - exact (Hown (h, w) Hin).
  - unfold Main.getWatchedPaths. apply in_map_iff. exists (h, w). auto.
Qed.

(** X10: a subscription on a directory that already has a live native watcher
    changes nothing: no call to the backend, no new instance, the same
    [INSTANCES]. *)
Theorem second_subscription_shares_the_native_watcher
        (ops : list Op) (p : string) (optRecursive : bool) :
  In p (Main.getWatchedPaths (run fs binding ops)) ->
  step fs binding (run fs binding ops) (Acquire p optRecursive)
  = run fs binding ops.
Proof.
  intros Hin. set (st := run fs binding ops) in *.
  pose proof (run_keeps fs binding ops) as Hk. fold st in Hk.
  destruct (findInstance_listed (INSTANCES st) p Hin) as (h & w & Hfind & Hw).
  simpl. unfold findOrCreate. rewrite Hfind.
  rewrite (start_of_a_live_one fs binding st h w Hk Hw). reflexivity.
Qed.

Lemma mapGet_mapSet (m : list (Z * t)) (k : Z) (v : t) :
  mapGet (mapSet m k v) k = Some v.
Proof.
  unfold mapGet. induction m as [|[k' v'] m IH]; simpl.
  - rewrite Z.eqb_refl. reflexivity.
  - destruct (Z.eqb k' k) eqn:E; simpl.
    + rewrite Z.eqb_refl. reflexivity.
    + rewrite E. exact IH.
Qed.

Lemma mapDelete_mapSet_fresh (m : list (Z * t)) (k : Z) (v : t) :
  ~ In k (map fst m) -> mapDelete (mapSet m k v) k = m.
Proof.
  unfold mapDelete. induction m as [|[k' v'] m IH]; simpl; intros Hfresh.
  - rewrite Z.eqb_refl. reflexivity.
  - destruct (Z.eqb k' k) eqn:E.
    + apply Z.eqb_eq in E. exfalso. apply Hfresh. left. exact E.
    + simpl. rewrite E. simpl. rewrite IH; [reflexivity|].
      intros Hin. apply Hfresh. right. exact Hin.
Qed.

Lemma mapGet_mapDelete (m : list (Z * t)) (k : Z) :
  mapGet (mapDelete m k) k = None.
Proof.
  unfold mapGet, mapDelete. induction m as [|[k' v'] m IH]; simpl; [reflexivity|].
  destruct (Z.eqb k' k) eqn:E; simpl; [exact IH|]. rewrite E. exact IH.
Qed.

(** X11: starting a native watcher on a directory that has none, under a handle
    that is not in use, and stopping it again gives back the [INSTANCES] of
    before: [getWatchedPaths] and [getNativeWatcherCount] are what they
    were. *)
Theorem start_then_stop_restores_the_instances
        (st : State) (p : string) (optRecursive : bool) (h : Z) :
  ~ In p (livePaths st) ->
  existsSync fs p = true ->
  binding (bindingCalls st) p optRecursive = Some h ->
  ~ In h (map fst (INSTANCES st)) ->
  let started := step fs binding st (Acquire p optRecursive) in
  In p (Main.getWatchedPaths started)
  /\ Main.getNativeWatcherCount started = S (Main.getNativeWatcherCount st)
  /\ INSTANCES (step fs binding started (Release h)) = INSTANCES st.
Proof.
  intros Hnot Hex Hb Hfresh started.
  assert (Hfind : findInstance (INSTANCES st) p = None).
  { destruct (findInstance (INSTANCES st) p) as [w|] eqn:E; [|reflexivity].
    apply findInstance_some in E. destruct E as [Hp [h' Hin]].
    exfalso. apply Hnot. unfold livePaths. apply in_map_iff.
    exists (h', w). split; [exact Hp | exact Hin]. }
  assert (Hst : INSTANCES started
                = mapSet (INSTANCES st) h
                         {| id := NativeWatcherId st; normalizedPath := p;
                            recursive := optRecursive; running := true;
                            handle := Some h |}).
  { unfold started. simpl. unfold findOrCreate. rewrite Hfind.
    unfold start. simpl. rewrite Hex. simpl. rewrite Hb. reflexivity. }
  set (w0 := {| id := NativeWatcherId st; normalizedPath := p;
                 recursive := optRecursive; running := true;
                 handle := Some h |}) in *.
  repeat split.
  - unfold Main.getWatchedPaths. rewrite Hst. apply in_map_iff.
    exists (h, w0). split; [reflexivity|].
    clear - Hfresh. induction (INSTANCES st) as [|[k v] m IH]; simpl.
    + left. reflexivity.
    + destruct (Z.eqb k h) eqn:E.
      * left. reflexivity.
      * right. apply IH. intros Hin. apply Hfresh. right. exact Hin.
  - unfold Main.getNativeWatcherCount. rewrite Hst.
    clear - Hfresh. induction (INSTANCES st) as [|[k v] m IH]; simpl.
    + reflexivity.
    + destruct (Z.eqb k h) eqn:E.
      * apply Z.eqb_eq in E. exfalso. apply Hfresh. left. exact E.
      * simpl. rewrite IH; [reflexivity|].
        intros Hin. apply Hfresh. right. exact Hin.
  - simpl. rewrite Hst, mapGet_mapSet. simpl.
    apply mapDelete_mapSet_fresh. exact Hfresh.
Qed.

(** X12: once a native watcher has been stopped, an event that the backend still
    sends for its handle is dropped by [DEFAULT_CALLBACK]. *)
Theorem stray_events_of_a_stopped_watcher_are_dropped
        (ops : list Op) (h : Z) (name : Action) (filePath oldFilePath : string) :
  Main.DEFAULT_CALLBACK (step fs binding (run fs binding ops) (Release h))
                        name h filePath oldFilePath
  = None.
Proof.
  unfold Main.DEFAULT_CALLBACK. simpl.
  destruct (mapGet (INSTANCES (run fs binding ops)) h) as [w|] eqn:Hget.
  - assert (Hin : In (h, w) (INSTANCES (run fs binding ops))).
    { unfold mapGet in Hget.
      destruct (find (fun kv => Z.eqb (fst kv) h)
                     (INSTANCES (run fs binding ops))) as [[k v]|] eqn:Hf;
        [|discriminate].
      inversion Hget; subst. apply find_some in Hf. destruct Hf as [Hin Hk].
      simpl in Hk. apply Z.eqb_eq in Hk. subst. exact Hin. }
    destruct (run_keeps fs binding ops) as [_ Hown].
    pose proof (proj1 (Forall_forall _ _) Hown (h, w) Hin) as Hh.
    simpl in Hh |- *. rewrite Hh, mapGet_mapDelete. reflexivity.
  - rewrite Hget. reflexivity.
Qed.

End LiveNativeWatchersMore.

(** Sample runs of the native watchers. *)

Lemma live_native_watchers_are_running_witness :
  In (2%Z, MoreSamples.nativeOnY)
     (NativeWatcher.INSTANCES
        (NativeWatcher.run Samples.disk Samples.counting Samples.acquisitions))
  /\ NativeWatcher.running MoreSamples.nativeOnY = true
  /\ NativeWatcher.handle MoreSamples.nativeOnY = Some 2%Z
  /\ In "/Y"
        (Main.getWatchedPaths
           (NativeWatcher.run Samples.disk Samples.counting
                              Samples.acquisitions)).
Proof.
  split; [left; reflexivity|].
  exact (live_native_watchers_are_running
           Samples.disk Samples.counting Samples.acquisitions 2%Z
           MoreSamples.nativeOnY (or_introl eq_refl)).
Defined.

Lemma second_subscription_shares_the_native_watcher_witness :
  NativeWatcher.step Samples.disk Samples.counting
    (NativeWatcher.run Samples.disk Samples.counting Samples.acquisitions)
    (NativeWatcher.Acquire "/Y" false)
  = NativeWatcher.run Samples.disk Samples.counting Samples.acquisitions.
Proof.
  exact (second_subscription_shares_the_native_watcher
           Samples.disk Samples.counting Samples.acquisitions "/Y" false
           (or_introl eq_refl)).
Defined.

Lemma start_then_stop_restores_the_instances_witness :
  In "/X"
     (Main.getWatchedPaths
        (NativeWatcher.step Samples.disk Samples.counting NativeWatcher.initial
                            (NativeWatcher.Acquire "/X" true)))
  /\ Main.getNativeWatcherCount
       (NativeWatcher.step Samples.disk Samples.counting NativeWatcher.initial
                           (NativeWatcher.Acquire "/X" true))
     = 1
  /\ NativeWatcher.INSTANCES
       (NativeWatcher.step Samples.disk Samples.counting
          (NativeWatcher.step Samples.disk Samples.counting
                              NativeWatcher.initial
                              (NativeWatcher.Acquire "/X" true))
          (NativeWatcher.Release 1))
     = [].
Proof.
  exact (start_then_stop_restores_the_instances
           Samples.disk Samples.counting NativeWatcher.initial "/X" true 1%Z
           (fun H => H) eq_refl eq_refl (fun H => H)).
Defined.

(** ** More on the registry *)

Section RegistryMore.

Import Registry.
Local Open Scope list_scope.

(** *** Paths and segments *)

Lemma splitAux_noSlash (s cur : string) :
  Shapes.noSlash s = true -> NodePath.splitAux cur s = [(cur ++ s)%string].
Proof.
  revert cur. induction s as [|c s IH]; intros cur; simpl.
  - intros _. f_equal. induction cur as [|x cur IHc]; simpl; congruence.
  - intros H. apply andb_prop in H. destruct H as [Hc Hs].
    apply negb_true_iff in Hc. rewrite Hc. rewrite (IH _ Hs).
    rewrite append_assoc. reflexivity.
Qed.

Lemma splitAux_segment (a b cur : string) :
  Shapes.noSlash a = true ->
  NodePath.splitAux cur (a ++ String NodePath.slash b)%string
  = (cur ++ a)%string :: NodePath.splitAux "" b.
Proof.
  revert cur. induction a as [|c a IH]; intros cur; simpl.
  - intros _. f_equal. induction cur as [|x cur IHc]; simpl; congruence.
  - intros H. apply andb_prop in H. destruct H as [Hc Ha].
    apply negb_true_iff in Hc. rewrite Hc, (IH _ Ha).
    rewrite append_assoc. reflexivity.
Qed.

Lemma split_joinSep (segs : list string) :
  segs <> [] ->
  forallb Shapes.noSlash segs = true ->
  NodePath.split (NodePath.joinSep segs) = segs.
Proof.
  unfold NodePath.split.
  induction segs as [|x segs IH]; [contradiction|].
  intros _ H. simpl in H. apply andb_prop in H. destruct H as [Hx Hs].
  destruct segs as [|y segs].
  - simpl. apply splitAux_noSlash. exact Hx.
  - change (NodePath.joinSep (x :: y :: segs))
      with (x ++ String NodePath.slash (NodePath.joinSep (y :: segs)))%string.
    rewrite splitAux_segment by exact Hx. simpl append.
    rewrite IH; [reflexivity | discriminate | exact Hs].
Qed.

Lemma cleanSegment_spec (s : string) :
  Shapes.cleanSegment s = true ->
  String.eqb s "" = false /\ Shapes.noSlash s = true
  /\ String.eqb s "." = false /\ String.eqb s ".." = false.
Proof.
  unfold Shapes.cleanSegment. intros H.
  repeat (apply andb_prop in H; destruct H as [H ?]).
  repeat split; try (apply negb_true_iff; assumption); assumption.
Qed.

Lemma normalizeSegments_clean (allow : bool) (segs acc : list string) :
  forallb Shapes.cleanSegment segs = true ->
  NodePath.normalizeSegments allow acc segs = rev acc ++ segs.
Proof.
  revert acc. induction segs as [|s segs IH]; intros acc H; simpl.
  - rewrite app_nil_r. reflexivity.
  - simpl in H. apply andb_prop in H. destruct H as [Hs Hrest].
    destruct (cleanSegment_spec s Hs) as (He & _ & Hd & Hdd).
    rewrite He, Hd, Hdd. simpl. rewrite (IH _ Hrest). simpl.
    rewrite <- app_assoc. reflexivity.
Qed.

Lemma clean_noSlash (segs : list string) :
  forallb Shapes.cleanSegment segs = true -> forallb Shapes.noSlash segs = true.
Proof.
  induction segs as [|s segs IH]; simpl; [reflexivity|].
  intros H. apply andb_prop in H. destruct H as [Hs Hrest].
  destruct (cleanSegment_spec s Hs) as (_ & Hn & _ & _).
  rewrite Hn, (IH Hrest). reflexivity.
Qed.

Lemma filter_nonEmpty_clean (segs : list string) :
  forallb Shapes.cleanSegment segs = true ->
  filter (fun s => negb (String.eqb s "")) segs = segs.
Proof.
  induction segs as [|s segs IH]; simpl; [reflexivity|].
  intros H. apply andb_prop in H. destruct H as [Hs Hrest].
  destruct (cleanSegment_spec s Hs) as (He & _ & _ & _).
  rewrite He. simpl. rewrite (IH Hrest). reflexivity.
Qed.

Lemma lastChar_append (a b : string) :
  b <> ""%string -> NodePath.lastChar (a ++ b)%string = NodePath.lastChar b.
Proof.
  intros Hb. induction a as [|c a IH]; simpl; [reflexivity|].
  rewrite IH. destruct (a ++ b)%string eqn:E; [|reflexivity].
  destruct a; simpl in E; [contradiction | discriminate].
Qed.

Lemma lastChar_noSlash (s : string) (c : ascii) :
  Shapes.noSlash s = true -> NodePath.lastChar s = Some c ->
  NodePath.is_slash c = false.
Proof.
  induction s as [|x s IH]; simpl; [discriminate|].
  intros H. apply andb_prop in H. destruct H as [Hx Hs].
  destruct s as [|y s].
  - intros E. inversion E; subst. apply negb_true_iff. exact Hx.
  - intros E. exact (IH Hs E).
Qed.

(** The joined form of clean segments: not empty, not absolute, without
    trailing separator. *)
Lemma joinSep_clean (s : string) (segs : list string) :
  forallb Shapes.cleanSegment (s :: segs) = true ->
  exists c r, NodePath.joinSep (s :: segs) = String c r
              /\ NodePath.is_slash c = false
              /\ NodePath.endsWithSep (NodePath.joinSep (s :: segs)) = false.
Proof.
  revert s. induction segs as [|y segs IH]; intros s H.
  - simpl in H. rewrite andb_true_r in H.
    destruct (cleanSegment_spec s H) as (He & Hn & _ & _).
    destruct s as [|c r]; [discriminate|]. exists c, r. simpl.
    simpl in Hn. apply andb_prop in Hn. destruct Hn as [Hc Hr].
    split; [reflexivity|]. split; [apply negb_true_iff; exact Hc|].
    unfold NodePath.endsWithSep.
    destruct (NodePath.lastChar (String c r)) as [l|] eqn:El; [|reflexivity].
    apply (lastChar_noSlash (String c r)); [|exact El].
    simpl. rewrite Hc, Hr. reflexivity.
  - simpl in H. apply andb_prop in H. destruct H as [Hs Hrest].
    destruct (cleanSegment_spec s Hs) as (He & Hn & _ & _).
    destruct (IH y Hrest) as (c' & r' & Hj & _ & Hend).
    change (NodePath.joinSep (s :: y :: segs))
      with (s ++ String NodePath.slash (NodePath.joinSep (y :: segs)))%string.
    destruct s as [|c r]; [discriminate|]. simpl in Hn.
    apply andb_prop in Hn. destruct Hn as [Hc Hr].
    exists c, (r ++ String NodePath.slash (NodePath.joinSep (y :: segs)))%string.
    split; [reflexivity|]. split; [apply negb_true_iff; exact Hc|].
    unfold NodePath.endsWithSep in *.
    replace (String c r ++ String NodePath.slash (NodePath.joinSep (y :: segs)))%string
      with ((String c r ++ "/") ++ NodePath.joinSep (y :: segs))%string
      by (rewrite append_assoc; reflexivity).
    rewrite lastChar_append; [exact Hend | rewrite Hj; discriminate].
Qed.

Lemma normalize_clean (s : string) (segs : list string) :
  forallb Shapes.cleanSegment (s :: segs) = true ->
  NodePath.normalize (NodePath.joinSep (s :: segs)) = NodePath.joinSep (s :: segs).
Proof.
  intros H. destruct (joinSep_clean s segs H) as (c & r & Hj & Hc & Hend).
  assert (Hsp : NodePath.split (NodePath.joinSep (s :: segs)) = s :: segs)
    by (apply split_joinSep; [discriminate | apply clean_noSlash; exact H]).
  pose proof (normalizeSegments_clean true (s :: segs) [] H) as Hn.
  change (rev [] ++ s :: segs) with (s :: segs) in Hn.
  remember (NodePath.joinSep (s :: segs)) as p eqn:Hp.
  unfold NodePath.normalize, NodePath.normalizeString.
  assert (Habs : NodePath.isAbsolute p = false) by (rewrite Hj; exact Hc).
  rewrite Hsp, Hend, Habs. simpl negb. rewrite Hn, <- Hp, Hj. reflexivity.
Qed.

Lemma normalize_rooted (s : string) (segs : list string) :
  forallb Shapes.cleanSegment (s :: segs) = true ->
  NodePath.normalize (String "/" (String "/" (NodePath.joinSep (s :: segs))))
  = String "/" (NodePath.joinSep (s :: segs)).
Proof.
  intros H. destruct (joinSep_clean s segs H) as (c & r & Hj & Hc & Hend).
  assert (Hsp : NodePath.split (NodePath.joinSep (s :: segs)) = s :: segs)
    by (apply split_joinSep; [discriminate | apply clean_noSlash; exact H]).
  pose proof (normalizeSegments_clean false (s :: segs) [] H) as Hn.
  change (rev [] ++ s :: segs) with (s :: segs) in Hn.
  remember (NodePath.joinSep (s :: segs)) as p eqn:Hp.
  assert (Hsplit : NodePath.split (String "/" (String "/" p))
                   = ""%string :: ""%string :: s :: segs).
  { unfold NodePath.split in *. simpl NodePath.splitAux. rewrite Hsp.
    reflexivity. }
  assert (Hlast : NodePath.endsWithSep (String "/" (String "/" p)) = false).
  { unfold NodePath.endsWithSep in *.
    change (String "/" (String "/" p)) with ("//" ++ p)%string.
    rewrite lastChar_append; [exact Hend | rewrite Hj; discriminate]. }
  unfold NodePath.normalize, NodePath.normalizeString.
  rewrite Hsplit, Hlast.
  change (NodePath.normalizeSegments
            (negb (NodePath.isAbsolute (String "/" (String "/" p)))) []
            (""%string :: ""%string :: s :: segs))
    with (NodePath.normalizeSegments false [] (s :: segs)).
  rewrite Hn, <- Hp, Hj. reflexivity.
Qed.

Lemma join_clean (l : list string) :
  l <> [] -> forallb Shapes.cleanSegment l = true ->
  NodePath.join l = NodePath.joinSep l.
Proof.
  intros Hne H. unfold NodePath.join.
  rewrite filter_nonEmpty_clean by exact H.
  destruct l as [|s segs]; [contradiction|]. apply normalize_clean. exact H.
Qed.

Lemma join_rooted (p : string) :
  p <> ""%string ->
  NodePath.join [NodePath.path_sep; p]
  = NodePath.normalize (String "/" (String "/" p)).
Proof.
  intros Hp. unfold NodePath.join. simpl filter.
  destruct (String.eqb p "") eqn:E.
  - apply String.eqb_eq in E. contradiction.
  - reflexivity.
Qed.

Lemma absolute_unfold (parts : list string) :
  absolute parts
  = if NodePath.isAbsolute (NodePath.join parts) then NodePath.join parts
    else NodePath.join [NodePath.path_sep; NodePath.join parts].
Proof. reflexivity. Qed.

(** *** The trie *)

Lemma leaves_undefined_slot (k : option string) (p : string) (r : Children)
      (prefix : list string) :
  leaves (RegistryNode k ((p, None) :: r)) prefix = None.
Proof. reflexivity. Qed.

Lemma leaves_slot (k : option string) (p : string) (c : Node) (r : Children)
      (prefix : list string) :
  leaves (RegistryNode k ((p, Some c) :: r)) prefix
  = match leaves c (prefix ++ [p]), leaves (RegistryNode k r) prefix with
    | Some here, Some there => Some (here ++ there)
    | _, _ => None
    end.
Proof. reflexivity. Qed.

Lemma leaves_throws_on_undefined (k : option string) (ch : Children)
      (p : string) (prefix : list string) :
  In (p, None) ch -> leaves (RegistryNode k ch) prefix = None.
Proof.
  induction ch as [|[q slot] ch IH]; intros Hin; [destruct Hin|].
  destruct slot as [c|]; [|reflexivity].
  destruct Hin as [E | Hin]; [discriminate|].
  rewrite leaves_slot, (IH Hin). destruct (leaves c _); reflexivity.
Qed.

Lemma leaves_throws_below (k : option string) (ch : Children)
      (p : string) (c : Node) (prefix : list string) :
  In (p, Some c) ch -> leaves c (prefix ++ [p]) = None ->
  leaves (RegistryNode k ch) prefix = None.
Proof.
  induction ch as [|[q slot] ch IH]; intros Hin Hc; [destruct Hin|].
  destruct slot as [c'|]; [|reflexivity].
  rewrite leaves_slot.
  destruct Hin as [E | Hin].
  - inversion E; subst. rewrite Hc. reflexivity.
  - rewrite (IH Hin Hc). destruct (leaves c' _); reflexivity.
Qed.

Lemma getChild_node (ch : Children) (k : string) (c : Node) :
  getChild ch k = ReadNode c -> own ch k = Some (Some c).
Proof.
  unfold getChild. destruct (own ch k) as [[c'|]|]; try discriminate.
  - intros H. inversion H. reflexivity.
  - destruct (onObjectPrototype k); discriminate.
Qed.

Lemma getChild_plain (ch : Children) (k : string) :
  own ch k = None -> onObjectPrototype k = false ->
  getChild ch k = ReadUndefined.
Proof. unfold getChild. intros -> ->. reflexivity. Qed.

Lemma own_replaceKey (ch : Children) (k : string) (v : option Node) :
  own ch k <> None -> own (replaceKey ch k v) k = Some v.
Proof.
  induction ch as [|[q w] ch IH]; simpl; [congruence|].
  destruct (String.eqb q k) eqn:E; simpl.
  - rewrite String.eqb_refl. reflexivity.
  - rewrite E. exact IH.
Qed.

Lemma own_insertKey (ch : Children) (k : string) (v : option Node) :
  own ch k = None -> own (insertKey ch k v) k = Some v.
Proof.
  induction ch as [|[q w] ch IH]; simpl.
  - rewrite String.eqb_refl. reflexivity.
  - destruct (String.eqb q k) eqn:E; [discriminate|]. intros H.
    destruct (listedBefore k q); simpl.
    + rewrite String.eqb_refl. reflexivity.
    + rewrite E. exact (IH H).
Qed.

Lemma own_setChild (ch : Children) (k : string) (v : option Node) :
  own (setChild ch k v) k = Some v.
Proof.
  unfold setChild. destruct (own ch k) eqn:E.
  - apply own_replaceKey. congruence.
  - apply own_insertKey. exact E.
Qed.

Lemma getChild_setChild (ch : Children) (k : string) (c : Node) :
  getChild (setChild ch k (Some c)) k = ReadNode c.
Proof. unfold getChild. rewrite own_setChild. reflexivity. Qed.

Lemma getChild_setChild_undefined (ch : Children) (k : string) :
  getChild (setChild ch k None) k = ReadUndefined.
Proof. unfold getChild. rewrite own_setChild. reflexivity. Qed.

Lemma in_replaceKey (ch : Children) (k : string) (v : option Node) :
  own ch k <> None -> In (k, v) (replaceKey ch k v).
Proof.
  induction ch as [|[q w] ch IH]; simpl; [congruence|].
  destruct (String.eqb q k); [left; reflexivity | right; auto].
Qed.

Lemma in_insertKey (ch : Children) (k : string) (v : option Node) :
  In (k, v) (insertKey ch k v).
Proof.
  induction ch as [|[q w] ch IH]; simpl; [left; reflexivity|].
  destruct (listedBefore k q); [left; reflexivity | right; exact IH].
Qed.

Lemma in_setChild (ch : Children) (k : string) (v : option Node) :
  In (k, v) (setChild ch k v).
Proof.
  unfold setChild. destruct (own ch k) eqn:E.
  - apply in_replaceKey. congruence.
  - apply in_insertKey.
Qed.

Lemma replaceKey_replaceKey (ch : Children) (k : string) (v v' : option Node) :
  replaceKey (replaceKey ch k v) k v' = replaceKey ch k v'.
Proof.
  induction ch as [|[q w] ch IH]; simpl; [reflexivity|].
  destruct (String.eqb q k) eqn:E; simpl.
  - rewrite String.eqb_refl. reflexivity.
  - rewrite E, IH. reflexivity.
Qed.

Lemma replaceKey_insertKey (ch : Children) (k : string) (v v' : option Node) :
  own ch k = None -> replaceKey (insertKey ch k v) k v' = insertKey ch k v'.
Proof.
  induction ch as [|[q w] ch IH]; simpl.
  - rewrite String.eqb_refl. reflexivity.
  - destruct (String.eqb q k) eqn:E; [discriminate|]. intros H.
    destruct (listedBefore k q); simpl.
    + rewrite String.eqb_refl. reflexivity.
    + rewrite E, (IH H). reflexivity.
Qed.

Lemma setChild_own (ch : Children) (k : string) (v o : option Node) :
  own ch k = Some o -> setChild ch k v = replaceKey ch k v.
Proof. unfold setChild. intros ->. reflexivity. Qed.

Lemma setChild_setChild (ch : Children) (k : string) (v v' : option Node) :
  setChild (setChild ch k v) k v' = setChild ch k v'.
Proof.
  rewrite (setChild_own (setChild ch k v) k v' v (own_setChild ch k v)).
  unfold setChild. destruct (own ch k) eqn:E.
  - apply replaceKey_replaceKey.
  - apply replaceKey_insertKey. exact E.
Qed.

Lemma replaceKey_same (ch : Children) (k : string) (v : option Node) :
  own ch k = Some v -> replaceKey ch k v = ch.
Proof.
  induction ch as [|[q w] ch IH]; simpl; [reflexivity|].
  destruct (String.eqb q k) eqn:E.
  - intros H. inversion H; subst. apply String.eqb_eq in E. subst.
    reflexivity.
  - intros H. rewrite (IH H). reflexivity.
Qed.

Lemma setChild_same (ch : Children) (k : string) (c : Node) :
  getChild ch k = ReadNode c -> setChild ch k (Some c) = ch.
Proof.
  intros H. apply getChild_node in H.
  rewrite (setChild_own ch k (Some c) (Some c) H). apply replaceKey_same.
  exact H.
Qed.

Lemma setChild_new (ch : Children) (k : string) (v : option Node) :
  own ch k = None -> setChild ch k v = insertKey ch k v.
Proof. unfold setChild. intros ->. reflexivity. Qed.

Lemma deleteChild_absent (ch : Children) (k : string) :
  own ch k = None -> deleteChild ch k = ch.
Proof.
  unfold deleteChild. induction ch as [|[q w] ch IH]; simpl; [reflexivity|].
  destruct (String.eqb q k) eqn:E; [discriminate|]. intros H. simpl.
  rewrite (IH H). reflexivity.
Qed.

Lemma deleteChild_new (ch : Children) (k : string) (v : option Node) :
  own ch k = None -> deleteChild (insertKey ch k v) k = ch.
Proof.
  induction ch as [|[q w] ch IH]; simpl.
  - intros _. unfold deleteChild. simpl. rewrite String.eqb_refl. reflexivity.
  - destruct (String.eqb q k) eqn:E; [discriminate|]. intros H.
    destruct (listedBefore k q).
    + unfold deleteChild. simpl. rewrite String.eqb_refl, E. simpl.
      f_equal. apply (deleteChild_absent ch k H).
    + unfold deleteChild in *. simpl. rewrite E. simpl.
      rewrite (IH H). reflexivity.
Qed.

Lemma getChild_nonempty (ch : Children) (k : string) (c : Node) :
  getChild ch k = ReadNode c -> Nat.eqb (List.length ch) 0 = false.
Proof.
  destruct ch; [|reflexivity]. unfold getChild. simpl.
  destruct (onObjectPrototype k); discriminate.
Qed.

Lemma plainKeys_cons (s : string) (rest : list string) :
  Shapes.plainKeys (s :: rest) = true ->
  onObjectPrototype s = false /\ Shapes.plainKeys rest = true.
Proof.
  unfold Shapes.plainKeys. simpl. intros H. apply andb_prop in H.
  destruct H as [Hs Hrest]. apply negb_true_iff in Hs. split; assumption.
Qed.

(** A leaf put below an empty node is the only thing below it: removing it
    removes the whole chain. *)
Lemma remove_chain (w : WatcherNode) (rest : list string) :
  childPaths w = [] ->
  Shapes.plainKeys rest = true ->
  forall k, exists X,
    insert rest (RegistryNode k []) (RegistryWatcherNode w) = Some (Some X)
    /\ remove rest X = Some (Null, []).
Proof.
  intros Hw. induction rest as [|s rest IH]; intros Hplain k.
  - exists (RegistryWatcherNode w). split; [reflexivity|].
    simpl. unfold removeWatcherNode. rewrite Hw. reflexivity.
  - apply plainKeys_cons in Hplain. destruct Hplain as [Hs Hrest].
    destruct (IH Hrest (Some s)) as (X & HX & HR).
    exists (RegistryNode k [(s, Some X)]). split.
    + cbn [insert]. rewrite (getChild_plain [] s eq_refl Hs), HX. reflexivity.
    + cbn [remove]. unfold getChild. simpl own. rewrite String.eqb_refl, HR.
      unfold deleteChild. simpl. rewrite String.eqb_refl. reflexivity.
Qed.

Lemma leavesTheTrie_missing (pathSegments : list string) :
  forall n anc,
    Shapes.plainKeys pathSegments = true ->
    Shapes.leavesTheTrie pathSegments n = true ->
    exists lastParent anc',
      lookup pathSegments n anc = Some (MissingResult lastParent anc').
Proof.
  induction pathSegments as [|s rest IH]; intros n anc Hplain H.
  - destruct n; discriminate.
  - destruct n as [k ch | w]; [|discriminate].
    apply plainKeys_cons in Hplain. destruct Hplain as [Hs Hrest].
    cbn [Shapes.leavesTheTrie] in H. cbn [lookup]. unfold getChild.
    destruct (own ch s) as [[[k' ch' | w']|]|] eqn:E; try discriminate.
    + apply andb_prop in H. destruct H as [_ H].
      exact (IH _ (k :: anc) Hrest H).
    + rewrite Hs. eauto.
Qed.

Lemma insert_then_remove (pathSegments : list string) (w : WatcherNode) :
  childPaths w = [] ->
  forall k ch,
    Shapes.plainKeys pathSegments = true ->
    Shapes.leavesTheTrie pathSegments (RegistryNode k ch) = true ->
    exists n',
      insert pathSegments (RegistryNode k ch) (RegistryWatcherNode w)
      = Some (Some n')
      /\ remove pathSegments n'
         = Some (if Nat.eqb (List.length ch) 0 then Null
                 else Kept (Some (RegistryNode k ch)), []).
Proof.
  intros Hw. induction pathSegments as [|s rest IH]; intros k ch Hplain H.
  - discriminate.
  - apply plainKeys_cons in Hplain. destruct Hplain as [Hs Hrest].
    cbn [Shapes.leavesTheTrie] in H.
    destruct (own ch s) as [[[k' ch' | w']|]|] eqn:E; try discriminate.
    + assert (Eg : getChild ch s = ReadNode (RegistryNode k' ch'))
        by (unfold getChild; rewrite E; reflexivity).
      apply andb_prop in H. destruct H as [Hne H].
      apply negb_true_iff in Hne.
      destruct (IH k' ch' Hrest H) as (c'' & Hins & Hrem).
      rewrite Hne in Hrem.
      exists (RegistryNode k (setChild ch s (Some c''))). split.
      * cbn [insert]. rewrite Eg, Hins. reflexivity.
      * cbn [remove]. rewrite getChild_setChild, Hrem.
        rewrite setChild_setChild, (setChild_same _ _ _ Eg).
        rewrite (getChild_nonempty _ _ _ Eg). reflexivity.
    + destruct (remove_chain w rest Hw Hrest (Some s)) as (X & HX & HR).
      exists (RegistryNode k (setChild ch s (Some X))). split.
      * cbn [insert]. rewrite (getChild_plain ch s E Hs), HX. reflexivity.
      * cbn [remove]. rewrite getChild_setChild, HR.
        rewrite (setChild_new _ _ _ E), (deleteChild_new _ _ _ E).
        reflexivity.
Qed.

Lemma handOver_neither (ls : list (WatcherNode * list string)) (a b : string) :
  filter Shapes.isAttach (handOver ls a b) = []
  /\ filter Shapes.isCreate (handOver ls a b) = [].
Proof.
  unfold handOver. induction ls as [|l ls [IH1 IH2]]; simpl; auto.
Qed.

(** X13: [absolute] puts the separator in front of the joined segments, and
    [attach]'s splitting of a directory gives the segments back: the
    native watcher of a leaf is created for the directory at which the
    leaf sits in the trie. *)
Theorem absolute_and_segments_round_trip (segments : list string) :
  forallb Shapes.cleanSegment segments = true ->
  absolute segments = ("/" ++ NodePath.joinSep segments)%string
  /\ segmentsOf (absolute segments) = segments.
Proof.
  intros H. destruct segments as [|s segs]; [split; reflexivity|].
  destruct (joinSep_clean s segs H) as (c & r & Hj & Hc & Hend).
  assert (Hsp : NodePath.split (NodePath.joinSep (s :: segs)) = s :: segs)
    by (apply split_joinSep; [discriminate | apply clean_noSlash; exact H]).
  pose proof (join_clean (s :: segs) ltac:(discriminate) H) as Hjoin.
  pose proof (normalize_rooted s segs H) as Hrooted.
  pose proof (filter_nonEmpty_clean (s :: segs) H) as Hfilter.
  remember (s :: segs) as l eqn:Hl.
  remember (NodePath.joinSep l) as p eqn:Hp.
  assert (Habs : absolute l = String "/" p).
  { rewrite absolute_unfold, Hjoin, Hj. simpl NodePath.isAbsolute.
    rewrite Hc, <- Hj. rewrite (join_rooted p) by (rewrite Hj; discriminate).
    exact Hrooted. }
  split; [exact Habs|]. rewrite Habs.
  unfold segmentsOf, NodePath.split in *. simpl NodePath.splitAux.
  rewrite Hsp. simpl filter at 1. exact Hfilter.
Qed.

Lemma attachToNew_calls (tree tree' : RegistryTree) (r : Node)
      (pathSegments : list string)
      (attachToNative : Native -> string -> list Effect)
      (childPaths : list (list string)) (effects : list Effect) :
  attachToNew tree r pathSegments attachToNative childPaths
  = Some (tree', effects) ->
  let absolutePath := absolute (basePathSegments tree ++ pathSegments) in
  effects = ECreateNative absolutePath :: attachToNative absolutePath absolutePath.
Proof.
  unfold attachToNew. destruct (insert _ _ _); [|discriminate].
  intros E. inversion E. reflexivity.
Qed.

Lemma attachToAncestor_calls (tree tree' : RegistryTree) (r : Node)
      (attachToNative : Native -> string -> list Effect)
      (absolutePaths : list string)
      (childPaths : list (list string)) (effects : list Effect) :
  attachToAncestor tree r attachToNative absolutePaths childPaths
  = Some (tree', effects) ->
  let ancestorAbsolutePath := absolute absolutePaths in
  effects = ECreateNative ancestorAbsolutePath
              :: attachToNative ancestorAbsolutePath ancestorAbsolutePath.
Proof.
  unfold attachToAncestor. destruct (insert _ _ _); [|discriminate].
  intros E. inversion E. reflexivity.
Qed.

(** X14: whatever the trie holds, a successful [attach] calls
    [attachToNative] exactly once, and creates at most one native watcher,
    which is then the one attached. *)
Theorem attach_attaches_exactly_once
        (tree tree' : RegistryTree) (normalizedDirectory : string)
        (effects : list Effect) :
  attach tree normalizedDirectory = Some (tree', effects) ->
  exists native nativePath,
    filter Shapes.isAttach effects = [EAttachToNative native nativePath]
    /\ (filter Shapes.isCreate effects = []
        \/ (filter Shapes.isCreate effects = [ECreateNative nativePath]
            /\ native = nativePath)).
Proof.
  unfold attach, add.
  set (ps := segmentsOf normalizedDirectory).
  set (cb := fun native nativePath => [EAttachToNative native nativePath]).
  assert (Hover : forall a ls b c,
             exists native nativePath,
               filter Shapes.isAttach
                      ((ECreateNative a :: cb a a) ++ handOver ls b c)
               = [EAttachToNative native nativePath]
               /\ (filter Shapes.isCreate
                          ((ECreateNative a :: cb a a) ++ handOver ls b c) = []
                   \/ (filter Shapes.isCreate
                              ((ECreateNative a :: cb a a) ++ handOver ls b c)
                       = [ECreateNative nativePath]
                       /\ native = nativePath))).
  { intros a ls b c. destruct (handOver_neither ls b c) as [H1 H2].
    exists a, a. rewrite !filter_app, H1, H2.
    split; [reflexivity | right; split; reflexivity]. }
  assert (Hplain : forall a,
             exists native nativePath,
               filter Shapes.isAttach (ECreateNative a :: cb a a)
               = [EAttachToNative native nativePath]
               /\ (filter Shapes.isCreate (ECreateNative a :: cb a a) = []
                   \/ (filter Shapes.isCreate (ECreateNative a :: cb a a)
                       = [ECreateNative nativePath]
                       /\ native = nativePath))).
  { intros a. exists a, a.
    split; [reflexivity | right; split; reflexivity]. }
  assert (Hnew : forall r cps,
             attachToNew tree r ps cb cps = Some (tree', effects) ->
             exists native nativePath,
               filter Shapes.isAttach effects = [EAttachToNative native nativePath]
               /\ (filter Shapes.isCreate effects = []
                   \/ (filter Shapes.isCreate effects = [ECreateNative nativePath]
                       /\ native = nativePath))).
  { intros r cps E. apply attachToNew_calls in E. cbv zeta in E. subst effects.
    apply Hplain. }
  destruct (root tree) as [r|]; [|discriminate].
  destruct (lookup ps r []) as [[parent remaining | children | lastParent anc]|];
    [| | |discriminate].
  - destruct (negb (reuseAncestorWatchers (treeOptions tree)));
      [apply Hnew|].
    intros E. inversion E; subst.
    do 2 eexists. split; [reflexivity | left; reflexivity].
  - destruct (attachToNew tree r ps cb (map snd children))
      as [[t e]|] eqn:Ha; [|discriminate].
    intros E. inversion E; subst. apply attachToNew_calls in Ha.
    cbv zeta in Ha. subst e. apply Hover.
  - destruct (negb (mergeWatchersWithCommonAncestors (treeOptions tree)));
      [apply Hnew|].
    destruct lastParent as [[k|] ch | w]; [|apply Hnew|discriminate].
    destruct (leaves (RegistryNode (Some k) ch) (basePathSegments tree))
      as [[|l ls]|]; [apply Hnew| |discriminate].
    destruct (_ >? _)%Z; [apply Hnew|].
    destruct (attachToAncestor tree r cb _ _) as [[t e]|] eqn:Ha;
      [|discriminate].
    intros E. inversion E; subst. apply attachToAncestor_calls in Ha.
    cbv zeta in Ha. subst e. apply Hover.
Qed.

(** X15: after a leaf has been inserted at a path that does not run below
    an existing leaf and has no segment named like a member of
    [Object.prototype], every lookup of that path or of a path below it
    ends at the new leaf, with the rest of the path as remainder. *)
Theorem lookup_finds_the_inserted_leaf (pathSegments : list string)
        (w : WatcherNode) :
  forall (n : Node) (anc : list (option string)),
    Shapes.plainKeys pathSegments = true ->
    (forall parent remaining,
        lookup pathSegments n anc = Some (ParentResult parent remaining) ->
        remaining = []) ->
    exists n',
      insert pathSegments n (RegistryWatcherNode w) = Some (Some n')
      /\ forall more anc',
          lookup (pathSegments ++ more) n' anc' = Some (ParentResult w more).
Proof.
  induction pathSegments as [|s rest IH]; intros n anc Hplain H.
  - exists (RegistryWatcherNode w). split; [destruct n; reflexivity|].
    intros more anc'. destruct more; reflexivity.
  - destruct n as [k ch | w0].
    2:{ specialize (H w0 (s :: rest) eq_refl). discriminate. }
    apply plainKeys_cons in Hplain. destruct Hplain as [Hs Hrest].
    cbn [lookup] in H.
    assert (Hchild : exists child,
               match getChild ch s with
               | ReadNode c => Some c
               | ReadUndefined => Some (RegistryNode (Some s) [])
               | ReadInherited => None
               end = Some child
               /\ forall parent remaining,
                   lookup rest child (k :: anc)
                   = Some (ParentResult parent remaining) ->
                   remaining = []).
    { unfold getChild in *. destruct (own ch s) as [[c|]|].
      - exists c. split; [reflexivity | exact H].
      - exists (RegistryNode (Some s) []). split; [reflexivity|].
        intros parent remaining E.
        destruct rest as [|t rest]; cbn [lookup] in E; [discriminate|].
        unfold getChild in E. simpl own in E.
        destruct (onObjectPrototype t); discriminate.
      - rewrite Hs. exists (RegistryNode (Some s) []). split; [reflexivity|].
        intros parent remaining E.
        destruct rest as [|t rest]; cbn [lookup] in E; [discriminate|].
        unfold getChild in E. simpl own in E.
        destruct (onObjectPrototype t); discriminate. }
    destruct Hchild as (child & Hread & Hc).
    destruct (IH child (k :: anc) Hrest Hc) as (c' & Hins & Hlook).
    exists (RegistryNode k (setChild ch s (Some c'))). split.
    + cbn [insert]. rewrite Hread, Hins. reflexivity.
    + intros more anc'. cbn [app lookup]. rewrite getChild_setChild.
      apply Hlook.
Qed.

(** A leaf inserted strictly below an existing leaf is lost together with
    that leaf. *)
Lemma insert_below_a_leaf (pathSegments : list string)
        (leaf : Node) :
  forall (k : option string) (ch : Children) (anc : list (option string))
         (prefix : list string) (parent : WatcherNode) (seg : string)
         (remaining : list string),
    lookup pathSegments (RegistryNode k ch) anc
    = Some (ParentResult parent (seg :: remaining)) ->
    exists n',
      insert pathSegments (RegistryNode k ch) leaf = Some (Some n')
      /\ (exists lastParent anc',
             lookup pathSegments n' anc = Some (MissingResult lastParent anc'))
      /\ leaves n' prefix = None.
Proof.
  induction pathSegments as [|s rest IH];
    intros k ch anc prefix parent seg remaining H.
  - cbn [lookup] in H.
    destruct (leaves (RegistryNode k ch) []); discriminate.
  - cbn [lookup] in H.
    destruct (getChild ch s) as [| |c] eqn:E; try discriminate.
    destruct c as [k' ch' | w0].
    + destruct (IH k' ch' (k :: anc) (prefix ++ [s]) parent seg remaining H)
        as (c' & Hins & (lp & anc' & Hlook) & Hleaves).
      exists (RegistryNode k (setChild ch s (Some c'))). split; [|split].
      * cbn [insert]. rewrite E, Hins. reflexivity.
      * cbn [lookup]. rewrite getChild_setChild. eauto.
      * eapply leaves_throws_below; [apply in_setChild | exact Hleaves].
    + assert (Hrest : rest = seg :: remaining)
        by (destruct rest; simpl in H; inversion H; reflexivity).
      subst rest.
      exists (RegistryNode k (setChild ch s None)). split; [|split].
      * cbn [insert]. rewrite E. reflexivity.
      * cbn [lookup]. rewrite getChild_setChild_undefined. eauto.
      * eapply leaves_throws_on_undefined. apply in_setChild.
Qed.

(** X16: detaching a directory that no leaf serves (nothing is watched
    there or above it), where the lookup of the directory does not throw,
    changes nothing and touches no native watcher; this includes a
    directory that only has watched directories below it. *)
Theorem detach_of_an_unserved_directory_is_a_no_op
        (tree : RegistryTree) (r : Node) (normalizedDirectory : string) :
  root tree = Some r ->
  lookup (segmentsOf normalizedDirectory) r [] <> None ->
  (forall parent remaining,
      lookup (segmentsOf normalizedDirectory) r []
      <> Some (ParentResult parent remaining)) ->
  detach tree normalizedDirectory = Some (tree, []).
Proof.
  intros Hroot Hreturns Hno. unfold detach, removeTree. rewrite Hroot.
  assert (Hrem : forall ps n anc,
             lookup ps n anc <> None ->
             (forall parent remaining,
                 lookup ps n anc <> Some (ParentResult parent remaining)) ->
             remove ps n = Some (Kept (Some n), [])).
  { induction ps as [|s rest IH]; intros n anc Hsome H.
    - destruct n as [k ch | w0]; [reflexivity|].
      exfalso. exact (H w0 [] eq_refl).
    - destruct n as [k ch | w0].
      2:{ exfalso. exact (H w0 (s :: rest) eq_refl). }
      cbn [lookup] in H, Hsome. cbn [remove].
      destruct (getChild ch s) as [| |c] eqn:E;
        [reflexivity | contradiction|].
      rewrite (IH c (k :: anc) Hsome H), (setChild_same _ _ _ E).
      rewrite (getChild_nonempty _ _ _ E). reflexivity. }
  rewrite (Hrem _ _ _ Hreturns Hno). destruct tree; simpl in *. subst.
  reflexivity.
Qed.

(** X17: with merging disabled (or in a registry that holds nothing), a
    subscription added at a path that leaves the trie at a new key, no
    segment of which is named like a member of [Object.prototype], is
    served by a native watcher of its own, and removing it gives back the
    registry as it was, without touching any native watcher. *)
Theorem add_then_remove_restores_the_registry
        (tree : RegistryTree) (ch : Children) (pathSegments : list string)
        (attachToNative : Native -> string -> list Effect) :
  root tree = Some (RegistryNode None ch) ->
  Shapes.plainKeys pathSegments = true ->
  Shapes.leavesTheTrie pathSegments (RegistryNode None ch) = true ->
  mergeWatchersWithCommonAncestors (treeOptions tree) = false \/ ch = [] ->
  exists tree',
    add tree pathSegments attachToNative
    = Some (tree',
            ECreateNative (absolute (basePathSegments tree ++ pathSegments))
              :: attachToNative
                   (absolute (basePathSegments tree ++ pathSegments))
                   (absolute (basePathSegments tree ++ pathSegments)))
    /\ removeTree tree' pathSegments = Some (tree, []).
Proof.
  intros Hroot Hplain Hleaves Hopt.
  set (leaf := newWatcherNode (absolute (basePathSegments tree ++ pathSegments))
                              (basePathSegments tree ++ pathSegments) []
                              (treeOptions tree)).
  destruct (insert_then_remove pathSegments leaf eq_refl None ch Hplain Hleaves)
    as (n' & Hins & Hrem).
  assert (Hadd : add tree pathSegments attachToNative
                 = attachToNew tree (RegistryNode None ch) pathSegments
                               attachToNative []).
  { unfold add. rewrite Hroot.
    destruct (leavesTheTrie_missing pathSegments _ [] Hplain Hleaves)
      as (lp & anc' & Hmiss).
    rewrite Hmiss.
    destruct Hopt as [Hopt | ->].
    - rewrite Hopt. reflexivity.
    - destruct (negb _); [reflexivity|].
      destruct pathSegments as [|s rest]; [discriminate|].
      cbn [lookup] in Hmiss. unfold getChild in Hmiss. simpl own in Hmiss.
      destruct (onObjectPrototype s); [discriminate|].
      inversion Hmiss; subst. reflexivity. }
  exists (withRoot tree (Some n')). split.
  - rewrite Hadd. unfold attachToNew. fold leaf. rewrite Hins. reflexivity.
  - unfold removeTree. simpl. rewrite Hrem.
    destruct tree as [base rt opts]; simpl in *. subst rt.
    destruct ch; reflexivity.
Qed.

(** X18: with [reuseAncestorWatchers] off (the setting on Linux and
    Windows), a subscription added strictly below a directory that has a
    leaf gets a native watcher of its own, but the trie loses both leaves:
    the slot of the existing leaf holds [undefined] afterwards, a lookup
    of the new path finds nothing, and collecting the leaves throws. *)
Theorem add_below_a_leaf_without_reuse
        (tree : RegistryTree) (k : option string) (ch : Children)
        (pathSegments : list string)
        (attachToNative : Native -> string -> list Effect)
        (parent : WatcherNode) (seg : string) (remaining : list string) :
  root tree = Some (RegistryNode k ch) ->
  reuseAncestorWatchers (treeOptions tree) = false ->
  lookup pathSegments (RegistryNode k ch) []
  = Some (ParentResult parent (seg :: remaining)) ->
  exists tree' n',
    add tree pathSegments attachToNative
    = Some (tree',
            ECreateNative (absolute (basePathSegments tree ++ pathSegments))
              :: attachToNative
                   (absolute (basePathSegments tree ++ pathSegments))
                   (absolute (basePathSegments tree ++ pathSegments)))
    /\ root tree' = Some n'
    /\ (exists lastParent anc,
           lookup pathSegments n' [] = Some (MissingResult lastParent anc))
    /\ forall prefix, leaves n' prefix = None.
Proof.
  intros Hroot Hreuse Hlook.
  set (leaf := RegistryWatcherNode
                 (newWatcherNode
                    (absolute (basePathSegments tree ++ pathSegments))
                    (basePathSegments tree ++ pathSegments) []
                    (treeOptions tree))).
  destruct (insert_below_a_leaf pathSegments leaf k ch [] [] parent seg
                                remaining Hlook)
    as (n' & Hins & Hmiss & _).
  exists (withRoot tree (Some n')), n'. repeat split.
  - unfold add. rewrite Hroot, Hlook, Hreuse. simpl negb. cbv iota.
    unfold attachToNew. fold leaf. rewrite Hins. reflexivity.
  - exact Hmiss.
  - intros prefix.
    destruct (insert_below_a_leaf pathSegments leaf k ch [] prefix parent seg
                                  remaining Hlook)
      as (n'' & Hins' & _ & Hleaves).
    rewrite Hins in Hins'. inversion Hins'; subst. exact Hleaves.
Qed.

End RegistryMore.

(** Sample runs of the registry. *)

Lemma absolute_and_segments_round_trip_witness :
  Registry.absolute ["X"; "a"] = "/X/a"
  /\ Registry.segmentsOf (Registry.absolute ["X"; "a"]) = ["X"; "a"].
Proof.
  exact (absolute_and_segments_round_trip ["X"; "a"] eq_refl).
Defined.

Lemma attach_attaches_exactly_once_witness :
  exists native nativePath,
    filter Shapes.isAttach
           [Registry.ECreateNative "/X/a"; Registry.EAttachToNative "/X/a" "/X/a"]
    = [Registry.EAttachToNative native nativePath]
    /\ (filter Shapes.isCreate
               [Registry.ECreateNative "/X/a";
                Registry.EAttachToNative "/X/a" "/X/a"] = []
        \/ (filter Shapes.isCreate
                   [Registry.ECreateNative "/X/a";
                    Registry.EAttachToNative "/X/a" "/X/a"]
            = [Registry.ECreateNative nativePath]
            /\ native = nativePath)).
Proof.
  exact (attach_attaches_exactly_once
           (Registry.newRegistry Registry.DEFAULT_OPTIONS)
           (Samples.registryWithA Registry.DEFAULT_OPTIONS) "/X/a"
           [Registry.ECreateNative "/X/a"; Registry.EAttachToNative "/X/a" "/X/a"]
           eq_refl).
Defined.

Lemma lookup_finds_the_inserted_leaf_witness :
  exists n',
    Registry.insert ["X"; "b"] (Samples.rootWithA Samples.noRelocation)
                    (Registry.RegistryWatcherNode MoreSamples.leafB)
    = Some (Some n')
    /\ forall more anc',
        Registry.lookup (["X"; "b"] ++ more) n' anc'
        = Some (Registry.ParentResult MoreSamples.leafB more).
Proof.
  exact (lookup_finds_the_inserted_leaf
           ["X"; "b"] MoreSamples.leafB (Samples.rootWithA Samples.noRelocation) []
           eq_refl ltac:(intros parent remaining E; discriminate E)).
Defined.

Lemma add_below_a_leaf_without_reuse_witness :
  exists tree' n',
    Registry.add (MoreSamples.registryWithX MoreSamples.withoutReuse) ["X"; "a"]
                 (fun native nativePath =>
                    [Registry.EAttachToNative native nativePath])
    = Some (tree',
            [Registry.ECreateNative (Registry.absolute ([] ++ ["X"; "a"]));
             Registry.EAttachToNative (Registry.absolute ([] ++ ["X"; "a"]))
                                      (Registry.absolute ([] ++ ["X"; "a"]))])
    /\ Registry.root tree' = Some n'
    /\ (exists lastParent anc,
           Registry.lookup ["X"; "a"] n' []
           = Some (Registry.MissingResult lastParent anc))
    /\ forall prefix, Registry.leaves n' prefix = None.
Proof.
  exact (add_below_a_leaf_without_reuse
           (MoreSamples.registryWithX MoreSamples.withoutReuse) None
           [("X", Some (Registry.RegistryWatcherNode
                          (MoreSamples.leafOnX MoreSamples.withoutReuse)))]
           ["X"; "a"]
           (fun native nativePath => [Registry.EAttachToNative native nativePath])
           (MoreSamples.leafOnX MoreSamples.withoutReuse) "a" []
           eq_refl eq_refl eq_refl).
Defined.

Lemma detach_of_an_unserved_directory_is_a_no_op_witness :
  Registry.detach (Samples.registryWithA Registry.DEFAULT_OPTIONS) "/X"
  = Some (Samples.registryWithA Registry.DEFAULT_OPTIONS, []).
Proof.
  exact (detach_of_an_unserved_directory_is_a_no_op
           (Samples.registryWithA Registry.DEFAULT_OPTIONS)
           (Samples.rootWithA Registry.DEFAULT_OPTIONS) "/X" eq_refl
           ltac:(intros E; discriminate E)
           ltac:(intros parent remaining E; discriminate E)).
Defined.

Lemma add_then_remove_restores_the_registry_witness :
  exists tree',
    Registry.add (Samples.registryWithA Samples.noRelocation) ["Y"]
                 (fun native nativePath =>
                    [Registry.EAttachToNative native nativePath])
    = Some (tree',
            [Registry.ECreateNative (Registry.absolute ([] ++ ["Y"]));
             Registry.EAttachToNative (Registry.absolute ([] ++ ["Y"]))
                                      (Registry.absolute ([] ++ ["Y"]))])
    /\ Registry.removeTree tree' ["Y"]
       = Some (Samples.registryWithA Samples.noRelocation, []).
Proof.
  exact (add_then_remove_restores_the_registry
           (Samples.registryWithA Samples.noRelocation)
           [("X", Some (Registry.RegistryNode
                          (Some "X")
                          [("a", Some (Samples.leafA Samples.noRelocation))]))]
           ["Y"]
           (fun native nativePath => [Registry.EAttachToNative native nativePath])
           eq_refl eq_refl eq_refl (or_introl eq_refl)).
Defined.

(** ** More on the FSEvents backend *)

Section FSEventsMore.

Import FSEvents.
Local Open Scope list_scope.

(** *** Splitting a path *)

Lemma substring_whole (s : string) : String.substring 0 (String.length s) s = s.
Proof. induction s as [|c s IH]; simpl; [reflexivity | rewrite IH; reflexivity]. Qed.

Lemma substring_split (s : string) (n : nat) :
  (String.substring 0 n s
   ++ String.substring n (String.length s - n) s)%string = s.
Proof.
  revert n. induction s as [|c s IH]; intros n.
  - destruct n; reflexivity.
  - destruct n as [|n].
    + simpl. rewrite substring_whole. reflexivity.
    + simpl. rewrite IH. reflexivity.
Qed.

Lemma findLastFrom_shift (s : string) (i : nat) (found : option nat) :
  findLastFrom s i found
  = match findLastFrom s 0 None with
    | Some j => Some (i + j)%nat
    | None => found
    end.
Proof.
  revert i found. induction s as [|c s IH]; intros i found; simpl.
  - reflexivity.
  - rewrite (IH (S i)), (IH 1%nat).
    destruct (findLastFrom s 0 None) as [j|].
    + f_equal. lia.
    + destruct (NodePath.is_slash c); [f_equal; lia | reflexivity].
Qed.

Lemma find_last_of_sep_cons (c : ascii) (s : string) :
  find_last_of_sep (String c s)
  = match find_last_of_sep s with
    | Some j => Some (S j)
    | None => if NodePath.is_slash c then Some 0%nat else None
    end.
Proof.
  unfold find_last_of_sep. simpl. rewrite findLastFrom_shift.
  destruct (findLastFrom s 0 None); reflexivity.
Qed.

(** What follows the last separator holds no separator. *)
Lemma after_the_last_separator (s : string) :
  Shapes.noSlash
    match find_last_of_sep s with
    | Some pos => String.substring (pos + 1) (String.length s - (pos + 1)) s
    | None => s
    end = true.
Proof.
  induction s as [|c s IH]; [reflexivity|].
  rewrite find_last_of_sep_cons.
  destruct (find_last_of_sep s) as [j|].
  - exact IH.
  - destruct (NodePath.is_slash c) eqn:Ec.
    + simpl. rewrite Nat.sub_0_r, substring_whole. exact IH.
    + simpl. rewrite Ec. exact IH.
Qed.

(** *** What is sent, and to whom *)

Lemma sendFileAction_to (this : t) (h : Z) (d f : string) (a : Action)
      (old : string) (x : FileAction) :
  In x (sendFileAction this h d f a old) ->
  x = {| watchid := h; dir := d; filename := f; action := a;
         oldFilename := old |}
  /\ In h (handlesToListeners this).
Proof.
  unfold sendFileAction.
  destruct (existsb (Z.eqb h) (handlesToListeners this)) eqn:E;
    [|intros []].
  intros [<- | []]. split; [reflexivity|].
  apply existsb_exists in E. destruct E as (y & Hy & Heq).
  apply Z.eqb_eq in Heq. subst. exact Hy.
Qed.

Lemma handleAddModDel_to (PathExists : string -> bool) (this : t) (h : Z)
      (fl : Z) (p d f : string) (x : FileAction) :
  In x (handleAddModDel PathExists this h fl p d f) ->
  watchid x = h /\ In h (handlesToListeners this).
Proof.
  unfold handleAddModDel. intros H.
  repeat (apply in_app_or in H; destruct H as [H | H]);
    repeat match type of H with
           | In _ (if ?b then _ else _) => destruct b
           end;
    try (destruct H; fail);
    apply sendFileAction_to in H; destruct H as [-> H]; auto.
Qed.

Lemma matchBody_to (PathExists : string -> bool) (this : t)
      (events : list FSEvent) (event : FSEvent) (d f : string) (i : nat)
      (m : FileEventMatch) (dirs : list string) (x : FileAction) :
  In x (fst (fst (matchBody PathExists this events event d f i m dirs))) ->
  watchid x = matchHandle m /\ In (matchHandle m) (handlesToListeners this).
Proof.
  unfold matchBody.
  destruct (hasFlag (flags event) kFSEventStreamEventFlagItemRenamed).
  2:{ simpl. apply handleAddModDel_to. }
  destruct (match nth_error events (i + 1) with
            | Some nEvent =>
                if hasFlag (flags nEvent) kFSEventStreamEventFlagItemRenamed
                   && Z.eqb (inode nEvent) (inode event)
                then Some nEvent else None
            | None => None
            end) as [nEvent|].
  - simpl. destruct (negb (String.eqb (path event) (path nEvent))).
    + destruct (String.eqb d (PathWithoutFileName (path nEvent))).
      * destruct (_ || _); intros H; apply sendFileAction_to in H;
          destruct H as [-> H]; auto.
      * intros H.
        repeat (apply in_app_or in H; destruct H as [H | H]);
          repeat match type of H with
                 | In _ (if ?b then _ else _) => destruct b
                 end;
          try (destruct H; fail);
          apply sendFileAction_to in H; destruct H as [-> H]; auto.
    + apply handleAddModDel_to.
  - destruct (PathExists (path event)); simpl; intros H.
    + repeat (apply in_app_or in H; destruct H as [H | H]);
        repeat match type of H with
               | In _ (if ?b then _ else _) => destruct b
               end;
        try (destruct H; fail);
        apply sendFileAction_to in H; destruct H as [-> H]; auto.
    + apply sendFileAction_to in H. destruct H as [-> H]; auto.
Qed.

Lemma findMatches_from (pairs : list (Z * string)) (event : FSEvent) :
  forall matches,
    Forall (fun m => In (matchHandle m, matchPath m) pairs) matches ->
    forall more,
      incl more pairs ->
      Forall (fun m => In (matchHandle m, matchPath m) pairs)
             (findMatches more event matches)
      /\ (List.length matches <= 1 ->
          List.length (findMatches more event matches) <= 2)%nat.
Proof.
  intros matches Hm more. revert matches Hm.
  induction more as [|[h p] more IH]; intros matches Hm Hincl.
  - simpl. split; [exact Hm | lia].
  - assert (Hmore : incl more pairs)
      by (intros x Hx; apply Hincl; right; exact Hx).
    simpl. destruct (negb (PathStartsWith _ _)); [exact (IH _ Hm Hmore)|].
    destruct (_ && _); [exact (IH _ Hm Hmore)|].
    set (matches' := matches ++ [{| matchHandle := h; matchPath := p |}]).
    assert (Hm' : Forall (fun m => In (matchHandle m, matchPath m) pairs)
                         matches').
    { apply Forall_app. split; [exact Hm|].
      constructor; [|constructor]. apply Hincl. left. reflexivity. }
    destruct (Nat.eqb (List.length matches') 2) eqn:E.
    + split; [exact Hm'|]. apply Nat.eqb_eq in E. lia.
    + destruct (IH matches' Hm' Hmore) as [H1 H2]. split; [exact H1|].
      intros Hlen. apply H2. apply Nat.eqb_neq in E.
      unfold matches' in *. rewrite length_app in *. simpl in *. lia.
Qed.

Lemma matchesLoop_to (PathExists : string -> bool) (this : t)
      (events : list FSEvent) (event : FSEvent) (d f : string)
      (P : FileEventMatch -> Prop) (x : FileAction) :
  forall (n : nat) (ms : list FileEventMatch) (i : nat) (dirs : list string),
    (List.length ms <= n)%nat ->
    Forall P ms ->
    In x (fst (matchesLoop PathExists this events event d f i ms dirs)) ->
    exists m, P m /\ watchid x = matchHandle m
              /\ In (matchHandle m) (handlesToListeners this).
Proof.
  induction n as [|n IH]; intros ms i dirs Hlen HP Hin.
  - destruct ms; [destruct Hin | simpl in Hlen; lia].
  - destruct ms as [|m rest]; [destruct Hin|].
    inversion HP as [|? ? Hm Hrest]; subst.
    simpl in Hin.
    destruct (matchBody PathExists this events event d f i m dirs)
      as [[sent dirs'] skipped] eqn:E.
    assert (Hsent : forall y, In y sent ->
                              watchid y = matchHandle m
                              /\ In (matchHandle m) (handlesToListeners this)).
    { intros y Hy. apply (matchBody_to PathExists this events event d f i m dirs).
      rewrite E. exact Hy. }
    destruct skipped.
    + destruct rest as [|m' rest'].
      * simpl in Hin. rewrite app_nil_r in Hin.
        exists m. split; [exact Hm | exact (Hsent _ Hin)].
      * destruct (matchesLoop PathExists this events event d f (i + 2) rest' dirs')
          as [more dirs''] eqn:E'.
        simpl in Hin. apply in_app_or in Hin. destruct Hin as [Hin | Hin].
        -- exists m. split; [exact Hm | exact (Hsent _ Hin)].
        -- apply (IH rest' (i + 2)%nat dirs').
           ++ simpl in Hlen. lia.
           ++ inversion Hrest; assumption.
           ++ rewrite E'. exact Hin.
    + destruct (matchesLoop PathExists this events event d f (i + 1) rest dirs')
        as [more dirs''] eqn:E'.
      simpl in Hin. apply in_app_or in Hin. destruct Hin as [Hin | Hin].
      * exists m. split; [exact Hm | exact (Hsent _ Hin)].
      * apply (IH rest (i + 1)%nat dirs').
        -- simpl in Hlen. lia.
        -- exact Hrest.
        -- rewrite E'. exact Hin.
Qed.

Lemma eventsLoop_cons (PathExists : string -> bool) (this : t)
      (events : list FSEvent) (event : FSEvent) (rest : list FSEvent)
      (dirs : list string) :
  eventsLoop PathExists this events (event :: rest) dirs
  = if hasFlag (flags event) streamLevelFlags
    then eventsLoop PathExists this events rest dirs
    else
      match findMatches (handlesToPaths this) event [] with
      | [] => ([], dirs)
      | matches =>
          let '(sent, dirs') :=
            matchesLoop PathExists this events event
                        (PathWithoutFileName (path event))
                        (FileNameFromPath (path event)) 0 matches dirs in
          let '(more, dirs'') := eventsLoop PathExists this events rest dirs' in
          (sent ++ more, dirs'')
      end.
Proof. reflexivity. Qed.

Lemma eventsLoop_to (PathExists : string -> bool) (this : t)
      (events : list FSEvent) (x : FileAction) :
  forall (remaining : list FSEvent) (dirs : list string),
    In x (fst (eventsLoop PathExists this events remaining dirs)) ->
    In (watchid x) (handlesToListeners this)
    /\ In (watchid x) (map fst (handlesToPaths this)).
Proof.
  induction remaining as [|event rest IH]; intros dirs Hin; [destruct Hin|].
  rewrite eventsLoop_cons in Hin.
  destruct (hasFlag (flags event) streamLevelFlags); [exact (IH _ Hin)|].
  destruct (findMatches_from (handlesToPaths this) event [] (Forall_nil _)
                             (handlesToPaths this) (incl_refl _)) as [HP _].
  remember (findMatches (handlesToPaths this) event []) as matches eqn:E.
  destruct matches as [|m ms]; [destruct Hin|].
  remember (m :: ms) as matches eqn:Em.
  destruct (matchesLoop PathExists this events event
              (PathWithoutFileName (path event))
              (FileNameFromPath (path event)) 0 matches dirs)
    as [sent dirs'] eqn:E1.
  destruct (eventsLoop PathExists this events rest dirs') as [more dirs''] eqn:E2.
  simpl in Hin. apply in_app_or in Hin. destruct Hin as [Hin | Hin].
  - destruct (matchesLoop_to PathExists this events event
                (PathWithoutFileName (path event))
                (FileNameFromPath (path event)) _ x
                (List.length matches) matches 0%nat dirs (le_n _) HP)
      as (m0 & Hm0 & Hw & Hl).
    { rewrite E1. exact Hin. }
    rewrite Hw. split; [exact Hl|].
    apply (in_map fst) in Hm0. exact Hm0.
  - apply (IH dirs'). rewrite E2. exact Hin.
Qed.

(** X19: for an absolute path, [PathWithoutFileName] and [FileNameFromPath]
    cut the path (less one trailing separator) in two, and the file name
    holds no separator: the listener's [dir + filename] is the path the
    event was about. *)
Theorem path_is_cut_into_directory_and_name (filepath : string) :
  NodePath.isAbsolute filepath = true ->
  (PathWithoutFileName filepath ++ FileNameFromPath filepath)%string
  = DirRemoveSlashAtEnd filepath
  /\ Shapes.noSlash (FileNameFromPath filepath) = true.
Proof.
  intros Habs. unfold PathWithoutFileName, FileNameFromPath.
  pose proof (after_the_last_separator (DirRemoveSlashAtEnd filepath)) as Hname.
  assert (Hd : DirRemoveSlashAtEnd filepath = ""%string
               \/ find_last_of_sep (DirRemoveSlashAtEnd filepath) <> None).
  { unfold DirRemoveSlashAtEnd.
    destruct filepath as [|c r]; [discriminate|]. simpl in Habs.
    destruct (NodePath.endsWithSep (String c r)).
    - replace (String.length (String c r) - 1)%nat with (String.length r)
        by (simpl; lia).
      destruct (String.length r) as [|n] eqn:El.
      + left. destruct r; [reflexivity | discriminate].
      + right. simpl. rewrite find_last_of_sep_cons, Habs.
        destruct (find_last_of_sep (String.substring 0 n r)); discriminate.
    - right. rewrite find_last_of_sep_cons, Habs.
      destruct (find_last_of_sep r); discriminate. }
  destruct (find_last_of_sep (DirRemoveSlashAtEnd filepath)) as [pos|] eqn:E.
  - split; [apply substring_split | exact Hname].
  - destruct Hd as [-> | Hd]; [split; reflexivity | contradiction].
Qed.

(** X20: [handleAddModDel] never reports both a creation and a deletion of
    the same entry, whatever the flags say: the disk decides between the
    two; it makes at most two calls. *)
Theorem never_both_added_and_deleted (PathExists : string -> bool) (this : t)
        (handle : Z) (fl : Z) (p dirPath filePath : string) :
  Shapes.sends Add (handleAddModDel PathExists this handle fl p dirPath filePath)
  && Shapes.sends Delete
                  (handleAddModDel PathExists this handle fl p dirPath filePath)
  = false
  /\ (List.length (handleAddModDel PathExists this handle fl p dirPath filePath)
      <= 2)%nat.
Proof.
  unfold handleAddModDel, sendFileAction.
  destruct (PathExists p);
    destruct (hasFlag fl kFSEventStreamEventFlagItemCreated);
    destruct (hasFlag fl shorthandFSEventsModified);
    destruct (hasFlag fl kFSEventStreamEventFlagItemRemoved);
    destruct (existsb (Z.eqb handle) (handlesToListeners this));
    simpl; split; try reflexivity; lia.
Qed.

(** X21: whatever the batch, [handleActions] calls only listeners of
    handles that are watched: every action it sends names a handle that
    has both a listener and a watched path. *)
Theorem actions_go_to_watched_handles (PathExists : string -> bool) (this : t)
        (events : list FSEvent) (x : FileAction) :
  In x (fst (handleActions PathExists this events)) ->
  In (watchid x) (handlesToListeners this)
  /\ In (watchid x) (map fst (handlesToPaths this)).
Proof.
  unfold handleActions.
  destruct (eventsLoop PathExists this events events (dirsChanged this))
    as [sent dirs] eqn:E.
  simpl. intros Hin.
  apply (eventsLoop_to PathExists this events x events (dirsChanged this)).
  rewrite E. exact Hin.
Qed.


End FSEventsMore.

(** ** Watches and the event stream *)

Section WatchesMore.

Import FSEventsFileWatcher.
Local Open Scope list_scope.
Local Open Scope Z_scope.

Variable iterate : Iteration.

(** *** 64-bit arithmetic *)

Lemma wrap_range (z : Z) :
  - 9223372036854775808 <= wrap z < 9223372036854775808.
Proof.
  unfold wrap.
  pose proof (Z.mod_pos_bound (z + 9223372036854775808) 18446744073709551616
                              ltac:(lia)).
  lia.
Qed.

Lemma wrap_succ (z : Z) : wrap (wrap z + 1) = wrap (z + 1).
Proof.
  unfold wrap.
  replace ((z + 9223372036854775808) mod 18446744073709551616
           - 9223372036854775808 + 1 + 9223372036854775808)
    with ((z + 9223372036854775808) mod 18446744073709551616 + 1) by lia.
  rewrite Zplus_mod_idemp_l.
  replace (z + 9223372036854775808 + 1) with (z + 1 + 9223372036854775808)
    by lia.
  reflexivity.
Qed.

Lemma wrap_apart (a : Z) (k n : nat) :
  (k < n)%nat -> Z.of_nat n < 18446744073709551616 ->
  wrap (a + Z.of_nat k) <> wrap (a + Z.of_nat n).
Proof.
  intros Hk Hn. unfold wrap. intros E.
  pose proof (Z.div_mod (a + Z.of_nat k + 9223372036854775808)
                        18446744073709551616 ltac:(lia)) as Dk.
  pose proof (Z.div_mod (a + Z.of_nat n + 9223372036854775808)
                        18446744073709551616 ltac:(lia)) as Dn.
  lia.
Qed.

(** *** Paths and listeners *)

Lemma keys_assignPath (m : list (Z * string)) (h : Z) (d : string) :
  map fst (assignPath m h d) = assignListener (map fst m) h.
Proof.
  unfold assignListener. induction m as [|[k p] m IH]; simpl; [reflexivity|].
  rewrite (Z.eqb_sym h k). destruct (k =? h); simpl; [reflexivity|].
  rewrite IH. destruct (existsb (Z.eqb h) (map fst m)); reflexivity.
Qed.

Lemma assignPath_fresh (m : list (Z * string)) (h : Z) (d : string) :
  Forall (fun k => k <> h) (map fst m) -> assignPath m h d = m ++ [(h, d)].
Proof.
  induction m as [|[k p] m IH]; simpl; [reflexivity|].
  intros H. inversion H as [|? ? Hk Hm]; subst.
  destruct (k =? h) eqn:E; [apply Z.eqb_eq in E; contradiction|].
  rewrite (IH Hm). reflexivity.
Qed.

Lemma assignPath_not_empty (m : list (Z * string)) (h : Z) (d : string) :
  assignPath m h d <> [].
Proof.
  destruct m as [|[k p] m]; simpl; [discriminate|].
  destruct (k =? h); discriminate.
Qed.

Lemma assignListener_fresh (l : list Z) (h : Z) :
  Forall (fun k => k <> h) l -> assignListener l h = l ++ [h].
Proof.
  intros H. unfold assignListener.
  destruct (existsb (Z.eqb h) l) eqn:E; [|reflexivity].
  apply existsb_exists in E. destruct E as (k & Hk & Heq).
  apply Z.eqb_eq in Heq. subst k.
  exfalso. exact (proj1 (Forall_forall _ _) H h Hk eq_refl).
Qed.

Lemma in_assignListener (l : list Z) (h x : Z) :
  In x (assignListener l h) -> x = h \/ In x l.
Proof.
  unfold assignListener. destruct (existsb (Z.eqb h) l); [auto|].
  intros H. apply in_app_or in H. destruct H as [H | [H | []]]; auto.
Qed.

Lemma filter_keys_fresh (m : list (Z * string)) (h : Z) (d : string) :
  Forall (fun k => k <> h) (map fst m) ->
  filter (fun kv => negb (fst kv =? h)) (m ++ [(h, d)]) = m.
Proof.
  induction m as [|[k p] m IH]; simpl.
  - rewrite Z.eqb_refl. reflexivity.
  - intros H. inversion H as [|? ? Hk Hm]; subst.
    destruct (k =? h) eqn:E; [apply Z.eqb_eq in E; contradiction|].
    simpl. rewrite (IH Hm). reflexivity.
Qed.

Lemma filter_handles_fresh (l : list Z) (h : Z) :
  Forall (fun k => k <> h) l ->
  filter (fun k => negb (k =? h)) (l ++ [h]) = l.
Proof.
  induction l as [|k l IH]; simpl.
  - rewrite Z.eqb_refl. reflexivity.
  - intros H. inversion H as [|? ? Hk Hl]; subst.
    destruct (k =? h) eqn:E; [apply Z.eqb_eq in E; contradiction|].
    simpl. rewrite (IH Hl). reflexivity.
Qed.

Lemma map_fst_filter (m : list (Z * string)) (h : Z) :
  map fst (filter (fun kv => negb (fst kv =? h)) m)
  = filter (fun k => negb (k =? h)) (map fst m).
Proof.
  induction m as [|[k p] m IH]; simpl; [reflexivity|].
  destruct (negb (k =? h)); simpl; rewrite IH; reflexivity.
Qed.

(** As long as fewer than [2^64] handles have been handed out, the next
    one is not in use. *)
Lemma kept_fresh (firstHandle : Z) (n : nat) (this : t) :
  kept firstHandle n this ->
  Z.of_nat n < 18446744073709551616 ->
  Forall (fun k => k <> nextHandleID this)
         (FSEvents.handlesToListeners (maps this)).
Proof.
  intros (_ & Hnext & Hused) Hn. eapply Forall_impl; [|exact Hused].
  simpl. intros h (k & Hk & ->). rewrite Hnext.
  apply wrap_apart; assumption.
Qed.

Lemma addWatch_unfolded (didStart : bool) (d : string) (this : t) :
  map fst (FSEvents.handlesToPaths (maps this))
  = FSEvents.handlesToListeners (maps this) ->
  Forall (fun k => k <> nextHandleID this)
         (FSEvents.handlesToListeners (maps this)) ->
  addWatch iterate didStart d this
  = if didStart then
      (nextHandleID this,
       {| maps :=
            {| FSEvents.handlesToPaths :=
                 FSEvents.handlesToPaths (maps this) ++ [(nextHandleID this, d)];
               FSEvents.handlesToListeners :=
                 FSEvents.handlesToListeners (maps this) ++ [nextHandleID this];
               FSEvents.dirsChanged := FSEvents.dirsChanged (maps this) |};
          nextHandleID := wrap (nextHandleID this + 1);
          currentEventStream :=
            Some (map snd
                      (iterate (FSEvents.handlesToPaths (maps this)
                                  ++ [(nextHandleID this, d)]))) |})
    else
      (wrap (- nextHandleID this),
       {| maps := maps this;
          nextHandleID := wrap (nextHandleID this + 1);
          currentEventStream := currentEventStream this |}).
Proof.
  intros Hkeys Hfresh.
  assert (Hfresh' : Forall (fun k => k <> nextHandleID this)
                           (map fst (FSEvents.handlesToPaths (maps this))))
    by (rewrite Hkeys; exact Hfresh).
  unfold addWatch, startNewStream.
  rewrite (assignPath_fresh _ _ d Hfresh'), (assignListener_fresh _ _ Hfresh).
  destruct didStart; simpl.
  - reflexivity.
  - unfold removeHandle. simpl.
    rewrite (filter_keys_fresh _ _ d Hfresh'), (filter_handles_fresh _ _ Hfresh).
    destruct this as [[ps ls ds] next stream]. reflexivity.
Qed.

Lemma step_kept (firstHandle : Z) (n : nat) (this : t) (op : Op) :
  kept firstHandle n this ->
  kept firstHandle (n + handedOut [op]) (step iterate this op).
Proof.
  intros (Hkeys & Hnext & Hused).
  destruct op as [d didStart | h didStart]; cbn [step handedOut].
  - replace (n + 1)%nat with (S n) by lia.
    assert (Hnext' : wrap (nextHandleID this + 1)
                     = wrap (firstHandle + Z.of_nat (S n))).
    { rewrite Hnext, wrap_succ. f_equal. lia. }
    assert (Hused' : Forall (fun x => exists k : nat,
                                 (k < S n)%nat
                                 /\ x = wrap (firstHandle + Z.of_nat k))
                            (assignListener
                               (FSEvents.handlesToListeners (maps this))
                               (nextHandleID this))).
    { apply Forall_forall. intros x Hx. apply in_assignListener in Hx.
      destruct Hx as [-> | Hx].
      - exists n. split; [lia | exact Hnext].
      - destruct (proj1 (Forall_forall _ _) Hused x Hx) as (k & Hk & ->).
        exists k. split; [lia | reflexivity]. }
    unfold addWatch, startNewStream.
    destruct didStart; simpl; (split; [|split]); simpl.
    + rewrite keys_assignPath, Hkeys. reflexivity.
    + exact Hnext'.
    + exact Hused'.
    + rewrite map_fst_filter, keys_assignPath, Hkeys. reflexivity.
    + exact Hnext'.
    + apply Forall_forall. intros x Hx. apply filter_In in Hx.
      exact (proj1 (Forall_forall _ _) Hused' x (proj1 Hx)).
  - replace (n + 0)%nat with n by lia.
    unfold removeWatch, startNewStream.
    destruct (Nat.eqb _ 0); [|destruct didStart]; simpl;
      (split; [|split]); simpl;
      try (rewrite map_fst_filter, Hkeys; reflexivity);
      try exact Hnext;
      apply Forall_forall; intros x Hx; apply filter_In in Hx;
      exact (proj1 (Forall_forall _ _) Hused x (proj1 Hx)).
Qed.

Lemma run_kept (firstHandle : Z) (ops : list Op) :
  kept firstHandle (handedOut ops) (run iterate ops firstHandle).
Proof.
  unfold run.
  assert (Hgen : forall n this,
             kept firstHandle n this ->
             kept firstHandle (n + handedOut ops)
                  (fold_left (step iterate) ops this)).
  { induction ops as [|op ops IH]; intros n this H.
    - simpl. replace (n + 0)%nat with n by lia. exact H.
    - simpl fold_left.
      replace (n + handedOut (op :: ops))%nat
        with ((n + handedOut [op]) + handedOut ops)%nat
        by (destruct op; simpl; lia).
      apply IH. apply step_kept. exact H. }
  apply (Hgen O). split; [reflexivity|]. split; [|constructor].
  simpl. f_equal. lia.
Qed.

(** X23: however watches are added and removed, and whether or not the
    streams start, the watched handles are exactly the handles that have
    a listener, every one of them a [long]; and as long as fewer than
    [2^64] handles have been handed out, the handle that comes next is not
    in use: no handle is given to two watches. *)
Theorem watched_handles_have_listeners (firstHandle : Z) (ops : list Op) :
  let this := run iterate ops firstHandle in
  (forall h, In h (map fst (FSEvents.handlesToPaths (maps this)))
             <-> In h (FSEvents.handlesToListeners (maps this)))
  /\ (forall h, In h (FSEvents.handlesToListeners (maps this)) ->
                - 9223372036854775808 <= h < 9223372036854775808)
  /\ (Z.of_nat (handedOut ops) < 18446744073709551616 ->
      ~ In (nextHandleID this) (FSEvents.handlesToListeners (maps this))).
Proof.
  pose proof (run_kept firstHandle ops) as Hkept.
  destruct Hkept as (Hkeys & Hnext & Hused). split; [|split].
  - intros h. rewrite Hkeys. reflexivity.
  - intros h Hh.
    destruct (proj1 (Forall_forall _ _) Hused h Hh) as (k & _ & ->).
    apply wrap_range.
  - intros Hn Hin.
    pose proof (kept_fresh _ _ _ (conj Hkeys (conj Hnext Hused)) Hn) as Hfresh.
    exact (proj1 (Forall_forall _ _) Hfresh _ Hin eq_refl).
Qed.

(** X24: when the stream for a new watch does not start, [addWatch] undoes
    the watch and answers the negated handle: paths, listeners and the
    running stream are as before, only the handle is used up (fewer than
    [2^64] handles having been handed out before). *)
Theorem failed_addWatch_is_undone (firstHandle : Z) (ops : list Op)
        (directory : string) :
  Z.of_nat (handedOut ops) < 18446744073709551616 ->
  let this := run iterate ops firstHandle in
  addWatch iterate false directory this
  = (wrap (- nextHandleID this),
     {| maps := maps this;
        nextHandleID := wrap (nextHandleID this + 1);
        currentEventStream := currentEventStream this |}).
Proof.
  intros Hn this.
  pose proof (run_kept firstHandle ops) as Hkept.
  pose proof (kept_fresh _ _ _ Hkept Hn) as Hfresh.
  destruct Hkept as (Hkeys & _).
  exact (addWatch_unfolded false directory this Hkeys Hfresh).
Qed.

(** X25: a watch whose stream started and that is removed again leaves the
    paths and the listeners as they were, whether or not a stream starts
    on removal (fewer than [2^64] handles having been handed out
    before). *)
Theorem addWatch_then_removeWatch (firstHandle : Z) (ops : list Op)
        (directory : string) (didRestart : bool) :
  Z.of_nat (handedOut ops) < 18446744073709551616 ->
  let this := run iterate ops firstHandle in
  fst (addWatch iterate true directory this) = nextHandleID this
  /\ maps (removeWatch iterate didRestart (nextHandleID this)
                       (snd (addWatch iterate true directory this)))
     = maps this.
Proof.
  intros Hn this.
  pose proof (run_kept firstHandle ops) as Hkept.
  pose proof (kept_fresh _ _ _ Hkept Hn) as Hfresh.
  destruct Hkept as (Hkeys & _). fold this in Hkeys, Hfresh.
  rewrite (addWatch_unfolded true directory this Hkeys Hfresh).
  assert (Hfresh' : Forall (fun k => k <> nextHandleID this)
                           (map fst (FSEvents.handlesToPaths (maps this))))
    by (rewrite Hkeys; exact Hfresh).
  split; [reflexivity|].
  unfold removeWatch, startNewStream, removeHandle. simpl.
  rewrite (filter_keys_fresh _ _ directory Hfresh'),
          (filter_handles_fresh _ _ Hfresh).
  destruct (Nat.eqb _ 0); [|destruct didRestart]; simpl;
    destruct (maps this); reflexivity.
Qed.

(** X26: as long as every stream starts, the running stream covers exactly
    the watched paths, in the order in which the map of the paths is gone
    through, and there is no stream when nothing is watched. *)
Theorem stream_covers_the_watched_paths (firstHandle : Z) (ops : list Op) :
  forallb started ops = true ->
  currentEventStream (run iterate ops firstHandle)
  = match FSEvents.handlesToPaths (maps (run iterate ops firstHandle)) with
    | [] => None
    | watched => Some (map snd (iterate watched))
    end.
Proof.
  unfold run.
  assert (Hgen : forall this,
             currentEventStream this
             = match FSEvents.handlesToPaths (maps this) with
               | [] => None
               | watched => Some (map snd (iterate watched))
               end ->
             forallb started ops = true ->
             currentEventStream (fold_left (step iterate) ops this)
             = match FSEvents.handlesToPaths
                       (maps (fold_left (step iterate) ops this)) with
               | [] => None
               | watched => Some (map snd (iterate watched))
               end).
  { induction ops as [|op ops IH]; intros this Hs Hall; [exact Hs|].
    simpl in Hall. apply andb_prop in Hall. destruct Hall as [Hop Hall].
    simpl. apply IH; [|exact Hall].
    destruct op as [d didStart | h didStart]; simpl in Hop; subst didStart;
      cbn [step].
    - unfold addWatch, startNewStream. simpl.
      pose proof (assignPath_not_empty (FSEvents.handlesToPaths (maps this))
                                       (nextHandleID this) d) as Hne.
      destruct (assignPath _ _ _); [contradiction | reflexivity].
    - unfold removeWatch, startNewStream. simpl.
      destruct (filter _ (FSEvents.handlesToPaths (maps this))) eqn:E;
        simpl; rewrite E; reflexivity. }
  intros Hall. apply Hgen; [reflexivity | exact Hall].
Qed.

(** *** [process] *)

Lemma in_insertSorted (d x : string) (l : list string) :
  In x (insertSorted d l) <-> x = d \/ In x l.
Proof.
  induction l as [|y l IH]; simpl.
  - split; [intros [<- | []]; auto | intros [-> | []]; auto].
  - destruct (String.leb d y); simpl.
    + split; [intros [<- | H]; auto | intros [-> | H]; auto].
    + rewrite IH. split.
      * intros [<- | [-> | H]]; auto.
      * intros [-> | [<- | H]]; auto.
Qed.

Lemma in_sorted (x : string) (l : list string) : In x (sorted l) <-> In x l.
Proof.
  induction l as [|y l IH]; simpl; [reflexivity|].
  rewrite in_insertSorted, IH. split; intros [H | H]; auto.
Qed.

Lemma length_insertSorted (d : string) (l : list string) :
  List.length (insertSorted d l) = S (List.length l).
Proof.
  induction l as [|y l IH]; simpl; [reflexivity|].
  destruct (String.leb d y); simpl; [reflexivity | rewrite IH; reflexivity].
Qed.

Lemma length_flat_map_le {A B : Type} (f : A -> list B) (l : list A) :
  (forall x, List.length (f x) <= 1)%nat ->
  (List.length (flat_map f l) <= List.length l)%nat.
Proof.
  intros H. induction l as [|x l IH]; simpl; [lia|].
  rewrite length_app. specialize (H x). lia.
Qed.

Lemma firstWatchOf_watched (pairs : list (Z * string)) (dir : string) (h : Z) :
  firstWatchOf pairs dir = Some h ->
  exists p, In (h, p) pairs /\ FSEvents.PathStartsWith dir p = true.
Proof.
  induction pairs as [|[k p] pairs IH]; simpl; [discriminate|].
  destruct (FSEvents.PathStartsWith dir p) eqn:E; simpl.
  - destruct (_ && _).
    + intros H. destruct (IH H) as (q & Hq & Hs). eauto.
    + intros H. inversion H; subst. eauto.
  - intros H. destruct (IH H) as (q & Hq & Hs). eauto.
Qed.

(** X27: [process] reports each changed directory at most once, as a
    modification of that directory seen from the directory above it, to
    the listener of a watch that the directory belongs to; afterwards no
    changed directory is left, so that a callback never reports a
    directory of an earlier callback. *)
Theorem process_reports_changed_directories
        (PathExists : string -> bool) (this : FSEvents.t)
        (events : list FSEvents.FSEvent) :
  (forall x, In x (fst (process this)) ->
             FSEvents.action x = FSEvents.Modified
             /\ FSEvents.oldFilename x = ""%string
             /\ In (FSEvents.watchid x) (FSEvents.handlesToListeners this)
             /\ exists d p,
                 In d (FSEvents.dirsChanged this)
                 /\ In (FSEvents.watchid x, p) (FSEvents.handlesToPaths this)
                 /\ FSEvents.PathStartsWith d p = true
                 /\ FSEvents.dir x = FSEvents.PathWithoutFileName d
                 /\ FSEvents.filename x = FSEvents.FileNameFromPath d)
  /\ (List.length (fst (process this))
      <= List.length (FSEvents.dirsChanged this))%nat
  /\ FSEvents.dirsChanged (snd (process this)) = []
  /\ FSEvents.dirsChanged (snd (FSEventCallback PathExists this events)) = [].
Proof.
  split; [|split; [|split]].
  - intros x Hx. unfold process in Hx. simpl in Hx.
    apply in_flat_map in Hx. destruct Hx as (d & Hd & Hx).
    apply (proj1 (in_sorted _ _)) in Hd.
    destruct (firstWatchOf (FSEvents.handlesToPaths this) d) as [h|] eqn:E;
      [|destruct Hx].
    unfold FSEvents.sendFileAction in Hx.
    destruct (existsb (Z.eqb h) (FSEvents.handlesToListeners this)) eqn:El;
      [|destruct Hx].
    destruct Hx as [<- | []]. simpl.
    apply existsb_exists in El. destruct El as (k & Hk & Heq).
    apply Z.eqb_eq in Heq. subst k.
    destruct (firstWatchOf_watched _ _ _ E) as (p & Hp & Hs).
    repeat split; try assumption. exists d, p.
    repeat split; try assumption; reflexivity.
  - unfold process. simpl.
    assert (Hlen : List.length (sorted (FSEvents.dirsChanged this))
                   = List.length (FSEvents.dirsChanged this)).
    { induction (FSEvents.dirsChanged this) as [|y l IH]; simpl;
        [reflexivity|]. rewrite length_insertSorted, IH. reflexivity. }
    rewrite <- Hlen. apply length_flat_map_le. intros d.
    destruct (firstWatchOf _ d); [|simpl; lia].
    unfold FSEvents.sendFileAction. destruct (existsb _ _); simpl; lia.
  - reflexivity.
  - unfold FSEventCallback.
    destruct (FSEvents.handleActions PathExists this events) as [sent this'].
    reflexivity.
Qed.

End WatchesMore.

(** Sample runs of the backend. *)

Lemma path_is_cut_into_directory_and_name_witness :
  (FSEvents.PathWithoutFileName "/X/f" ++ FSEvents.FileNameFromPath "/X/f")%string
  = FSEvents.DirRemoveSlashAtEnd "/X/f"
  /\ Shapes.noSlash (FSEvents.FileNameFromPath "/X/f") = true.
Proof.
  exact (path_is_cut_into_directory_and_name "/X/f" eq_refl).
Defined.

Lemma actions_go_to_watched_handles_witness :
  In (Samples.sent 1 "/X/" "a" FSEvents.Modified "")
     (fst (FSEvents.handleActions Samples.afterRename Samples.oneWatch
                                  Samples.batchWithLateRename))
  /\ In 1%Z (FSEvents.handlesToListeners Samples.oneWatch)
  /\ In 1%Z (map fst (FSEvents.handlesToPaths Samples.oneWatch)).
Proof.
  split; [left; reflexivity|].
  exact (actions_go_to_watched_handles
           Samples.afterRename Samples.oneWatch Samples.batchWithLateRename
           (Samples.sent 1 "/X/" "a" FSEvents.Modified "")
           (or_introl eq_refl)).
Defined.


Lemma failed_addWatch_is_undone_witness :
  FSEventsFileWatcher.addWatch
    MoreSamples.inOrder false "/Z"
    (FSEventsFileWatcher.run MoreSamples.inOrder MoreSamples.watches 1)
  = ((-3)%Z,
     {| FSEventsFileWatcher.maps :=
          {| FSEvents.handlesToPaths := [(2%Z, "/Y")];
             FSEvents.handlesToListeners := [2%Z];
             FSEvents.dirsChanged := [] |};
        FSEventsFileWatcher.nextHandleID := 4%Z;
        FSEventsFileWatcher.currentEventStream := Some ["/Y"] |}).
Proof.
  exact (failed_addWatch_is_undone MoreSamples.inOrder 1 MoreSamples.watches
                                   "/Z" eq_refl).
Defined.

Lemma addWatch_then_removeWatch_witness :
  fst (FSEventsFileWatcher.addWatch
         MoreSamples.inOrder true "/Z"
         (FSEventsFileWatcher.run MoreSamples.inOrder MoreSamples.watches 1))
  = 3%Z
  /\ FSEventsFileWatcher.maps
       (FSEventsFileWatcher.removeWatch
          MoreSamples.inOrder true 3
          (snd (FSEventsFileWatcher.addWatch
                  MoreSamples.inOrder true "/Z"
                  (FSEventsFileWatcher.run MoreSamples.inOrder
                                           MoreSamples.watches 1))))
     = {| FSEvents.handlesToPaths := [(2%Z, "/Y")];
          FSEvents.handlesToListeners := [2%Z];
          FSEvents.dirsChanged := [] |}.
Proof.
  exact (addWatch_then_removeWatch MoreSamples.inOrder 1 MoreSamples.watches
                                   "/Z" true eq_refl).
Defined.

Lemma stream_covers_the_watched_paths_witness :
  FSEventsFileWatcher.currentEventStream
    (FSEventsFileWatcher.run MoreSamples.inOrder MoreSamples.watches 1)
  = Some ["/Y"].
Proof.
  exact (stream_covers_the_watched_paths MoreSamples.inOrder 1
                                         MoreSamples.watches eq_refl).
Defined.

(** ** From the backend's action to the user's callback *)

Section CoreMore.

Import PathWatcher.
Local Open Scope list_scope.

Variable fs : FS.

Lemma NormalizePath_length (p : string) :
  String.length (FSEvents.NormalizePath p)
  = (String.length p + if NodePath.endsWithSep p then 0 else 1)%nat.
Proof.
  unfold FSEvents.NormalizePath. destruct (NodePath.endsWithSep p).
  - lia.
  - rewrite length_append. reflexivity.
Qed.

Lemma endsWithSep_append (a b : string) :
  b <> ""%string ->
  NodePath.endsWithSep (a ++ b) = NodePath.endsWithSep b.
Proof.
  intros Hb. unfold NodePath.endsWithSep.
  assert (H : NodePath.lastChar (a ++ b) = NodePath.lastChar b).
  { induction a as [|c a IH]; simpl; [reflexivity|].
    rewrite IH. destruct (a ++ b)%string eqn:E; [|reflexivity].
    destruct a; simpl in E; [contradiction | discriminate]. }
  rewrite H. reflexivity.
Qed.

(** An entry of a directory is not the directory. *)
Lemma entry_is_not_the_directory (d f : string) :
  f <> ""%string ->
  FSEvents.PathsAreEqual ((d ++ "/") ++ f) d = false.
Proof.
  intros Hf. unfold FSEvents.PathsAreEqual.
  destruct (String.eqb _ _) eqn:E; [|reflexivity].
  apply String.eqb_eq in E. apply (f_equal String.length) in E.
  rewrite !NormalizePath_length, !length_append in E. simpl in E.
  assert (0 < String.length f)%nat by (destruct f; [contradiction | simpl; lia]).
  destruct (NodePath.endsWithSep ((d ++ "/") ++ f));
    destruct (NodePath.endsWithSep d); lia.
Qed.

Lemma entry_differs (d f : string) : String.eqb d ((d ++ "/") ++ f) = false.
Proof.
  destruct (String.eqb _ _) eqn:E; [|reflexivity].
  apply String.eqb_eq in E. apply (f_equal String.length) in E.
  rewrite !length_append in E. simpl in E. lia.
Qed.

Lemma nothing_is_inside (this : t) : isWatchedPath this "" = false.
Proof.
  unfold isWatchedPath, sep, NodePath.startsWith.
  destruct (NodePath.endsWithSep (normalizedPath this)) eqn:E.
  - destruct (normalizedPath this); [discriminate E | reflexivity].
  - destruct (normalizedPath this); reflexivity.
Qed.

(** X28: [PredatesWatchStart] compares the two times in whole microseconds:
    a file time is earlier than the start of the watch exactly when its
    microsecond count is smaller. *)
Theorem predates_compares_microseconds
        (fileSpec : Core.timespec) (startTime : Core.timeval) :
  (0 <= Core.ts_nsec fileSpec < 1000000000)%Z ->
  (0 <= Core.tv_usec startTime < 1000000)%Z ->
  Core.PredatesWatchStart fileSpec startTime
  = (Core.ts_sec fileSpec * 1000000 + Core.ts_nsec fileSpec / 1000
     <? Core.tv_sec startTime * 1000000 + Core.tv_usec startTime)%Z.
Proof.
  intros Hn Hu. unfold Core.PredatesWatchStart.
  rewrite Z.quot_div_nonneg by lia.
  assert (Hq : (0 <= Core.ts_nsec fileSpec / 1000 < 1000000)%Z).
  { split; [apply Z.div_pos; lia | apply Z.div_lt_upper_bound; lia]. }
  destruct (Z.ltb_spec (Core.ts_sec fileSpec) (Core.tv_sec startTime));
    destruct (Z.eqb_spec (Core.ts_sec fileSpec) (Core.tv_sec startTime));
    destruct (Z.ltb_spec (Core.ts_nsec fileSpec / 1000)
                         (Core.tv_usec startTime));
    simpl; symmetry;
    try (apply Z.ltb_lt; lia); try (apply Z.ltb_ge; lia).
Qed.

(** X29: an entry of a directly watched directory that the backend reports
    as added, deleted or modified under the handle of the live native
    watcher that the directory's subscription is attached to, reaches the
    callback of that subscription as [('change', '')]:
    [handleFileAction], [ProcessEvent], [DEFAULT_CALLBACK], which finds
    the native watcher, and [onNativeEvent] in a row.  Off macOS the action
    is always passed on. *)
Theorem entry_actions_become_change
        (apple : bool) (stat : string -> option Core.Stat)
        (listener : Core.Listener) (st : NativeWatcher.State) (this : t)
        (watcher : NativeWatcher.t) (watchId : Z) (startTime : Core.timeval)
        (filename : string) (action : FSEvents.Action) :
  isWatchingParent this = false ->
  originalNormalizedPath this = normalizedPath this ->
  NodePath.endsWithSep (normalizedPath this) = false ->
  filename <> ""%string ->
  action <> FSEvents.Moved ->
  NativeWatcher.mapGet (NativeWatcher.INSTANCES st) watchId = Some watcher ->
  native this = Some (NativeWatcher.normalizedPath watcher) ->
  Core.findPath (Core.paths listener) watchId
  = Some (NativeWatcher.normalizedPath watcher, startTime) ->
  Core.PathsAreEqual ((normalizedPath this ++ "/") ++ filename)
                     (NativeWatcher.normalizedPath watcher)
  = false ->
  let sent :=
    Core.handleFileAction apple stat listener watchId
                          (normalizedPath this ++ "/") filename action "" in
  (apple = false -> exists ev, In ev sent /\ Core.handle ev = watchId)
  /\ forall ev, In ev sent -> Core.handle ev = watchId ->
       let '(name, handle, newPath, oldPath) := Core.ProcessEvent ev in
       exists event,
         Main.DEFAULT_CALLBACK st name handle newPath oldPath
         = Some (watcher, event)
         /\ onNativeEvent fs this event = (this, Called change (Some "")).
Proof.
  intros Hdir Horig Hsep Hf Haction Hlive _ Hfind Hother sent.
  assert (Hshape : forall ev, In ev sent ->
             Core.type ev = action
             /\ Core.new_path ev = ((normalizedPath this ++ "/") ++ filename)%string
             /\ Core.old_path ev = ""%string
             /\ Core.watcher_path ev = NativeWatcher.normalizedPath watcher).
  { intros ev Hin. unfold sent, Core.handleFileAction in Hin.
    rewrite Hfind in Hin. destruct (apple && _); [destruct Hin|].
    destruct Hin as [<- | Hin]; [repeat split; reflexivity|].
    destruct (Core.GetHandleForPath _ _) as [h|]; [|destruct Hin].
    destruct action; try (destruct Hin; fail).
    destruct (negb (watchId =? h)%Z); [|destruct Hin].
    destruct Hin as [<- | []]. repeat split; reflexivity. }
  split.
  - intros ->. unfold sent, Core.handleFileAction. rewrite Hfind. simpl.
    eexists. split; [left; reflexivity | reflexivity].
  - intros ev Hin Hhandle. destruct (Hshape ev Hin) as (Ht & Hn & Ho & Hw).
    unfold Core.ProcessEvent. rewrite Ht, Hn, Ho, Hw, Hother, Hhandle.
    simpl negb. unfold Main.DEFAULT_CALLBACK. rewrite Hlive.
    eexists. split; [reflexivity|].
    unfold onNativeEvent. simpl.
    assert (Hin' : isWatchedPath this ((normalizedPath this ++ "/") ++ filename)
                   = true).
    { unfold isWatchedPath, sep, NodePath.startsWith. rewrite Hsep.
      apply prefix_append. }
    rewrite Hin', Horig, entry_differs, Hdir. simpl.
    destruct action; try reflexivity. contradiction.
Qed.

(** X30: when a directly watched directory is deleted and its parent is
    watched as well, the listener makes a second event for the handle of
    the deleted directory; it is named [child-delete], and a subscription
    on the deleted directory drops it: only the parent's subscription
    hears of the deletion. *)
Theorem deleted_watched_directory_is_heard_by_the_parent_only
        (apple : bool) (stat : string -> option Core.Stat)
        (listener : Core.Listener) (this : t)
        (watchId ownHandle : Z) (parentPath name : string)
        (startTime : Core.timeval) :
  normalizedPath this = ((parentPath ++ "/") ++ name)%string ->
  NodePath.endsWithSep (normalizedPath this) = false ->
  name <> ""%string ->
  Core.findPath (Core.paths listener) watchId = Some (parentPath, startTime) ->
  Core.GetHandleForPath (Core.pathsToHandles listener) (normalizedPath this)
  = Some ownHandle ->
  ownHandle <> watchId ->
  exists first second,
    Core.handleFileAction apple stat listener watchId (parentPath ++ "/") name
                          FSEvents.Delete ""
    = [first; second]
    /\ Core.handle first = watchId
    /\ Core.ProcessEvent second
       = (child_delete, ownHandle, normalizedPath this, ""%string)
    /\ onNativeEvent fs this
         {| action := child_delete; path := normalizedPath this; oldPath := "" |}
       = (this, Returned).
Proof.
  intros Hpath Hsep Hname Hfind Hown Hneq.
  unfold Core.handleFileAction. rewrite Hfind.
  assert (Hpass : apple
                  && negb (Core.passesOnApple stat ((parentPath ++ "/") ++ name)
                                              FSEvents.Delete startTime)
                  = false).
  { unfold Core.passesOnApple. destruct (stat _); destruct apple; reflexivity. }
  rewrite Hpass, <- Hpath, Hown.
  assert (Hh : negb (watchId =? ownHandle)%Z = true).
  { apply negb_true_iff, Z.eqb_neq. intros E. apply Hneq. symmetry. exact E. }
  rewrite Hh. do 2 eexists. split; [reflexivity|].
  split; [reflexivity|]. split.
  - unfold Core.ProcessEvent. simpl. rewrite Hpath.
    unfold Core.PathsAreEqual.
    rewrite (entry_is_not_the_directory parentPath name Hname). reflexivity.
  - unfold onNativeEvent. simpl.
    rewrite (directory_not_inside_itself this Hsep), nothing_is_inside.
    reflexivity.
Qed.

End CoreMore.

(** Sample runs from the backend to the callback. *)

Lemma predates_compares_microseconds_witness :
  Core.PredatesWatchStart MoreSamples.fileTime MoreSamples.watchStart
  = (Core.ts_sec MoreSamples.fileTime * 1000000
     + Core.ts_nsec MoreSamples.fileTime / 1000
     <? Core.tv_sec MoreSamples.watchStart * 1000000
        + Core.tv_usec MoreSamples.watchStart)%Z.
Proof.
  exact (predates_compares_microseconds
           MoreSamples.fileTime MoreSamples.watchStart
           ltac:(simpl; lia) ltac:(simpl; lia)).
Defined.

Lemma entry_actions_become_change_witness :
  Core.handleFileAction false MoreSamples.noStat MoreSamples.listening
                        1 "/X/" "a" FSEvents.Add ""
  = [MoreSamples.addedA]
  /\ Core.ProcessEvent MoreSamples.addedA = (child_create, 1%Z, "/X/a", "")
  /\ exists event,
      Main.DEFAULT_CALLBACK
        (NativeWatcher.run Samples.disk Samples.counting MoreSamples.subscription)
        child_create 1 "/X/a" ""
      = Some (MoreSamples.nativeOnX, event)
      /\ PathWatcher.onNativeEvent Samples.disk MoreSamples.onDirectory event
         = (MoreSamples.onDirectory, Called change (Some "")).
Proof.
  split; [reflexivity|]. split; [reflexivity|].
  exact (proj2 (entry_actions_become_change
                  Samples.disk false MoreSamples.noStat MoreSamples.listening
                  (NativeWatcher.run Samples.disk Samples.counting
                                     MoreSamples.subscription)
                  MoreSamples.onDirectory MoreSamples.nativeOnX 1%Z
                  MoreSamples.watchStart "a" FSEvents.Add
                  eq_refl eq_refl eq_refl
                  ltac:(discriminate) ltac:(discriminate)
                  eq_refl eq_refl eq_refl eq_refl)
               MoreSamples.addedA (or_introl eq_refl) eq_refl).
Defined.

Lemma deleted_watched_directory_is_heard_by_the_parent_only_witness :
  exists first second,
    Core.handleFileAction true MoreSamples.noStat MoreSamples.listening 1
                          ("/X" ++ "/") "c" FSEvents.Delete ""
    = [first; second]
    /\ Core.handle first = 1%Z
    /\ Core.ProcessEvent second
       = (child_delete, 2%Z,
          PathWatcher.normalizedPath MoreSamples.onSubdirectory, "")
    /\ PathWatcher.onNativeEvent Samples.disk MoreSamples.onSubdirectory
         {| action := child_delete;
            path := PathWatcher.normalizedPath MoreSamples.onSubdirectory;
            oldPath := "" |}
       = (MoreSamples.onSubdirectory, Returned).
Proof.
  exact (deleted_watched_directory_is_heard_by_the_parent_only
           Samples.disk true MoreSamples.noStat MoreSamples.listening
           MoreSamples.onSubdirectory 1%Z 2%Z "/X" "c" MoreSamples.watchStart
           eq_refl eq_refl ltac:(discriminate) eq_refl eq_refl
           ltac:(discriminate)).
Defined.
